(** * deepquant-cex-go-sdk: a shallow embedding of the Gemini client

    The first part of the file is the model, package by package:
    - [GoInt], [GoStrings] : the pieces of Go's 64-bit arithmetic and of
      [strings], [strconv], [encoding/hex] and [encoding/base64] that the
      client calls;
    - [Errors]  : [pkg/errors] (error codes and [SDKError]);
    - [Limiter] : [pkg/client/rate_limiter.go] (the token bucket);
    - [Client]  : [pkg/client/http_client.go] (the transport);
    - [Gemini]  : [pkg/exchanges/gemini] (currency helpers, market, order
      and fund operations);
    - [GoText], [Exchange], [GeminiCore], [CexSDK] : [strings.HasPrefix] and
      [strings.TrimSpace], [pkg/exchange] (trading pairs and the factory),
      the rest of gemini.go, types.go and market.go, and sdk.go;
    - [Scenario], [Market] : concrete processes for the examples.
    The second part holds the theorems.

    Go strings are byte strings and are modelled by [string]; [[]byte] is
    [list byte]; Go's [int], [int64] and [time.Duration] are 64-bit and are
    modelled by [Z] with the wrap-around written out. The case mappings and
    the trimming of [strings] are written out for ASCII text, as in the fast
    paths of the library; for any other text they are the parameters of the
    class [Unicode]. *)

From Stdlib Require Import ZArith Lia ZifyNat Ascii String List Bool DecimalString.
From Stdlib.Strings Require Import Byte.
From stdpp Require Import base option list strings gmap.

Local Open Scope string_scope.

(** ** 64-bit integers *)

Module GoInt.

Local Open Scope Z_scope.

Definition min_int64 : Z := - 2 ^ 63.
Definition max_int64 : Z := 2 ^ 63 - 1.

Definition in_int64 (z : Z) : Prop := min_int64 <= z <= max_int64.

(** Two's complement wrap-around of a mathematical integer. *)
Definition wrap64 (z : Z) : Z := (z + 2 ^ 63) mod 2 ^ 64 - 2 ^ 63.

Definition add64 (a b : Z) : Z := wrap64 (a + b).
Definition sub64 (a b : Z) : Z := wrap64 (a - b).

(** [a / b] and [a % b] for a non-zero divisor: truncated towards zero; the
    quotient [min_int64 / -1] wraps. The zero divisor is a run-time panic and
    is handled where the division is written. *)
Definition quot64 (a b : Z) : Z := wrap64 (Z.quot a b).
Definition rem64 (a b : Z) : Z := Z.rem a b.

(** The builtin-shadowing helper of rate_limiter.go. *)
Definition min (a b : Z) : Z := if a <? b then a else b.

End GoInt.

(** ** Go's string and encoding helpers *)

Module GoStrings.

(** [len(s)] *)
Definition len (s : string) : nat := String.length s.

(** [s[:k]] and [s[k:]] for an index that is in range. *)
Definition take (k : nat) (s : string) : string := substring 0 k s.
Definition drop (k : nat) (s : string) : string := substring k (len s - k) s.

Definition is_upper (c : ascii) : bool :=
  (65 <=? nat_of_ascii c)%nat && (nat_of_ascii c <=? 90)%nat.
Definition is_lower (c : ascii) : bool :=
  (97 <=? nat_of_ascii c)%nat && (nat_of_ascii c <=? 122)%nat.

Definition lower_char (c : ascii) : ascii :=
  if is_upper c then ascii_of_nat (nat_of_ascii c + 32) else c.
Definition upper_char (c : ascii) : ascii :=
  if is_lower c then ascii_of_nat (nat_of_ascii c - 32) else c.

Fixpoint map_chars (f : ascii -> ascii) (s : string) : string :=
  match s with
  | EmptyString => EmptyString
  | String c rest => String (f c) (map_chars f rest)
  end.

(** Text all of whose bytes are below [utf8.RuneSelf]. *)
Definition is_ascii_byte (c : ascii) : bool := (nat_of_ascii c <? 128)%nat.

Fixpoint is_ascii (s : string) : bool :=
  match s with
  | EmptyString => true
  | String c rest => is_ascii_byte c && is_ascii rest
  end.

(** What Go's [strings] package does with text that is not ASCII, where it
    decodes UTF-8 and consults the Unicode tables:
    [Map(unicode.ToLower, s)], [Map(unicode.ToUpper, s)] and [TrimSpace(s)]
    with [unicode.IsSpace]. *)
Class Unicode : Type := {
  Map_unicode_ToLower : string -> string;
  Map_unicode_ToUpper : string -> string;
  TrimSpace_unicode_IsSpace : string -> string
}.

(** [strings.ToLower] and [strings.ToUpper]: ASCII text is mapped byte by
    byte (the fast path of the library), any other text rune by rune. *)
Definition ToLower `{Unicode} (s : string) : string :=
  if is_ascii s then map_chars lower_char s else Map_unicode_ToLower s.
Definition ToUpper `{Unicode} (s : string) : string :=
  if is_ascii s then map_chars upper_char s else Map_unicode_ToUpper s.

(** [strings.HasSuffix(s, suffix)]:
    [len(s) >= len(suffix) && s[len(s)-len(suffix):] == suffix]. *)
Definition HasSuffix (s suffix : string) : bool :=
  (len suffix <=? len s)%nat && String.eqb (drop (len s - len suffix) s) suffix.

(** [strconv.FormatInt(i, 10)] and the [%d] verb. *)
Definition FormatInt (i : Z) : string := NilZero.string_of_int (Z.to_int i).

(** [[]byte(s)] and [string(b)]. *)
Definition bytes_of (s : string) : list byte := list_byte_of_string s.
Definition string_of (b : list byte) : string := string_of_list_byte b.

Definition nat_of_byte (b : byte) : nat := nat_of_ascii (ascii_of_byte b).
Definition byte_of_nat (n : nat) : byte := byte_of_ascii (ascii_of_nat n).

(** *** encoding/hex *)

Definition hextable : string := "0123456789abcdef".

Definition hex_digit (n : nat) : ascii :=
  match get n hextable with Some c => c | None => "0"%char end.

(** [hex.EncodeToString]: two lower-case digits per byte, high nibble first. *)
Fixpoint hex_EncodeToString (src : list byte) : string :=
  match src with
  | [] => ""
  | b :: rest =>
      String (hex_digit (nat_of_byte b / 16))
        (String (hex_digit (nat_of_byte b mod 16)) (hex_EncodeToString rest))
  end.

(** *** encoding/base64, [StdEncoding] *)

Definition encodeStd : string :=
  "ABCDEFGHIJKLMNOPQRSTUVWXYZabcdefghijklmnopqrstuvwxyz0123456789+/".

Definition StdPadding : ascii := "="%char.

Definition b64_char (n : nat) : ascii :=
  match get n encodeStd with Some c => c | None => StdPadding end.

(** [base64.StdEncoding.EncodeToString]: three source bytes give four
    characters; a final group of one or two bytes is padded with [=]. *)
Fixpoint base64_EncodeToString (src : list byte) : string :=
  match src with
  | [] => ""
  | [a] =>
      let x := nat_of_byte a in
      String (b64_char (x / 4)) (String (b64_char (x mod 4 * 16))
        (String StdPadding (String StdPadding "")))
  | [a; b] =>
      let x := nat_of_byte a in
      let y := nat_of_byte b in
      String (b64_char (x / 4)) (String (b64_char (x mod 4 * 16 + y / 16))
        (String (b64_char (y mod 16 * 4)) (String StdPadding "")))
  | a :: b :: c :: rest =>
      let x := nat_of_byte a in
      let y := nat_of_byte b in
      let z := nat_of_byte c in
      String (b64_char (x / 4)) (String (b64_char (x mod 4 * 16 + y / 16))
        (String (b64_char (y mod 16 * 4 + z / 64)) (String (b64_char (z mod 64))
          (base64_EncodeToString rest))))
  end.

(** The value of a character of the alphabet. *)
Fixpoint index_from (c : ascii) (alphabet : string) (i : nat) : option nat :=
  match alphabet with
  | EmptyString => None
  | String d rest => if Ascii.eqb c d then Some i else index_from c rest (S i)
  end.

Definition b64_value (c : ascii) : option nat := index_from c encodeStd 0.

(** The decoder of the receiving side (RFC 4648, section 4, with mandatory
    padding): groups of four characters, [=] only at the end of the last one. *)
Fixpoint base64_DecodeString (s : string) : option (list byte) :=
  match s with
  | EmptyString => Some []
  | String c0 (String c1 (String c2 (String c3 rest))) =>
      match b64_value c0, b64_value c1 with
      | Some v0, Some v1 =>
          let b0 := byte_of_nat (v0 * 4 + v1 / 16) in
          if Ascii.eqb c2 StdPadding then
            if Ascii.eqb c3 StdPadding && String.eqb rest "" then Some [b0] else None
          else
            match b64_value c2 with
            | Some v2 =>
                let b1 := byte_of_nat (v1 mod 16 * 16 + v2 / 4) in
                if Ascii.eqb c3 StdPadding then
                  if String.eqb rest "" then Some [b0; b1] else None
                else
                  match b64_value c3, base64_DecodeString rest with
                  | Some v3, Some tail =>
                      Some (b0 :: b1 :: byte_of_nat (v2 mod 4 * 64 + v3) :: tail)
                  | _, _ => None
                  end
            | None => None
            end
      | _, _ => None
      end
  | _ => None
  end.

End GoStrings.

(** ** pkg/errors *)

Module Errors.

(** [ErrorCode] and its constants. *)
Inductive ErrorCode : Type :=
| ErrUnknown | ErrInvalidInput | ErrTimeout | ErrRateLimit | ErrNetworkError
| ErrInvalidResponse
| ErrInvalidAPIKey | ErrInvalidSignature | ErrPermissionDenied | ErrAPIKeyExpired
| ErrExchangeNotSupported | ErrExchangeUnavailable | ErrInvalidSymbol
| ErrInsufficientBalance | ErrOrderNotFound | ErrInvalidOrderType | ErrAPIError
| ErrJSONParsing | ErrDataParsingError | ErrDataFormat | ErrMissingField
| ErrInvalidDataType.

Definition code_string (c : ErrorCode) : string :=
  match c with
  | ErrUnknown => "UNKNOWN_ERROR"
  | ErrInvalidInput => "INVALID_INPUT"
  | ErrTimeout => "TIMEOUT"
  | ErrRateLimit => "RATE_LIMIT_EXCEEDED"
  | ErrNetworkError => "NETWORK_ERROR"
  | ErrInvalidResponse => "INVALID_RESPONSE"
  | ErrInvalidAPIKey => "INVALID_API_KEY"
  | ErrInvalidSignature => "INVALID_SIGNATURE"
  | ErrPermissionDenied => "PERMISSION_DENIED"
  | ErrAPIKeyExpired => "API_KEY_EXPIRED"
  | ErrExchangeNotSupported => "EXCHANGE_NOT_SUPPORTED"
  | ErrExchangeUnavailable => "EXCHANGE_UNAVAILABLE"
  | ErrInvalidSymbol => "INVALID_SYMBOL"
  | ErrInsufficientBalance => "INSUFFICIENT_BALANCE"
  | ErrOrderNotFound => "ORDER_NOT_FOUND"
  | ErrInvalidOrderType => "INVALID_ORDER_TYPE"
  | ErrAPIError => "API_ERROR"
  | ErrJSONParsing => "JSON_PARSING_ERROR"
  | ErrDataParsingError => "DATA_PARSING_ERROR"
  | ErrDataFormat => "INVALID_DATA_FORMAT"
  | ErrMissingField => "MISSING_FIELD"
  | ErrInvalidDataType => "INVALID_DATA_TYPE"
  end.

(** Go's [error] values that reach the SDK: an [*SDKError] (code, message,
    details, cause) or an error of another package (context, encoding/json,
    fasthttp), kept by its text. *)
#[local] Unset Elimination Schemes.
Inductive error : Type :=
| Foreign (text : string)
| SDKError (Code : ErrorCode) (Message Details : string) (Cause : option error).
#[local] Set Elimination Schemes.

(** [ctx.Err()] after cancellation or after the deadline. *)
Definition context_Canceled : error := Foreign "context canceled".
Definition context_DeadlineExceeded : error := Foreign "context deadline exceeded".

Definition New (code : ErrorCode) (message : string) : error :=
  SDKError code message "" None.

(** [Newf] receives its message already formatted. *)
Definition Newf (code : ErrorCode) (formatted : string) : error :=
  SDKError code formatted "" None.

Definition Wrap (code : ErrorCode) (message : string) (cause : error) : error :=
  SDKError code message "" (Some cause).

Definition Unwrap (e : error) : option error :=
  match e with
  | SDKError _ _ _ cause => cause
  | Foreign _ => None
  end.

Definition IsSDKError (e : error) : bool :=
  match e with SDKError _ _ _ _ => true | Foreign _ => false end.

Definition GetCode (e : error) : ErrorCode :=
  match e with
  | SDKError code _ _ _ => code
  | Foreign _ => ErrUnknown
  end.

(** A Go result pair [(value, err)] with [err == nil] or [value] zero. *)
Inductive result (A : Type) : Type :=
| Ok (a : A)
| Err (e : error).

Arguments Ok {A} a.
Arguments Err {A} e.

End Errors.

(** ** Programs over a mutable state that may end the process *)

Module Run.

(** How a Go process dies in the code modelled here. *)
Inductive crash : Type :=
| FatalUnlockOfUnlockedMutex   (* fatal error: sync: unlock of unlocked mutex *)
| PanicDivideByZero            (* panic: runtime error: integer divide by zero *)
| PanicIndexOutOfRange         (* panic: runtime error: index out of range *)
| PanicAssignmentToNilMap      (* panic: assignment to entry in nil map *)
| Blocked.                     (* Lock of a mutex that nobody will release *)

Inductive outcome (S A : Type) : Type :=
| Returns (a : A) (s : S)
| Crashes (c : crash).

Arguments Returns {S A} a s.
Arguments Crashes {S A} c.

Definition prog (S A : Type) : Type := S -> outcome S A.

Definition ret {S A} (a : A) : prog S A := fun s => Returns a s.

Definition bind {S A B} (m : prog S A) (k : A -> prog S B) : prog S B :=
  fun s =>
    match m s with
    | Returns a s' => k a s'
    | Crashes c => Crashes c
    end.

Definition get {S} : prog S S := fun s => Returns s s.
Definition put {S} (s : S) : prog S unit := fun _ => Returns tt s.
Definition modify {S} (f : S -> S) : prog S unit := fun s => Returns tt (f s).
Definition die {S A} (c : crash) : prog S A := fun _ => Crashes c.

(** [defer d] followed by [body]: when [body] returns, [d] runs and the value
    of [body] is returned. A panic in [body] is recovered nowhere in this
    code base and a fatal error runs no deferred call: both end the process. *)
Definition defer {S A} (d : prog S unit) (body : prog S A) : prog S A :=
  bind body (fun a => bind d (fun _ => ret a)).

(** A computation on a part of the state. *)
Definition zoom {S T A} (proj : S -> T) (inj : T -> S -> S) (m : prog T A) : prog S A :=
  fun s =>
    match m (proj s) with
    | Returns a t => Returns a (inj t s)
    | Crashes c => Crashes c
    end.

End Run.

Declare Scope prog_scope.
Delimit Scope prog_scope with prog.
Notation "x <- m ;; k" := (Run.bind m (fun x => k))
  (at level 100, m at next level, right associativity) : prog_scope.
Notation "m ;;; k" := (Run.bind m (fun _ => k))
  (at level 100, right associativity) : prog_scope.

(** ** pkg/client/rate_limiter.go *)

Module Limiter.

Import GoInt Errors Run.
Local Open Scope Z_scope.
Local Open Scope prog_scope.

(** [time.Duration] constants, in nanoseconds. *)
Definition Nanosecond : Z := 1.
Definition Second : Z := 1000000000.
Definition Minute : Z := 60 * Second.

(** A [time.Time] is kept as its reading of the process clock in
    nanoseconds. [t.Sub(u)] is the difference, saturated to the range of
    [time.Duration]. *)
Definition Sub (t u : Z) : Z :=
  if t - u <? min_int64 then min_int64
  else if max_int64 <? t - u then max_int64
  else t - u.

(** The struct. [mu] is [true] while the mutex is held. *)
Record RateLimiter : Type := mkRateLimiter {
  tokens : Z;
  maxTokens : Z;
  interval : Z;
  lastRefill : Z;
  mu : bool
}.

Definition set_tokens (n : Z) (rl : RateLimiter) : RateLimiter :=
  mkRateLimiter n (maxTokens rl) (interval rl) (lastRefill rl) (mu rl).
Definition set_lastRefill (t : Z) (rl : RateLimiter) : RateLimiter :=
  mkRateLimiter (tokens rl) (maxTokens rl) (interval rl) t (mu rl).
Definition set_mu (b : bool) (rl : RateLimiter) : RateLimiter :=
  mkRateLimiter (tokens rl) (maxTokens rl) (interval rl) (lastRefill rl) b.

(** [sync.Mutex]: in a single goroutine, locking a held mutex never returns;
    unlocking a free mutex is a fatal error of the runtime. *)
Definition Lock : prog RateLimiter unit :=
  fun rl => if mu rl then Crashes Blocked else Returns tt (set_mu true rl).

Definition Unlock : prog RateLimiter unit :=
  fun rl => if mu rl then Returns tt (set_mu false rl)
            else Crashes FatalUnlockOfUnlockedMutex.

(** [NewRateLimiter(maxTokens, interval)], created when the clock reads [now]. *)
Definition NewRateLimiter (maxTokens interval now : Z) : RateLimiter :=
  mkRateLimiter maxTokens maxTokens interval now false.

(** The block shared by [Wait] and [TryAcquire]:
    [if elapsed >= rl.interval { periods := int(elapsed / rl.interval); ... }]. *)
Definition refill (now : Z) : prog RateLimiter unit :=
  rl <- get ;;
  let elapsed := Sub now (lastRefill rl) in
  if interval rl <=? elapsed then
    if interval rl =? 0 then die PanicDivideByZero
    else
      let periods := quot64 elapsed (interval rl) in
      modify (set_tokens (min (maxTokens rl) (add64 (tokens rl) periods))) ;;;
      modify (set_lastRefill now)
  else ret tt.

(** What the [select] of [Wait] receives: the context is done (with
    [ctx.Err()]) or the timer of [time.After(waitTime)] fires. *)
Inductive wake : Type :=
| CtxDone (err : error)
| TimerFired.

(** [Wait(ctx)]. [now] is the first reading of the clock, [sel waitTime] the
    outcome of the [select], [now'] the reading of the clock after the timer. *)
Definition Wait (now : Z) (sel : Z -> wake) (now' : Z) : prog RateLimiter (option error) :=
  Lock ;;;
  defer Unlock
    (refill now ;;;
     rl <- get ;;
     if tokens rl <=? 0 then
       if interval rl =? 0 then die PanicDivideByZero
       else
         let waitTime :=
           sub64 (interval rl) (rem64 (Sub now (lastRefill rl)) (interval rl)) in
         Unlock ;;;
         match sel waitTime with
         | CtxDone err => ret (Some err)
         | TimerFired =>
             Lock ;;;
             modify (set_tokens 1) ;;;
             modify (set_lastRefill now') ;;;
             modify (fun rl => set_tokens (sub64 (tokens rl) 1) rl) ;;;
             ret None
         end
     else
       modify (fun rl => set_tokens (sub64 (tokens rl) 1) rl) ;;;
       ret None).

(** [TryAcquire()], called when the clock reads [now]. *)
Definition TryAcquire (now : Z) : prog RateLimiter bool :=
  Lock ;;;
  defer Unlock
    (refill now ;;;
     rl <- get ;;
     if tokens rl <=? 0 then ret false
     else
       modify (fun rl => set_tokens (sub64 (tokens rl) 1) rl) ;;;
       ret true).

(** Calls made one after the other on one limiter. *)
Inductive call : Type :=
| CallTryAcquire (now : Z)
| CallWait (now : Z) (sel : Z -> wake) (now' : Z).

Definition perform (c : call) : prog RateLimiter unit :=
  match c with
  | CallTryAcquire now => TryAcquire now ;;; ret tt
  | CallWait now sel now' => Wait now sel now' ;;; ret tt
  end.

Fixpoint perform_all (cs : list call) : prog RateLimiter unit :=
  match cs with
  | [] => ret tt
  | c :: rest => perform c ;;; perform_all rest
  end.

(** [TryAcquire] at each of the given clock readings, in order. *)
Fixpoint TryAcquire_each (times : list Z) : prog RateLimiter (list bool) :=
  match times with
  | [] => ret []
  | t :: rest =>
      ok <- TryAcquire t ;;
      oks <- TryAcquire_each rest ;;
      ret (ok :: oks)
  end.

(** The invariant of the data model: [0 <= tokens <= capacity]. *)
Definition within_capacity (rl : RateLimiter) : Prop :=
  0 <= tokens rl <= maxTokens rl.

(** The state that the refill block leaves when the interval is not zero. *)
Definition refilled (now : Z) (rl : RateLimiter) : RateLimiter :=
  if interval rl <=? Sub now (lastRefill rl) then
    set_lastRefill now
      (set_tokens (min (maxTokens rl)
                     (add64 (tokens rl) (quot64 (Sub now (lastRefill rl)) (interval rl))))
         rl)
  else rl.

(** A limiter of capacity [N] and interval [iv] between two calls: the
    mutex is free and the token count is within the capacity. *)
Definition steady (N iv : Z) (rl : RateLimiter) : Prop :=
  mu rl = false /\ maxTokens rl = N /\ interval rl = iv /\ 0 <= tokens rl <= N.

(** A call whose context is not done while it waits. *)
Definition timer_only (c : call) : Prop :=
  match c with
  | CallTryAcquire _ => True
  | CallWait _ sel _ => forall d, sel d = TimerFired
  end.

(** The invariant at every observation point of a limiter built with
    [NewRateLimiter(N, iv)]: after the constructor and after every sequence
    of completed calls. *)
Definition always_within_capacity (N iv t0 : Z) : Prop :=
  within_capacity (NewRateLimiter N iv t0) /\
  forall cs rl', perform_all cs (NewRateLimiter N iv t0) = Returns tt rl' ->
                 within_capacity rl'.

(** The limiter of capacity [N] with no token left, last refilled at [t]. *)
Definition drained_at (N iv t : Z) : RateLimiter := mkRateLimiter 0 N iv t false.

(** The refill property as the specification words it: [N] acquisitions
    succeed and the next fails at once; one interval later, with no access
    in between, [N] acquisitions succeed again. *)
Definition refills_to_capacity (N iv t0 : Z) : Prop :=
  exists drained,
    TryAcquire_each (repeat t0 (S (Z.to_nat N))) (NewRateLimiter N iv t0) =
      Returns (repeat true (Z.to_nat N) ++ [false])%list drained /\
    exists rl', TryAcquire_each (repeat (t0 + iv) (Z.to_nat N)) drained =
                  Returns (repeat true (Z.to_nat N)) rl'.

End Limiter.

(** ** pkg/client/http_client.go *)

Module Client.

Import GoInt GoStrings Errors Run Limiter.
Local Open Scope prog_scope.

(** [APIType] is a string type with two named values. *)
Definition APIType : Type := string.
Definition APITypePublic : APIType := "public".
Definition APITypePrivate : APIType := "private".

(** The fields of [HTTPClient] that requests read. The limiters are held
    through pointers that nothing else shares, so they are kept in place.
    [ReadTimeout] stands for the embedded fasthttp client; [customClient] is
    stored by its setter and read nowhere; the [RWMutex] guards every access
    below with a matching Lock/Unlock pair and is left out. *)
Record HTTPClient : Type := mkHTTPClient {
  ReadTimeout : Z;
  publicLimiter : option RateLimiter;
  privateLimiter : option RateLimiter;
  headers : gmap string string;
  proxies : list string
}.

(** A request as handed to fasthttp: method, URI, body ([None] when
    [SetBody] was not called), header fields by name as written, and the
    proxy dialled ([None] for the direct client). *)
Record Request : Type := mkRequest {
  method : string;
  uri : string;
  body : option (list byte);
  header : gmap string string;
  dial : option string
}.

(** What [DoTimeout] gives back: an error, or a status code and a body. *)
Inductive reply : Type :=
| NetFail (cause : error)
| NetResponse (status : Z) (payload : list byte).

(** zerolog levels and a log line with its string fields. *)
Inductive Level : Type := Debug | Info | Warn | Error.

Record LogLine : Type := mkLogLine {
  level : Level;
  message : string;
  fields : list (string * string)
}.

(** The surroundings of the process, one answer per interaction: the
    [k]-th interaction reads the clock, waits in a [select] on the caller's
    context, draws a random index or performs a round trip. The caller's
    [ctx] is present through [select_ctx]. *)
Class Network : Type := {
  time_Now : nat -> Z;
  select_ctx : nat -> Z -> wake;
  rand_Intn : nat -> nat -> nat;
  DoTimeout : nat -> Request -> reply
}.

(** A client in its process: the struct, the number of interactions so
    far, the requests put on the wire (oldest first) and the lines given to
    the logger (oldest first). *)
Record Session : Type := mkSession {
  http : HTTPClient;
  step : nat;
  wire : list Request;
  journal : list LogLine
}.

Definition NewHTTPClient (timeout : Z) : HTTPClient :=
  mkHTTPClient timeout None None ∅ [].

Definition NewSession (timeout : Z) : Session :=
  mkSession (NewHTTPClient timeout) 0 [] [].

Definition set_http (c : HTTPClient) (s : Session) : Session :=
  mkSession c (step s) (wire s) (journal s).

Definition advance (n : nat) (s : Session) : Session :=
  mkSession (http s) (step s + n) (wire s) (journal s).

(** [SetRateLimit(apiType, requests, interval)] when the clock reads [now]. *)
Definition SetRateLimit (apiType : APIType) (requests interval now : Z)
    (c : HTTPClient) : HTTPClient :=
  if String.eqb apiType APITypePublic then
    mkHTTPClient (ReadTimeout c) (Some (NewRateLimiter requests interval now))
      (privateLimiter c) (headers c) (proxies c)
  else if String.eqb apiType APITypePrivate then
    mkHTTPClient (ReadTimeout c) (publicLimiter c)
      (Some (NewRateLimiter requests interval now)) (headers c) (proxies c)
  else c.

(** [for k, v := range src { dst[k] = v }] *)
Definition assign_all (src dst : gmap string string) : gmap string string :=
  map_fold (fun k v acc => <[k:=v]> acc) dst src.

(** [SetHeaders(headers)] *)
Definition SetHeaders (h : gmap string string) (c : HTTPClient) : HTTPClient :=
  mkHTTPClient (ReadTimeout c) (publicLimiter c) (privateLimiter c)
    (assign_all h (headers c)) (proxies c).

(** [make([]string, len(src))] followed by [copy(dst, src)]. *)
Definition copy_of (src : list string) : list string :=
  fold_right (fun p acc => p :: acc) [] src.

(** [SetProxies(proxies)] *)
Definition SetProxies (ps : list string) (c : HTTPClient) : HTTPClient :=
  mkHTTPClient (ReadTimeout c) (publicLimiter c) (privateLimiter c)
    (headers c) (copy_of ps).

(** A line for the logger. *)
Definition logf (lv : Level) (msg : string) (fs : list (string * string)) :
    prog Session unit :=
  modify (fun s => mkSession (http s) (step s) (wire s)
                     (journal s ++ [mkLogLine lv msg fs])).

(** The [switch apiType] that selects the limiter; any other value leaves
    the pointer nil. *)
Definition limiter_for (apiType : APIType) (c : HTTPClient) : option RateLimiter :=
  if String.eqb apiType APITypePublic then publicLimiter c
  else if String.eqb apiType APITypePrivate then privateLimiter c
  else None.

Definition with_limiter (apiType : APIType) (rl : RateLimiter) (c : HTTPClient) :
    HTTPClient :=
  if String.eqb apiType APITypePublic then
    mkHTTPClient (ReadTimeout c) (Some rl) (privateLimiter c) (headers c) (proxies c)
  else if String.eqb apiType APITypePrivate then
    mkHTTPClient (ReadTimeout c) (publicLimiter c) (Some rl) (headers c) (proxies c)
  else c.

(** [if rateLimiter != nil { if err := rateLimiter.Wait(ctx); ... }]: the
    call owns three interactions, the two clock readings of [Wait] around
    its [select]. *)
Definition wait_for_token `{Network} (apiType : APIType) : prog Session (option error) :=
  s <- get ;;
  match limiter_for apiType (http s) with
  | None => ret None
  | Some rl =>
      err <- zoom (fun _ => rl) (fun rl' s => set_http (with_limiter apiType rl' (http s)) s)
               (Wait (time_Now (step s)) (select_ctx (step s + 1)) (time_Now (step s + 2))) ;;
      modify (advance 3) ;;;
      ret err
  end.

(** [proxies[rand.Intn(len(proxies))]] when the list is not empty. *)
Definition pick_proxy `{Network} (ps : list string) : prog Session (option string) :=
  if (0 <? length ps)%nat then
    s <- get ;;
    modify (advance 1) ;;;
    match ps !! (rand_Intn (step s) (length ps) mod length ps)%nat with
    | Some p => ret (Some p)
    | None => die PanicIndexOutOfRange
    end
  else ret None.

(** [client.DoTimeout(req, resp, timeout)] *)
Definition roundtrip `{Network} (req : Request) : prog Session reply :=
  s <- get ;;
  put (mkSession (http s) (step s + 1) (wire s ++ [req]) (journal s)) ;;;
  ret (DoTimeout (step s) req).

(** What [request] and [requestWithHeaders] do with the outcome of
    [DoTimeout]: a transport error, a status other than 200, or the body. *)
Definition conclude (r : reply) : prog Session (result (list byte)) :=
  match r with
  | NetFail cause =>
      logf Error "Request failed" [] ;;;
      ret (Err (Wrap ErrNetworkError "request failed" cause))
  | NetResponse status payload =>
      logf Debug "Received HTTP response" [("status", FormatInt status)] ;;;
      if negb (Z.eqb status 200) then
        logf Error "HTTP error response" [("status", FormatInt status)] ;;;
        ret (Err (Newf ErrNetworkError
                    ("HTTP error: " ++ FormatInt status ++ " " ++ string_of payload)))
      else
        logf Debug "Request completed successfully" [] ;;;
        ret (Ok payload)
  end.

(** The part that [request] and [requestWithHeaders] share after the
    header fields are set: proxy choice, round trip, status check. The two
    clock readings around [DoTimeout] only feed a log field and are left out. *)
Definition send `{Network} (method url : string) (body : option (list byte))
    (hdr : gmap string string) (ps : list string) : prog Session (result (list byte)) :=
  via <- pick_proxy ps ;;
  r <- roundtrip (mkRequest method url body hdr via) ;;
  conclude r.

(** [requestWithHeaders(ctx, method, url, body, headers, apiType)] *)
Definition requestWithHeaders `{Network} (method url : string)
    (body : option (list byte)) (custom : gmap string string) (apiType : APIType) :
    prog Session (result (list byte)) :=
  logf Debug "Sending HTTP request with custom headers"
    [("method", method); ("url", url); ("apiType", apiType)] ;;;
  waited <- wait_for_token apiType ;;
  match waited with
  | Some err =>
      logf Error "Rate limit error" [] ;;;
      ret (Err (Wrap ErrRateLimit "rate limit error" err))
  | None =>
      s <- get ;;
      let hdr := assign_all custom (assign_all (headers (http s)) ∅) in
      send method url body hdr (copy_of (proxies (http s)))
  end.

(** [request(ctx, method, url, body, apiType)] *)
Definition request `{Network} (method url : string) (body : option (list byte))
    (apiType : APIType) : prog Session (result (list byte)) :=
  logf Debug "Sending HTTP request"
    [("method", method); ("url", url); ("apiType", apiType)] ;;;
  waited <- wait_for_token apiType ;;
  match waited with
  | Some err =>
      logf Error "Rate limit error" [] ;;;
      ret (Err (Wrap ErrRateLimit "rate limit error" err))
  | None =>
      s <- get ;;
      let content_type : gmap string string :=
        match body with
        | Some _ => {[ "Content-Type" := "application/json" ]}
        | None => ∅
        end in
      let hdr := assign_all (headers (http s)) content_type in
      send method url body hdr (copy_of (proxies (http s)))
  end.

Definition RequestWithType `{Network} (method url : string) (body : option (list byte))
    (apiType : APIType) : prog Session (result (list byte)) :=
  request method url body apiType.

Definition Get `{Network} (url : string) : prog Session (result (list byte)) :=
  RequestWithType "GET" url None APITypePublic.

Definition Post `{Network} (url : string) (body : option (list byte)) :
    prog Session (result (list byte)) :=
  RequestWithType "POST" url body APITypePrivate.

Definition GetWithType `{Network} (url : string) (apiType : APIType) :
    prog Session (result (list byte)) :=
  RequestWithType "GET" url None apiType.

Definition PostWithHeaders `{Network} (url : string) (body : option (list byte))
    (custom : gmap string string) (apiType : APIType) :
    prog Session (result (list byte)) :=
  requestWithHeaders "POST" url body custom apiType.

(** The caller's context is never done while a request waits for a token. *)
Definition calm `{Network} : Prop := forall k d, select_ctx k d = TimerFired.

(** The limiter of an API class, when there is one, has a free mutex. *)
Definition unlocked (apiType : APIType) (c : HTTPClient) : Prop :=
  forall rl, limiter_for apiType c = Some rl -> mu rl = false.

(** ... and an interval that is not zero. *)
Definition usable (apiType : APIType) (c : HTTPClient) : Prop :=
  forall rl, limiter_for apiType c = Some rl -> mu rl = false /\ interval rl <> 0%Z.

End Client.

(** ** pkg/exchanges/gemini *)

Module Gemini.

Import GoInt GoStrings Errors Run Limiter Client.
Local Open Scope prog_scope.

Definition baseURLProd : string := "https://api.gemini.com".
Definition baseURLSandbox : string := "https://api.sandbox.gemini.com".
Definition exchangeName : string := "gemini".
Definition errorStatus : string := "error".

(** [float64] fields travel as their IEEE 754 bit pattern. *)
Definition float64 : Type := Z.

Definition OrderSide : Type := string.
Definition OrderSideBuy : OrderSide := "buy".
Definition OrderSideSell : OrderSide := "sell".

Definition OrderType : Type := string.
Definition OrderTypeExchangeLimit : OrderType := "exchange limit".
Definition OrderTypeAuctionOnly : OrderType := "auction-only".
Definition OrderTypeMarketBuy : OrderType := "market buy".
Definition OrderTypeMarketSell : OrderType := "market sell".
Definition OrderTypeImmediateOrCancel : OrderType := "immediate-or-cancel".
Definition OrderTypeFillOrKill : OrderType := "fill-or-kill".
Definition OrderTypeIndicationOfInterest : OrderType := "indication-of-interest".

(** *** Request payloads *)

Module NewOrderRequest.
Record t : Type := mk {
  Request : string;
  Nonce : string;
  ClientOrderID : string;
  Symbol : string;
  Amount : string;
  Price : string;
  Side : OrderSide;
  Type_ : OrderType;
  Options : list string;
  Account : string
}.
End NewOrderRequest.

Module CancelOrderRequest.
Record t : Type := mk {
  Request : string;
  Nonce : string;
  OrderID : string;
  Account : string
}.
End CancelOrderRequest.

Module GetActiveOrdersRequest.
Record t : Type := mk {
  Request : string;
  Nonce : string;
  Account : string
}.
End GetActiveOrdersRequest.

Module GetOrderStatusRequest.
Record t : Type := mk {
  Request : string;
  Nonce : string;
  OrderID : string;
  ClientOrderID : string;
  IncludeTrades : bool;
  Account : string
}.
End GetOrderStatusRequest.

Module GetAvailableBalancesRequest.
Record t : Type := mk {
  Request : string;
  Nonce : string;
  Account : string
}.
End GetAvailableBalancesRequest.

Module GetNotionalBalancesRequest.
Record t : Type := mk {
  Request : string;
  Nonce : string;
  Account : string
}.
End GetNotionalBalancesRequest.

Module ListDepositAddressesRequest.
Record t : Type := mk {
  Request : string;
  Nonce : string;
  Account : string
}.
End ListDepositAddressesRequest.

(** The values given to [json.Marshal] by the private operations. *)
Inductive payload : Type :=
| PNewOrder (r : NewOrderRequest.t)
| PCancelOrder (r : CancelOrderRequest.t)
| PGetActiveOrders (r : GetActiveOrdersRequest.t)
| PGetOrderStatus (r : GetOrderStatusRequest.t)
| PGetAvailableBalances (r : GetAvailableBalancesRequest.t)
| PGetNotionalBalances (r : GetNotionalBalancesRequest.t)
| PListDepositAddresses (r : ListDepositAddressesRequest.t).

(** The [request] and [nonce] fields of a payload. *)
Definition payload_request (p : payload) : string :=
  match p with
  | PNewOrder r => NewOrderRequest.Request r
  | PCancelOrder r => CancelOrderRequest.Request r
  | PGetActiveOrders r => GetActiveOrdersRequest.Request r
  | PGetOrderStatus r => GetOrderStatusRequest.Request r
  | PGetAvailableBalances r => GetAvailableBalancesRequest.Request r
  | PGetNotionalBalances r => GetNotionalBalancesRequest.Request r
  | PListDepositAddresses r => ListDepositAddressesRequest.Request r
  end.

Definition payload_nonce (p : payload) : string :=
  match p with
  | PNewOrder r => NewOrderRequest.Nonce r
  | PCancelOrder r => CancelOrderRequest.Nonce r
  | PGetActiveOrders r => GetActiveOrdersRequest.Nonce r
  | PGetOrderStatus r => GetOrderStatusRequest.Nonce r
  | PGetAvailableBalances r => GetAvailableBalancesRequest.Nonce r
  | PGetNotionalBalances r => GetNotionalBalancesRequest.Nonce r
  | PListDepositAddresses r => ListDepositAddressesRequest.Nonce r
  end.

(** *** Response types *)

Record Order : Type := mkOrder {
  Order_OrderID : string;
  Order_ID : string;
  Order_Symbol : string;
  Order_Exchange : string;
  Order_AvgExecutionPrice : string;
  Order_Side : OrderSide;
  Order_Type : OrderType;
  Order_Timestamp : string;
  Order_Timestampms : Z;
  Order_IsLive : bool;
  Order_IsCancelled : bool;
  Order_IsHidden : bool;
  Order_WasForced : bool;
  Order_ExecutedAmount : string;
  Order_RemainingAmount : string;
  Order_Options : list string;
  Order_Price : string;
  Order_OriginalAmount : string;
  Order_ClientOrderID : string
}.

Record Balance : Type := mkBalance {
  Balance_Type : string;
  Balance_Currency : string;
  Balance_Amount : string;
  Balance_Available : string;
  Balance_AvailableForWithdrawal : string
}.

Record NotionalBalance : Type := mkNotionalBalance {
  Notional_Currency : string;
  Notional_Amount : string;
  Notional_AmountNotional : string;
  Notional_Available : string;
  Notional_AvailableNotional : string;
  Notional_AvailableForWithdrawal : string;
  Notional_AvailableForWithdrawalNotional : string
}.

Record DepositAddress : Type := mkDepositAddress {
  Deposit_Address : string;
  Deposit_Timestamp : Z;
  Deposit_Label : string;
  Deposit_Memo : string;
  Deposit_Network : string
}.

Record SymbolDetails : Type := mkSymbolDetails {
  Details_Symbol : string;
  Details_BaseCurrency : string;
  Details_QuoteCurrency : string;
  Details_TickSize : float64;
  Details_QuoteIncrement : float64;
  Details_MinOrderSize : string;
  Details_Status : string;
  Details_WrapEnabled : bool;
  Details_ProductType : string;
  Details_ContractType : string;
  Details_ContractPriceCurrency : string
}.

Record ErrorResponse : Type := mkErrorResponse {
  Result : string;
  Reason : string;
  Message : string
}.

(** The standard-library functions the package relies on:
    [json.Marshal] on the request structs, [json.Unmarshal] into each
    response type ([Err] when it returns a non-nil error), and
    [hmac.New(sha512.New384, key)] followed by [Write(msg)] and [Sum(nil)]. *)
Class Codec : Type := {
  json_Marshal : payload -> result (list byte);
  json_Unmarshal_ErrorResponse : list byte -> result ErrorResponse;
  json_Unmarshal_Order : list byte -> result Order;
  json_Unmarshal_Orders : list byte -> result (list Order);
  json_Unmarshal_Balances : list byte -> result (list Balance);
  json_Unmarshal_NotionalBalances : list byte -> result (list NotionalBalance);
  json_Unmarshal_DepositAddresses : list byte -> result (list DepositAddress);
  json_Unmarshal_SymbolDetails : list byte -> result SymbolDetails;
  json_Unmarshal_Symbols : list byte -> result (list string);
  hmac_sha384 : list byte -> list byte -> list byte
}.

(** *** The exchange *)

(** [exchange.RateLimit], [exchange.RateLimitConfig] and the fields of
    [exchange.Config] that [NewGemini] reads (its logger and its custom
    HTTP client only redirect log lines and are left out). *)
Record RateLimit : Type := mkRateLimit {
  Requests : Z;
  Interval : Z
}.

Record RateLimitConfig : Type := mkRateLimitConfig {
  Public : RateLimit;
  Private : RateLimit
}.

Record Config : Type := mkConfig {
  APIKey : string;
  SecretKey : string;
  Timeout : Z;
  RateLimit_ : RateLimitConfig;
  Testnet : bool
}.

(** The struct [Gemini]; [client] is the HTTP client in its process. *)
Record Gemini : Type := mkGemini {
  client : Session;
  baseURL : string;
  apiKey : string;
  apiSecret : string;
  sandbox : bool;
  userAgent : string
}.

Definition set_client (s : Session) (g : Gemini) : Gemini :=
  mkGemini s (baseURL g) (apiKey g) (apiSecret g) (sandbox g) (userAgent g).

(** A computation of the transport, run on the client of the exchange. *)
Definition on_client {A} (m : prog Session A) : prog Gemini A :=
  zoom client set_client m.

(** [g.logger] and [g.client.logger] feed the same journal. *)
Definition glog (lv : Level) (msg : string) (fs : list (string * string)) :
    prog Gemini unit :=
  on_client (logf lv msg fs).

(** [time.Now().UnixNano()], one interaction. *)
Definition UnixNano_now `{Network} : prog Gemini Z :=
  on_client (s <- get ;; modify (advance 1) ;;; ret (time_Now (step s))).

(** [g.client.SetRateLimit(...)]: the new limiter reads the clock once. *)
Definition client_SetRateLimit `{Network} (apiType : APIType) (requests interval : Z)
    (s : Session) : Session :=
  advance 1 (set_http (SetRateLimit apiType requests interval (time_Now (step s)) (http s)) s).

(** [NewGemini(config)]; [None] is the nil configuration. *)
Definition NewGemini `{Network} (config : option Config) : Gemini :=
  let baseURL :=
    match config with
    | Some c => if Testnet c then baseURLSandbox else baseURLProd
    | None => baseURLProd
    end in
  let timeout :=
    match config with
    | Some c => if (0 <? Timeout c)%Z then Timeout c else (30 * Second)%Z
    | None => (30 * Second)%Z
    end in
  let userAgent := "CEX-SDK/1.0" in
  let s0 := NewSession timeout in
  let s2 :=
    match config with
    | Some c =>
        let s1 :=
          if (0 <? Requests (Public (RateLimit_ c)))%Z then
            client_SetRateLimit APITypePublic (Requests (Public (RateLimit_ c)))
              (Interval (Public (RateLimit_ c))) s0
          else client_SetRateLimit APITypePublic 120 Minute s0 in
        if (0 <? Requests (Private (RateLimit_ c)))%Z then
          client_SetRateLimit APITypePrivate (Requests (Private (RateLimit_ c)))
            (Interval (Private (RateLimit_ c))) s1
        else client_SetRateLimit APITypePrivate 600 Minute s1
    | None => s0
    end in
  let headers : gmap string string :=
    <["User-Agent" := userAgent]> (<["Content-Type" := "application/json"]> ∅) in
  let s3 := set_http (SetHeaders headers (http s2)) s2 in
  let s4 := mkSession (http s3) (step s3) (wire s3)
              (journal s3 ++ [mkLogLine Info "Gemini exchange initialized"
                                [("baseURL", baseURL)]]) in
  mkGemini s4 baseURL
    (match config with Some c => APIKey c | None => "" end)
    (match config with Some c => SecretKey c | None => "" end)
    (match config with Some c => Testnet c | None => false end)
    userAgent.

(** The setters of the exchange. *)
Definition SetAPICredentials (key secret : string) (g : Gemini) : Gemini :=
  mkGemini (client g) (baseURL g) key secret (sandbox g) (userAgent g).

Definition SetSandbox (on : bool) (g : Gemini) : Gemini :=
  mkGemini (client g) (if on then baseURLSandbox else baseURLProd)
    (apiKey g) (apiSecret g) on (userAgent g).

Definition Gemini_SetProxies (ps : list string) (g : Gemini) : Gemini :=
  set_client (set_http (SetProxies ps (http (client g))) (client g)) g.

(** [headers[k]] on a Go map: the zero value when the key is absent. *)
Definition index (h : gmap string string) (k : string) : string :=
  match h !! k with Some v => v | None => "" end.

(** [SetHeaders(headers)] of the exchange. [None] is the nil map, on which
    [headers["User-Agent"]] reads the empty string and the assignment that
    follows panics. The map is the caller's: the two assignments are made in
    it, and the call returns it as the caller finds it afterwards. *)
Definition Gemini_SetHeaders (headers : option (gmap string string)) :
    prog Gemini (gmap string string) :=
  g <- get ;;
  match headers with
  | None => die PanicAssignmentToNilMap
  | Some h =>
      let h1 := if String.eqb (index h "User-Agent") ""
                then <["User-Agent" := userAgent g]> h else h in
      let h2 := if String.eqb (index h1 "Content-Type") ""
                then <["Content-Type" := "application/json"]> h1 else h1 in
      put (set_client (set_http (SetHeaders h2 (http (client g))) (client g)) g) ;;;
      ret h2
  end.

(** *** Currency helpers (gemini.go) *)

Definition quoteCurrencies : list string :=
  ["usd"; "btc"; "eth"; "eur"; "gbp"; "sgd"; "gusd"; "dai"].

(** [for _, quote := range quoteCurrencies { if strings.HasSuffix(symbol, quote)
    { return strings.ToUpper(symbol[:len(symbol)-len(quote)]) } }];
    [None] when the loop ends without returning. *)
Fixpoint base_by_quote `{Unicode} (symbol : string) (quotes : list string) :
    option string :=
  match quotes with
  | [] => None
  | quote :: rest =>
      if HasSuffix symbol quote
      then Some (ToUpper (take (len symbol - len quote) symbol))
      else base_by_quote symbol rest
  end.

Definition extractBaseCurrency `{Unicode} (symbol : string) : string :=
  let symbol := ToLower symbol in
  match base_by_quote symbol quoteCurrencies with
  | Some base => base
  | None =>
      if (6 <=? len symbol)%nat then ToUpper (take 3 symbol)
      else ToUpper symbol
  end.

Fixpoint quote_by_suffix `{Unicode} (symbol : string) (quotes : list string) :
    option string :=
  match quotes with
  | [] => None
  | quote :: rest =>
      if HasSuffix symbol quote then Some (ToUpper quote)
      else quote_by_suffix symbol rest
  end.

Definition extractQuoteCurrency `{Unicode} (symbol : string) : string :=
  let symbol := ToLower symbol in
  match quote_by_suffix symbol quoteCurrencies with
  | Some quote => quote
  | None =>
      if (6 <=? len symbol)%nat then ToUpper (drop (len symbol - 3) symbol)
      else "USD"
  end.

(** The heuristic as the specification words it: the longest known quote
    currency that is a suffix of the lower-cased symbol, else the first and
    last three characters, else the whole symbol and "USD". *)
Definition longest_quote (symbol : string) (quotes : list string) : option string :=
  fold_left
    (fun best quote =>
       if HasSuffix symbol quote then
         match best with
         | Some b => if (len b <? len quote)%nat then Some quote else best
         | None => Some quote
         end
       else best)
    quotes None.

Definition longest_match_base `{Unicode} (symbol : string) : string :=
  let symbol := ToLower symbol in
  match longest_quote symbol quoteCurrencies with
  | Some quote => ToUpper (take (len symbol - len quote) symbol)
  | None =>
      if (6 <=? len symbol)%nat then ToUpper (take 3 symbol)
      else ToUpper symbol
  end.

Definition longest_match_quote `{Unicode} (symbol : string) : string :=
  let symbol := ToLower symbol in
  match longest_quote symbol quoteCurrencies with
  | Some quote => ToUpper quote
  | None =>
      if (6 <=? len symbol)%nat then ToUpper (drop (len symbol - 3) symbol)
      else "USD"
  end.

(** *** Private operations (order.go, fund.go) *)

(** [o.gemini.apiKey == "" || o.gemini.apiSecret == ""] *)
Definition credentials_missing (g : Gemini) : bool :=
  String.eqb (apiKey g) "" || String.eqb (apiSecret g) "".

(** The headers literal of a private call for the marshalled payload. *)
Definition auth_headers `{Codec} (g : Gemini) (payloadBytes : list byte) :
    gmap string string :=
  let payload := base64_EncodeToString payloadBytes in
  let signature :=
    hex_EncodeToString (hmac_sha384 (bytes_of (apiSecret g)) (bytes_of payload)) in
  <["X-GEMINI-APIKEY" := apiKey g]>
    (<["X-GEMINI-PAYLOAD" := payload]>
      (<["X-GEMINI-SIGNATURE" := signature]>
        (<["Content-Type" := "text/plain"]>
          (<["Content-Length" := "0"]>
            (<["Cache-Control" := "no-cache"]> ∅))))).

(** The probe for the error envelope:
    [json.Unmarshal(response, &errorResp) == nil && errorResp.Result == errorStatus]. *)
Definition api_error `{Codec} (response : list byte) : option error :=
  match json_Unmarshal_ErrorResponse response with
  | Ok errorResp =>
      if String.eqb (Result errorResp) errorStatus then
        Some (Newf ErrAPIError
                ("Gemini API error: " ++ Reason errorResp ++ " - " ++ Message errorResp))
      else None
  | Err _ => None
  end.

(** A prepared line for the logger of the exchange. *)
Definition gemit (l : LogLine) : prog Gemini unit :=
  glog (level l) (message l) (fields l).

(** What a private operation does with the answer of [PostWithHeaders]:
    wrap a transport error, report the error envelope, or decode. *)
Definition settle `{Codec} {A : Type} (post_failed : string)
    (decode : list byte -> result A) (parse_failed : string) (after : A -> LogLine)
    (posted : result (list byte)) : prog Gemini (result A) :=
  match posted with
  | Err err => ret (Err (Wrap ErrNetworkError post_failed err))
  | Ok response =>
      match api_error response with
      | Some apiErr => ret (Err apiErr)
      | None =>
          match decode response with
          | Err err => ret (Err (Wrap ErrDataParsingError parse_failed err))
          | Ok a => gemit (after a) ;;; ret (Ok a)
          end
      end
  end.

(** The seven private operations are one body, repeated in the source with
    a different endpoint, payload struct, response type and texts: the guard
    on the credentials, the nonce, [json.Marshal], the signed headers, a
    debug line, [PostWithHeaders] with a nil body, and then [settle]. *)
Definition private_call `{Network} `{Codec} {A : Type}
    (endpoint : string) (fill : string -> payload) (marshal_failed : string)
    (before : string -> LogLine) (post_failed : string)
    (decode : list byte -> result A) (parse_failed : string)
    (after : A -> LogLine) : prog Gemini (result A) :=
  g <- get ;;
  if credentials_missing g then
    ret (Err (New ErrInvalidInput "API key and secret are required for private endpoints"))
  else
    let url := baseURL g ++ endpoint in
    t <- UnixNano_now ;;
    let nonce := FormatInt t in
    match json_Marshal (fill nonce) with
    | Err err => ret (Err (Wrap ErrDataParsingError marshal_failed err))
    | Ok payloadBytes =>
        let headers := auth_headers g payloadBytes in
        gemit (before url) ;;;
        posted <- on_client (PostWithHeaders url None headers APITypePrivate) ;;
        settle post_failed decode parse_failed after posted
    end.

(** [PlaceOrder(ctx, req)]: the request and nonce fields of [req] are
    overwritten before it is marshalled. *)
Definition PlaceOrder `{Network} `{Codec} (req : NewOrderRequest.t) :
    prog Gemini (result Order) :=
  let endpoint := "/v1/order/new" in
  private_call endpoint
    (fun nonce =>
       PNewOrder
         (NewOrderRequest.mk endpoint nonce (NewOrderRequest.ClientOrderID req)
            (NewOrderRequest.Symbol req) (NewOrderRequest.Amount req)
            (NewOrderRequest.Price req) (NewOrderRequest.Side req)
            (NewOrderRequest.Type_ req) (NewOrderRequest.Options req)
            (NewOrderRequest.Account req)))
    "failed to marshal order request"
    (fun url => mkLogLine Debug "Placing order"
                  [("url", url); ("symbol", NewOrderRequest.Symbol req);
                   ("side", NewOrderRequest.Side req);
                   ("type", NewOrderRequest.Type_ req)])
    "failed to place order"
    json_Unmarshal_Order "failed to parse order response"
    (fun order => mkLogLine Debug "Successfully placed order"
                    [("order_id", Order_OrderID order)]).

Definition CancelOrder `{Network} `{Codec} (orderID account : string) :
    prog Gemini (result Order) :=
  let endpoint := "/v1/order/cancel" in
  private_call endpoint
    (fun nonce => PCancelOrder (CancelOrderRequest.mk endpoint nonce orderID account))
    "failed to marshal cancel request"
    (fun url => mkLogLine Debug "Cancelling order" [("url", url); ("order_id", orderID)])
    "failed to cancel order"
    json_Unmarshal_Order "failed to parse cancel order response"
    (fun _ => mkLogLine Debug "Successfully cancelled order" [("order_id", orderID)]).

Definition GetActiveOrders `{Network} `{Codec} (account : string) :
    prog Gemini (result (list Order)) :=
  let endpoint := "/v1/orders" in
  private_call endpoint
    (fun nonce => PGetActiveOrders (GetActiveOrdersRequest.mk endpoint nonce account))
    "failed to marshal request payload"
    (fun url => mkLogLine Debug "Fetching active orders" [("url", url); ("account", account)])
    "failed to fetch active orders"
    json_Unmarshal_Orders "failed to parse orders response"
    (fun orders => mkLogLine Debug "Successfully fetched active orders"
                     [("count", FormatInt (Z.of_nat (length orders)))]).

Definition GetOrderStatus `{Network} `{Codec} (orderID clientOrderID : string)
    (includeTrades : bool) (account : string) : prog Gemini (result Order) :=
  let endpoint := "/v1/order/status" in
  private_call endpoint
    (fun nonce =>
       PGetOrderStatus
         (GetOrderStatusRequest.mk endpoint nonce orderID clientOrderID includeTrades account))
    "failed to marshal request payload"
    (fun url => mkLogLine Debug "Fetching order status"
                  [("url", url); ("order_id", orderID); ("client_order_id", clientOrderID)])
    "failed to fetch order status"
    json_Unmarshal_Order "failed to parse order status response"
    (fun _ => mkLogLine Debug "Successfully fetched order status" [("order_id", orderID)]).

Definition GetAvailableBalances `{Network} `{Codec} (account : string) :
    prog Gemini (result (list Balance)) :=
  let endpoint := "/v1/balances" in
  private_call endpoint
    (fun nonce =>
       PGetAvailableBalances (GetAvailableBalancesRequest.mk endpoint nonce account))
    "failed to marshal request payload"
    (fun url => mkLogLine Debug "Fetching available balances"
                  [("url", url); ("account", account)])
    "failed to fetch available balances"
    json_Unmarshal_Balances "failed to parse balances response"
    (fun balances => mkLogLine Debug "Successfully fetched available balances"
                       [("count", FormatInt (Z.of_nat (length balances)))]).

Definition GetNotionalBalances `{Network} `{Codec} (currency account : string) :
    prog Gemini (result (list NotionalBalance)) :=
  let endpoint := "/v1/notionalbalances/" ++ currency in
  private_call endpoint
    (fun nonce =>
       PGetNotionalBalances (GetNotionalBalancesRequest.mk endpoint nonce account))
    "failed to marshal request payload"
    (fun url => mkLogLine Debug "Fetching notional balances"
                  [("url", url); ("currency", currency); ("account", account)])
    "failed to fetch notional balances"
    json_Unmarshal_NotionalBalances "failed to parse notional balances response"
    (fun balances => mkLogLine Debug "Successfully fetched notional balances"
                       [("count", FormatInt (Z.of_nat (length balances)));
                        ("currency", currency)]).

Definition ListDepositAddresses `{Network} `{Codec} (network account : string) :
    prog Gemini (result (list DepositAddress)) :=
  let endpoint := "/v1/addresses/" ++ network in
  private_call endpoint
    (fun nonce =>
       PListDepositAddresses (ListDepositAddressesRequest.mk endpoint nonce account))
    "failed to marshal request payload"
    (fun url => mkLogLine Debug "Listing deposit addresses"
                  [("url", url); ("network", network); ("account", account)])
    "failed to list deposit addresses"
    json_Unmarshal_DepositAddresses "failed to parse deposit addresses response"
    (fun addresses => mkLogLine Debug "Successfully listed deposit addresses"
                        [("count", FormatInt (Z.of_nat (length addresses)));
                         ("network", network)]).

(** The private operations with their arguments, and what they return. *)
Inductive private_op : Type :=
| OpPlaceOrder (req : NewOrderRequest.t)
| OpCancelOrder (orderID account : string)
| OpGetActiveOrders (account : string)
| OpGetOrderStatus (orderID clientOrderID : string) (includeTrades : bool) (account : string)
| OpGetAvailableBalances (account : string)
| OpGetNotionalBalances (currency account : string)
| OpListDepositAddresses (network account : string).

Inductive answer : Type :=
| AnOrder (o : Order)
| Orders (os : list Order)
| Balances (bs : list Balance)
| NotionalBalances (bs : list NotionalBalance)
| DepositAddresses (ds : list DepositAddress).

Definition answered {S A B} (f : A -> B) (m : prog S (result A)) : prog S (result B) :=
  r <- m ;;
  ret (match r with Ok a => Ok (f a) | Err e => Err e end).

Definition call_private `{Network} `{Codec} (op : private_op) : prog Gemini (result answer) :=
  match op with
  | OpPlaceOrder req => answered AnOrder (PlaceOrder req)
  | OpCancelOrder orderID account => answered AnOrder (CancelOrder orderID account)
  | OpGetActiveOrders account => answered Orders (GetActiveOrders account)
  | OpGetOrderStatus orderID clientOrderID includeTrades account =>
      answered AnOrder (GetOrderStatus orderID clientOrderID includeTrades account)
  | OpGetAvailableBalances account => answered Balances (GetAvailableBalances account)
  | OpGetNotionalBalances currency account =>
      answered NotionalBalances (GetNotionalBalances currency account)
  | OpListDepositAddresses network account =>
      answered DepositAddresses (ListDepositAddresses network account)
  end.

(** The endpoint path of an operation and the struct it marshals. *)
Definition endpoint_of (op : private_op) : string :=
  match op with
  | OpPlaceOrder _ => "/v1/order/new"
  | OpCancelOrder _ _ => "/v1/order/cancel"
  | OpGetActiveOrders _ => "/v1/orders"
  | OpGetOrderStatus _ _ _ _ => "/v1/order/status"
  | OpGetAvailableBalances _ => "/v1/balances"
  | OpGetNotionalBalances currency _ => "/v1/notionalbalances/" ++ currency
  | OpListDepositAddresses network _ => "/v1/addresses/" ++ network
  end.

Definition payload_of (op : private_op) (nonce : string) : payload :=
  match op with
  | OpPlaceOrder req =>
      PNewOrder
        (NewOrderRequest.mk (endpoint_of op) nonce (NewOrderRequest.ClientOrderID req)
           (NewOrderRequest.Symbol req) (NewOrderRequest.Amount req)
           (NewOrderRequest.Price req) (NewOrderRequest.Side req)
           (NewOrderRequest.Type_ req) (NewOrderRequest.Options req)
           (NewOrderRequest.Account req))
  | OpCancelOrder orderID account =>
      PCancelOrder (CancelOrderRequest.mk (endpoint_of op) nonce orderID account)
  | OpGetActiveOrders account =>
      PGetActiveOrders (GetActiveOrdersRequest.mk (endpoint_of op) nonce account)
  | OpGetOrderStatus orderID clientOrderID includeTrades account =>
      PGetOrderStatus
        (GetOrderStatusRequest.mk (endpoint_of op) nonce orderID clientOrderID
           includeTrades account)
  | OpGetAvailableBalances account =>
      PGetAvailableBalances (GetAvailableBalancesRequest.mk (endpoint_of op) nonce account)
  | OpGetNotionalBalances _ account =>
      PGetNotionalBalances (GetNotionalBalancesRequest.mk (endpoint_of op) nonce account)
  | OpListDepositAddresses _ account =>
      PListDepositAddresses (ListDepositAddressesRequest.mk (endpoint_of op) nonce account)
  end.

(** *** Market data (market.go) *)

Definition ListSymbols `{Network} `{Codec} : prog Gemini (result (list string)) :=
  g <- get ;;
  let url := baseURL g ++ "/v1/symbols" in
  glog Debug "Fetching symbols" [("url", url)] ;;;
  fetched <- on_client (GetWithType url APITypePublic) ;;
  match fetched with
  | Err err => ret (Err (Wrap ErrNetworkError "failed to fetch symbols" err))
  | Ok response =>
      match json_Unmarshal_Symbols response with
      | Err err => ret (Err (Wrap ErrDataParsingError "failed to parse symbols response" err))
      | Ok symbols =>
          glog Debug "Successfully fetched symbols"
            [("count", FormatInt (Z.of_nat (length symbols)))] ;;;
          ret (Ok symbols)
      end
  end.

Definition GetSymbolDetails `{Network} `{Codec} (symbol : string) :
    prog Gemini (result SymbolDetails) :=
  g <- get ;;
  let url := baseURL g ++ "/v1/symbols/details/" ++ symbol in
  glog Debug "Fetching symbol details" [("url", url); ("symbol", symbol)] ;;;
  fetched <- on_client (GetWithType url APITypePublic) ;;
  match fetched with
  | Err err => ret (Err (Wrap ErrNetworkError "failed to fetch symbol details" err))
  | Ok response =>
      match json_Unmarshal_SymbolDetails response with
      | Err err =>
          ret (Err (Wrap ErrDataParsingError "failed to parse symbol details response" err))
      | Ok details =>
          glog Debug "Successfully fetched symbol details" [("symbol", symbol)] ;;;
          ret (Ok details)
      end
  end.

(** The loop of [GetAllSymbolDetails]: [allDetails] grows by [append]; a
    failed fetch is logged and skipped by [continue]. *)
Fixpoint details_loop `{Network} `{Codec} (symbols : list string)
    (allDetails : list SymbolDetails) : prog Gemini (list SymbolDetails) :=
  match symbols with
  | [] => ret allDetails
  | symbol :: rest =>
      fetched <- GetSymbolDetails symbol ;;
      match fetched with
      | Err err =>
          glog Warn "Failed to fetch details for symbol" [("symbol", symbol)] ;;;
          details_loop rest allDetails
      | Ok details => details_loop rest (allDetails ++ [details])
      end
  end.

Definition GetAllSymbolDetails `{Network} `{Codec} : prog Gemini (result (list SymbolDetails)) :=
  listed <- ListSymbols ;;
  match listed with
  | Err err => ret (Err (Wrap ErrNetworkError "failed to fetch symbols list" err))
  | Ok symbols =>
      allDetails <- details_loop symbols [] ;;
      glog Debug "Successfully fetched all symbol details"
        [("count", FormatInt (Z.of_nat (length allDetails)))] ;;;
      ret (Ok allDetails)
  end.

(** The policy as the specification words it: one detail call per symbol,
    in order, each failure logged; the answer is the subset that succeeded. *)
Fixpoint fetch_each `{Network} `{Codec} (symbols : list string) :
    prog Gemini (list (result SymbolDetails)) :=
  match symbols with
  | [] => ret []
  | symbol :: rest =>
      fetched <- GetSymbolDetails symbol ;;
      match fetched with
      | Err _ => glog Warn "Failed to fetch details for symbol" [("symbol", symbol)]
      | Ok _ => ret tt
      end ;;;
      others <- fetch_each rest ;;
      ret (fetched :: others)
  end.

Fixpoint succeeded {A} (rs : list (result A)) : list A :=
  match rs with
  | [] => []
  | Ok a :: rest => a :: succeeded rest
  | Err _ :: rest => succeeded rest
  end.

(** The error of the guard on the credentials. *)
Definition missing_credentials_error : error :=
  New ErrInvalidInput "API key and secret are required for private endpoints".

(** The request a private operation hands to fasthttp: its own headers over
    the default headers of the client. *)
Definition private_request `{Codec} (g : Gemini) (endpoint : string)
    (payloadBytes : list byte) (via : option string) : Request :=
  mkRequest "POST" (baseURL g ++ endpoint) None
    (auth_headers g payloadBytes ∪ headers (http (client g))) via.

(** The names in the headers literal of a private operation. *)
Definition auth_header_names : gset string :=
  {[ "X-GEMINI-APIKEY"; "X-GEMINI-PAYLOAD"; "X-GEMINI-SIGNATURE";
     "Content-Type"; "Content-Length"; "Cache-Control" ]}.

(** The lower-cased symbol ends in none of the known quote currencies. *)
Definition no_known_quote (s : string) : Prop :=
  forall quote, In quote quoteCurrencies -> HasSuffix s quote = false.

(** The helpers compute the longest-match heuristic on every symbol. *)
Definition longest_match_heuristic `{Unicode} : Prop :=
  forall symbol : string,
    extractBaseCurrency symbol = longest_match_base symbol /\
    extractQuoteCurrency symbol = longest_match_quote symbol.

End Gemini.

(** ** Concrete processes *)

Module Scenario.

Import GoInt GoStrings Errors Run Limiter Client Gemini.

(** The clock of the examples: one nanosecond per interaction. *)
Definition clock (k : nat) : Z := (1700000000000000000 + Z.of_nat k)%Z.

(** A process whose contexts are never done and whose peer always sends
    the same reply. *)
Definition quiet (r : reply) : Network :=
  {| time_Now := clock;
     select_ctx := fun _ _ => TimerFired;
     rand_Intn := fun _ _ => 0%nat;
     DoTimeout := fun _ _ => r |}.

(** A process whose context is cancelled whenever a request waits. *)
Definition cancelling : Network :=
  {| time_Now := clock;
     select_ctx := fun _ _ => CtxDone context_Canceled;
     rand_Intn := fun _ _ => 0%nat;
     DoTimeout := fun _ _ => NetFail (Foreign "unreachable") |}.

(** A stand-in for encoding/json and crypto/hmac that is enough to run the
    operations: the payload is rendered as its request path and nonce, the
    body [envelope] decodes to an error envelope and nothing else decodes. *)
Definition no_json {A} (b : list byte) : result A :=
  Err (Foreign "json: cannot unmarshal").

Definition stand_in : Codec :=
  {| json_Marshal := fun p => Ok (bytes_of (payload_request p ++ " " ++ payload_nonce p));
     json_Unmarshal_ErrorResponse := fun b =>
       if String.eqb (string_of b) "envelope"
       then Ok (mkErrorResponse "error" "InvalidNonce" "Nonce was not increasing")
       else no_json b;
     json_Unmarshal_Order := no_json;
     json_Unmarshal_Orders := no_json;
     json_Unmarshal_Balances := no_json;
     json_Unmarshal_NotionalBalances := no_json;
     json_Unmarshal_DepositAddresses := no_json;
     json_Unmarshal_SymbolDetails := no_json;
     json_Unmarshal_Symbols := no_json;
     hmac_sha384 := fun key msg => (key ++ msg)%list |}.

Definition envelope : reply := NetResponse 200 (bytes_of "envelope").

(** A stand-in for the Unicode tables, which ASCII text never consults. *)
Definition no_tables : Unicode :=
  {| Map_unicode_ToLower := fun s => s;
     Map_unicode_ToUpper := fun s => s;
     TrimSpace_unicode_IsSpace := fun s => s |}.

(** A sandbox account with the default rate limits. *)
Definition sandbox_config (key secret : string) : Config :=
  mkConfig key secret 0 (mkRateLimitConfig (mkRateLimit 0 0) (mkRateLimit 0 0)) true.

Definition account : Gemini :=
  @NewGemini (quiet envelope) (Some (sandbox_config "account-key" "account-secret")).

Definition anonymous : Gemini :=
  @NewGemini (quiet envelope) (Some (sandbox_config "" "")).

(** [NewRateLimiter(1, time.Second)] after its only token was taken. *)
Definition exhausted : RateLimiter := mkRateLimiter 0 1 Second (clock 0) false.

(** A client whose private limiter is [exhausted]. *)
Definition throttled : Session :=
  mkSession (mkHTTPClient (30 * Second) None (Some exhausted) ∅ []) 0 [] [].

End Scenario.

(** ** More of the standard library: prefixes and white space *)

Module GoText.

Import GoStrings.

(** [strings.HasPrefix(s, prefix)]:
    [len(s) >= len(prefix) && s[:len(prefix)] == prefix]. *)
Definition HasPrefix (s prefix : string) : bool :=
  (len prefix <=? len s)%nat && String.eqb (take (len prefix) s) prefix.

(** The library's table [asciiSpace]: tab, line feed, vertical tab, form
    feed, carriage return and space. *)
Definition is_space (c : ascii) : bool :=
  match nat_of_ascii c with
  | 9 | 10 | 11 | 12 | 13 | 32 => true
  | _ => false
  end.

Fixpoint trim_left (s : string) : string :=
  match s with
  | EmptyString => EmptyString
  | String c rest => if is_space c then trim_left rest else s
  end.

Fixpoint trim_right (s : string) : string :=
  match s with
  | EmptyString => EmptyString
  | String c rest =>
      match trim_right rest with
      | EmptyString => if is_space c then EmptyString else String c EmptyString
      | kept => String c kept
      end
  end.

(** [strings.TrimSpace]: on ASCII text the two loops of the library's fast
    path; any other text is left to the Unicode-aware functions. *)
Definition TrimSpace `{Unicode} (s : string) : string :=
  if is_ascii s then trim_right (trim_left s) else TrimSpace_unicode_IsSpace s.

(** Text made of white space only; text that starts, or ends, with white
    space. *)
Fixpoint all_space (s : string) : bool :=
  match s with
  | EmptyString => true
  | String c rest => is_space c && all_space rest
  end.

Definition starts_with_space (s : string) : bool :=
  match s with
  | EmptyString => false
  | String c _ => is_space c
  end.

Fixpoint ends_with_space (s : string) : bool :=
  match s with
  | EmptyString => false
  | String c EmptyString => is_space c
  | String _ rest => ends_with_space rest
  end.

End GoText.

(** ** pkg/exchange: trading pairs and the factory *)

Module Exchange.

Import GoStrings Errors Gemini.

(** [TradingPair] (interface.go) *)
Module TradingPair.
Record t : Type := mk {
  Symbol : string;
  BaseAsset : string;
  QuoteAsset : string;
  Status : string;
  MinQty : float64;
  MaxQty : float64;
  StepSize : float64;
  TickSize : float64
}.
End TradingPair.

(** [Factory]: constructors by lower-cased exchange name. [E] is the type of
    the exchanges built. *)
Record Factory (E : Type) : Type := mkFactory {
  constructors : gmap string (Config -> E)
}.

Arguments mkFactory {E} constructors.
Arguments constructors {E} f.

Definition NewFactory {E} : Factory E := mkFactory ∅.

(** [f.constructors[strings.ToLower(exchangeName)] = constructor] *)
Definition Register `{Unicode} {E} (exchangeName : string) (constructor : Config -> E)
    (f : Factory E) : Factory E :=
  mkFactory (<[ToLower exchangeName := constructor]> (constructors f)).

(** [Create(exchangeName, config)] *)
Definition Create `{Unicode} {E} (exchangeName : string) (config : Config)
    (f : Factory E) :
    result E :=
  match constructors f !! ToLower exchangeName with
  | None =>
      Err (Newf ErrExchangeNotSupported ("exchange '" ++ exchangeName ++ "' not supported"))
  | Some constructor => Ok (constructor config)
  end.

Definition CreateByName `{Unicode} {E} (name : string) (config : Config) (f : Factory E) :
    result E :=
  Create name config f.

(** [GetSupportedExchanges()]: the keys, in the order in which the map is
    ranged over (an order that Go leaves unspecified). *)
Definition GetSupportedExchanges {E} (f : Factory E) : list string :=
  (map_to_list (constructors f)).*1.

End Exchange.

(** ** The rest of gemini.go, types.go and market.go *)

Module GeminiCore.

Import GoInt GoStrings GoText Errors Run Limiter Client Gemini Exchange.
Local Open Scope prog_scope.

(** [Symbol] (types.go) *)
Record Symbol : Type := mkSymbol {
  Symbol_Symbol : string;
  Symbol_BaseCurrency : string;
  Symbol_QuoteCurrency : string;
  Symbol_TickSize : float64;
  Symbol_QuoteIncrement : float64;
  Symbol_MinOrderSize : string;
  Symbol_Status : string;
  Symbol_WrapEnabled : bool
}.

(** [TickerV2] (types.go) *)
Record TickerV2 : Type := mkTickerV2 {
  Ticker_Symbol : string;
  Ticker_Open : string;
  Ticker_High : string;
  Ticker_Low : string;
  Ticker_Close : string;
  Ticker_Changes : list string;
  Ticker_Bid : string;
  Ticker_Ask : string
}.

(** More of the standard library: [json.Unmarshal] into [[]Symbol] and into
    [TickerV2], and [strconv.ParseFloat(s, 64)], which returns a value next
    to its error. *)
Class MarketCodec : Type := {
  json_Unmarshal_SymbolList : list byte -> result (list Symbol);
  json_Unmarshal_TickerV2 : list byte -> result TickerV2;
  strconv_ParseFloat : string -> float64 * option error
}.

(** [context.Background()] is never done: the [select] of [Wait] can only
    receive from the timer. *)
Definition background (N : Network) : Network :=
  {| time_Now := @time_Now N;
     select_ctx := fun _ _ => TimerFired;
     rand_Intn := @rand_Intn N;
     DoTimeout := @DoTimeout N |}.

(** [parseFloatFromString(s)] (types.go) *)
Definition parseFloatFromString `{Unicode} `{MarketCodec} (s : string) :
    float64 * option error :=
  if String.eqb s "" then (0%Z, None)
  else strconv_ParseFloat (TrimSpace s).

(** [GetTickerV2(ctx, symbol)] (market.go) *)
Definition GetTickerV2 `{Network} `{MarketCodec} (symbol : string) :
    prog Gemini (result TickerV2) :=
  g <- get ;;
  let url := baseURL g ++ "/v2/ticker/" ++ symbol in
  glog Debug "Fetching ticker data" [("url", url); ("symbol", symbol)] ;;;
  fetched <- on_client (GetWithType url APITypePublic) ;;
  match fetched with
  | Err err => ret (Err (Wrap ErrNetworkError "failed to fetch ticker data" err))
  | Ok response =>
      match json_Unmarshal_TickerV2 response with
      | Err err => ret (Err (Wrap ErrDataParsingError "failed to parse ticker response" err))
      | Ok ticker =>
          glog Debug "Successfully fetched ticker data" [("symbol", symbol)] ;;;
          ret (Ok ticker)
      end
  end.

(** [for _, detail := range symbolDetails
       { detailsMap[strings.ToLower(detail.Symbol)] = detail }] *)
Definition details_by_symbol `{Unicode} (symbolDetails : list Symbol) :
    gmap string Symbol :=
  fold_left (fun detailsMap detail => <[ToLower (Symbol_Symbol detail) := detail]> detailsMap)
    symbolDetails ∅.

(** The body of the loop over the symbols: the pair of one symbol. *)
Definition pair_of `{Unicode} `{MarketCodec} (detailsMap : gmap string Symbol)
    (symbol : string) :
    TradingPair.t :=
  match detailsMap !! ToLower symbol with
  | None =>
      TradingPair.mk (ToUpper symbol) (extractBaseCurrency symbol)
        (extractQuoteCurrency symbol) "TRADING" 0%Z 0%Z 0%Z 0%Z
  | Some detail =>
      let minOrderSize := fst (parseFloatFromString (Symbol_MinOrderSize detail)) in
      TradingPair.mk (ToUpper (Symbol_Symbol detail)) (ToUpper (Symbol_BaseCurrency detail))
        (ToUpper (Symbol_QuoteCurrency detail)) (Symbol_Status detail)
        minOrderSize 0%Z 0%Z (Symbol_TickSize detail)
  end.

(** The loop: [pairs = append(pairs, pair)] for each symbol in turn. *)
Definition pairs_loop `{Unicode} `{MarketCodec} (detailsMap : gmap string Symbol)
    (symbols : list string) : list TradingPair.t :=
  fold_left (fun pairs symbol => pairs ++ [pair_of detailsMap symbol])%list symbols [].

(** [GetTradingPairs(ctx)] (gemini.go) *)
Definition GetTradingPairs `{Unicode} `{Network} `{Codec} `{MarketCodec} :
    prog Gemini (result (list TradingPair.t)) :=
  g <- get ;;
  let symbolsURL := baseURL g ++ "/v1/symbols" in
  fetched <- on_client (Get symbolsURL) ;;
  match fetched with
  | Err err => ret (Err (Wrap ErrNetworkError "failed to fetch symbols" err))
  | Ok response =>
      match json_Unmarshal_Symbols response with
      | Err err => ret (Err (Wrap ErrDataParsingError "failed to parse symbols response" err))
      | Ok symbols =>
          let detailsURL := baseURL g ++ "/v1/symbols/details" in
          fetchedDetails <- on_client (Get detailsURL) ;;
          match fetchedDetails with
          | Err err => ret (Err (Wrap ErrNetworkError "failed to fetch symbol details" err))
          | Ok detailsResp =>
              match json_Unmarshal_SymbolList detailsResp with
              | Err err =>
                  ret (Err (Wrap ErrDataParsingError "failed to parse symbol details" err))
              | Ok symbolDetails =>
                  ret (Ok (pairs_loop (details_by_symbol symbolDetails) symbols))
              end
          end
      end
  end.

(** [ValidateConfig()]: the connectivity test runs under
    [context.Background()]. [None] is the nil error. *)
Definition ValidateConfig `{N : Network} : prog Gemini (option error) :=
  g <- get ;;
  if String.eqb (baseURL g) "" then
    ret (Some (New ErrInvalidInput "base URL is required"))
  else if negb (HasPrefix (baseURL g) "http://") && negb (HasPrefix (baseURL g) "https://")
  then ret (Some (New ErrInvalidInput "invalid base URL format"))
  else
    let testURL := baseURL g ++ "/v1/symbols" in
    fetched <- on_client (@Get (background N) testURL) ;;
    match fetched with
    | Err err => ret (Some (Wrap ErrNetworkError "failed to connect to Gemini API" err))
    | Ok _ => ret None
    end.

(** The text with which each private operation wraps an error of the
    transport. *)
Definition post_failed_of (op : private_op) : string :=
  match op with
  | OpPlaceOrder _ => "failed to place order"
  | OpCancelOrder _ _ => "failed to cancel order"
  | OpGetActiveOrders _ => "failed to fetch active orders"
  | OpGetOrderStatus _ _ _ _ => "failed to fetch order status"
  | OpGetAvailableBalances _ => "failed to fetch available balances"
  | OpGetNotionalBalances _ _ => "failed to fetch notional balances"
  | OpListDepositAddresses _ _ => "failed to list deposit addresses"
  end.

(** The error that the transport makes of a reply that is not a 200. *)
Definition transport_error (r : reply) : error :=
  match r with
  | NetFail cause => Wrap ErrNetworkError "request failed" cause
  | NetResponse status payload =>
      Newf ErrNetworkError ("HTTP error: " ++ FormatInt status ++ " " ++ string_of payload)
  end.

(** A reply with status 200. *)
Definition accepted (r : reply) : bool :=
  match r with
  | NetFail _ => false
  | NetResponse status _ => Z.eqb status 200
  end.

(** What the transport returns for a reply: the body of a 200, the error
    of anything else. *)
Definition delivered (r : reply) : result (list byte) :=
  match r with
  | NetFail _ => Err (transport_error r)
  | NetResponse status payload =>
      if Z.eqb status 200 then Ok payload else Err (transport_error r)
  end.

(** The header field that [request] sets by itself: the content type of a
    body that is not nil. *)
Definition content_type_of (body : option (list byte)) : gmap string string :=
  match body with
  | Some _ => {[ "Content-Type" := "application/json" ]}
  | None => ∅
  end.

(** The public operations of market.go with their arguments, what they
    return, and the URL they fetch. *)
Inductive public_op : Type :=
| OpListSymbols
| OpGetSymbolDetails (symbol : string)
| OpGetTickerV2 (symbol : string).

Inductive public_answer : Type :=
| SymbolNames (symbols : list string)
| Details (details : SymbolDetails)
| Ticker (ticker : TickerV2).

Definition call_public `{Network} `{Codec} `{MarketCodec} (op : public_op) :
    prog Gemini (result public_answer) :=
  match op with
  | OpListSymbols => answered SymbolNames ListSymbols
  | OpGetSymbolDetails symbol => answered Details (GetSymbolDetails symbol)
  | OpGetTickerV2 symbol => answered Ticker (GetTickerV2 symbol)
  end.

Definition url_of (g : Gemini) (op : public_op) : string :=
  match op with
  | OpListSymbols => baseURL g ++ "/v1/symbols"
  | OpGetSymbolDetails symbol => baseURL g ++ "/v1/symbols/details/" ++ symbol
  | OpGetTickerV2 symbol => baseURL g ++ "/v2/ticker/" ++ symbol
  end.

(** The decoding of a body by a public operation. *)
Definition decoded `{Codec} `{MarketCodec} (op : public_op) (response : list byte) :
    result public_answer :=
  match op with
  | OpListSymbols =>
      match json_Unmarshal_Symbols response with
      | Ok symbols => Ok (SymbolNames symbols)
      | Err err => Err (Wrap ErrDataParsingError "failed to parse symbols response" err)
      end
  | OpGetSymbolDetails _ =>
      match json_Unmarshal_SymbolDetails response with
      | Ok details => Ok (Details details)
      | Err err => Err (Wrap ErrDataParsingError "failed to parse symbol details response" err)
      end
  | OpGetTickerV2 _ =>
      match json_Unmarshal_TickerV2 response with
      | Ok ticker => Ok (Ticker ticker)
      | Err err => Err (Wrap ErrDataParsingError "failed to parse ticker response" err)
      end
  end.

(** The text with which each public operation wraps an error of the
    transport. *)
Definition fetch_failed_of (op : public_op) : string :=
  match op with
  | OpListSymbols => "failed to fetch symbols"
  | OpGetSymbolDetails _ => "failed to fetch symbol details"
  | OpGetTickerV2 _ => "failed to fetch ticker data"
  end.

(** The clock of the process never runs backwards. *)
Definition monotone_clock `{Network} : Prop :=
  forall j k, (j <= k)%nat -> (time_Now j <= time_Now k)%Z.

End GeminiCore.

(** ** sdk.go *)

Module CexSDK.

Import GoStrings Errors Client Gemini Exchange.

(** [SDK]: the factory of the exchanges it supports. *)
Record SDK : Type := mkSDK {
  factory : Factory Gemini
}.

(** [registerExchanges()] *)
Definition registerExchanges `{Unicode} `{Network} (s : SDK) : SDK :=
  mkSDK (Register "gemini" (fun config => NewGemini (Some config)) (factory s)).

(** [New()] *)
Definition New `{Unicode} `{Network} : SDK := registerExchanges (mkSDK NewFactory).

(** [NewExchange(exchangeName, config)] *)
Definition NewExchange `{Unicode} (exchangeName : string) (config : Config) (s : SDK) :
    result Gemini :=
  CreateByName exchangeName config (factory s).

Definition SDK_GetSupportedExchanges (s : SDK) : list string :=
  GetSupportedExchanges (factory s).

(** The package-level [NewGemini()]. *)
Definition SDK_NewGemini `{Network} : Gemini := NewGemini None.

End CexSDK.

(** ** A concrete market *)

Module Market.

Import GoStrings Errors Limiter Client Gemini GeminiCore.

(** Two listed symbols, and details for the first of them only, spelled in
    upper case; 4532020583610935537 is the bit pattern of 0.00001 and
    4576918229304087675 that of 0.01. *)
Definition listing : Codec :=
  {| json_Marshal := @json_Marshal Scenario.stand_in;
     json_Unmarshal_ErrorResponse := @json_Unmarshal_ErrorResponse Scenario.stand_in;
     json_Unmarshal_Order := Scenario.no_json;
     json_Unmarshal_Orders := Scenario.no_json;
     json_Unmarshal_Balances := Scenario.no_json;
     json_Unmarshal_NotionalBalances := Scenario.no_json;
     json_Unmarshal_DepositAddresses := Scenario.no_json;
     json_Unmarshal_SymbolDetails := Scenario.no_json;
     json_Unmarshal_Symbols := fun _ => Ok ["btcusd"; "ethgusd"];
     hmac_sha384 := @hmac_sha384 Scenario.stand_in |}.

Definition btcusd : Symbol :=
  mkSymbol "BTCUSD" "btc" "usd" 4576918229304087675%Z 4576918229304087675%Z " 0.00001 "
    "open" false.

Definition details : MarketCodec :=
  {| json_Unmarshal_SymbolList := fun _ => Ok [btcusd];
     json_Unmarshal_TickerV2 := Scenario.no_json;
     strconv_ParseFloat := fun s =>
       if String.eqb s "0.00001" then (4532020583610935537%Z, None)
       else (0%Z, Some (Foreign "strconv.ParseFloat: invalid syntax")) |}.

(** A process whose peer always answers 200 and in which the context of a
    request is done as soon as the request has to wait for a token. *)
Definition impatient : Network :=
  {| time_Now := Scenario.clock;
     select_ctx := fun _ _ => CtxDone context_DeadlineExceeded;
     rand_Intn := fun _ _ => 0%nat;
     DoTimeout := fun _ _ => Scenario.envelope |}.

(** One public request per second. *)
Definition one_per_second : Config :=
  mkConfig "" "" 0 (mkRateLimitConfig (mkRateLimit 1 Second) (mkRateLimit 0 0)) false.

(** A configuration whose public limit has requests but no interval. *)
Definition no_interval : Config :=
  mkConfig "" "" 0 (mkRateLimitConfig (mkRateLimit 10 0) (mkRateLimit 0 0)) false.

End Market.

(** * Theorems *)

Import GoInt GoStrings Errors Run Limiter Client Gemini.

(** ** Strings and encodings *)

Lemma app_cons c p q : String c p ++ q = String c (p ++ q).
Proof. reflexivity. Qed.

Lemma app_nil q : "" ++ q = q.
Proof. reflexivity. Qed.

Lemma app_assoc_string p q r : (p ++ q) ++ r = p ++ (q ++ r).
Proof. induction p as [|c p IH]; [reflexivity|]. rewrite !app_cons. now rewrite IH. Qed.

Lemma len_app p q : len (p ++ q) = (len p + len q)%nat.
Proof.
  unfold len. induction p as [|c p IH]; [reflexivity|].
  rewrite app_cons. simpl. now rewrite IH.
Qed.

Lemma substring_all s : substring 0 (len s) s = s.
Proof. unfold len. induction s as [|c s IH]; simpl; [reflexivity|]. now rewrite IH. Qed.

Lemma take_drop s : forall n, (n <= len s)%nat -> take n s ++ drop n s = s.
Proof.
  unfold take, drop, len.
  induction s as [|c s IH]; intros [|n] Hn; simpl in *; try reflexivity; try lia.
  - now rewrite substring_all.
  - rewrite app_cons. f_equal. apply IH. lia.
Qed.

Lemma drop_app p q : drop (len p) (p ++ q) = q.
Proof.
  unfold drop, len. induction p as [|c p IH].
  - rewrite app_nil. simpl. rewrite Nat.sub_0_r. apply substring_all.
  - rewrite app_cons. simpl. exact IH.
Qed.

Lemma HasSuffix_app p q : HasSuffix (p ++ q) q = true.
Proof.
  unfold HasSuffix. rewrite len_app.
  replace (len p + len q - len q)%nat with (len p) by lia.
  rewrite drop_app, String.eqb_refl.
  apply andb_true_iff. split; [apply Nat.leb_le; lia|reflexivity].
Qed.

Lemma HasSuffix_split s q : HasSuffix s q = true -> exists p, s = p ++ q.
Proof.
  unfold HasSuffix. intros H. apply andb_true_iff in H as [Hl He].
  apply Nat.leb_le in Hl. apply String.eqb_eq in He.
  exists (take (len s - len q) s).
  pose proof (take_drop s (len s - len q) ltac:(lia)) as H. rewrite He in H. now symmetry.
Qed.

Lemma HasSuffix_gusd_usd s : HasSuffix s "gusd" = true -> HasSuffix s "usd" = true.
Proof.
  intros H. apply HasSuffix_split in H as [p ->].
  change "gusd" with ("g" ++ "usd"). rewrite <- app_assoc_string. apply HasSuffix_app.
Qed.

Lemma map_chars_length f s : len (map_chars f s) = len s.
Proof. unfold len. induction s as [|c s IH]; simpl; [reflexivity|]. now rewrite IH. Qed.

Lemma ToLower_length {U : Unicode} s : is_ascii s = true -> len (ToLower s) = len s.
Proof. intros H. unfold ToLower. rewrite H. apply map_chars_length. Qed.

(** The four sextets of three bytes, and the bytes back from the sextets. *)
Lemma sextets_of_three x y z :
  (x < 256 -> y < 256 -> z < 256 ->
   x / 4 < 64 /\ x mod 4 * 16 + y / 16 < 64 /\ y mod 16 * 4 + z / 64 < 64 /\
   z mod 64 < 64 /\
   x / 4 * 4 + (x mod 4 * 16 + y / 16) / 16 = x /\
   (x mod 4 * 16 + y / 16) mod 16 * 16 + (y mod 16 * 4 + z / 64) / 4 = y /\
   (y mod 16 * 4 + z / 64) mod 4 * 64 + z mod 64 = z)%nat.
Proof. intros. repeat split; zify; Z.to_euclidean_division_equations; lia. Qed.

Lemma b64_value_char n : (n < 64)%nat ->
  b64_value (b64_char n) = Some n /\ Ascii.eqb (b64_char n) StdPadding = false.
Proof.
  intros Hn.
  do 64 (destruct n as [|n]; [split; reflexivity|]). lia.
Qed.

Lemma byte_of_nat_of_byte b : byte_of_nat (nat_of_byte b) = b.
Proof.
  unfold byte_of_nat, nat_of_byte. rewrite ascii_nat_embedding. apply byte_of_ascii_of_byte.
Qed.

Lemma nat_of_byte_bound b : (nat_of_byte b < 256)%nat.
Proof. apply nat_ascii_bounded. Qed.

Lemma list_ind3 {A} (P : list A -> Prop) :
  P [] -> (forall a, P [a]) -> (forall a b, P [a; b]) ->
  (forall a b c rest, P rest -> P (a :: b :: c :: rest)) ->
  forall l, P l.
Proof.
  intros H0 H1 H2 H3.
  assert (forall l, P l /\ (forall a, P (a :: l)) /\ (forall a b, P (a :: b :: l))) as H.
  { induction l as [|x l (IH0 & IH1 & IH2)]; [auto|].
    split; [apply IH1|]. split; [intros a; apply IH2|]. intros a b. apply H3, IH0. }
  intros l. apply H.
Qed.

(** Decoding the standard base64 encoding of a byte sequence gives the
    sequence back. *)
Lemma base64_roundtrip (src : list byte) :
  base64_DecodeString (base64_EncodeToString src) = Some src.
Proof.
  induction src as [|a|a b|a b c rest IH] using list_ind3.
  - reflexivity.
  - pose proof (nat_of_byte_bound a) as Ha.
    destruct (sextets_of_three (nat_of_byte a) 0 0 Ha) as (H0 & H1 & _ & _ & E0 & _);
      [lia..|].
    cbn [base64_EncodeToString base64_DecodeString]. cbv zeta.
    rewrite Nat.add_0_r in H1.
    destruct (b64_value_char _ H0) as [-> _]. destruct (b64_value_char _ H1) as [-> _].
    simpl (Ascii.eqb StdPadding StdPadding). simpl (String.eqb "" ""). cbn [andb].
    change (0 / 16)%nat with 0%nat in E0. rewrite Nat.add_0_r in E0. rewrite E0.
    now rewrite byte_of_nat_of_byte.
  - pose proof (nat_of_byte_bound a) as Ha. pose proof (nat_of_byte_bound b) as Hb.
    destruct (sextets_of_three (nat_of_byte a) (nat_of_byte b) 0 Ha Hb)
      as (H0 & H1 & H2 & _ & E0 & E1 & _); [lia|].
    cbn [base64_EncodeToString base64_DecodeString]. cbv zeta.
    change (0 / 64)%nat with 0%nat in *. rewrite Nat.add_0_r in H2, E1.
    destruct (b64_value_char _ H0) as [-> _]. destruct (b64_value_char _ H1) as [-> _].
    destruct (b64_value_char _ H2) as [-> ->].
    simpl (Ascii.eqb StdPadding StdPadding). simpl (String.eqb "" "").
    rewrite E0, E1. now rewrite !byte_of_nat_of_byte.
  - pose proof (nat_of_byte_bound a) as Ha. pose proof (nat_of_byte_bound b) as Hb.
    pose proof (nat_of_byte_bound c) as Hc.
    destruct (sextets_of_three (nat_of_byte a) (nat_of_byte b) (nat_of_byte c) Ha Hb Hc)
      as (H0 & H1 & H2 & H3 & E0 & E1 & E2).
    cbn [base64_EncodeToString base64_DecodeString]. cbv zeta.
    destruct (b64_value_char _ H0) as [-> _]. destruct (b64_value_char _ H1) as [-> _].
    destruct (b64_value_char _ H2) as [-> ->]. destruct (b64_value_char _ H3) as [-> ->].
    rewrite IH, E0, E1, E2. now rewrite !byte_of_nat_of_byte.
Qed.

(** The encoding has four characters for every group of three bytes. *)
Lemma base64_length (src : list byte) :
  len (base64_EncodeToString src) = (4 * ((length src + 2) / 3))%nat.
Proof.
  induction src as [|a|a b|a b c rest IH] using list_ind3; try reflexivity.
  cbn [base64_EncodeToString]. cbv zeta. unfold len in *. cbn [String.length length].
  rewrite IH.
  replace (S (S (S (length rest))) + 2)%nat with (1 * 3 + (length rest + 2))%nat by lia.
  rewrite Nat.div_add_l by lia. lia.
Qed.

(** [hex.EncodeToString] writes two characters per byte. *)
Lemma hex_length (src : list byte) :
  len (hex_EncodeToString src) = (2 * length src)%nat.
Proof.
  unfold len. induction src as [|b rest IH]; [reflexivity|].
  cbn [hex_EncodeToString String.length length]. rewrite IH. lia.
Qed.

Lemma bytes_of_length s : length (bytes_of s) = len s.
Proof.
  unfold bytes_of, len. induction s as [|c s IH]; [reflexivity|].
  simpl. now rewrite <- IH.
Qed.

(** The base64 string is never the byte sequence it encodes. *)
Lemma base64_differs (src : list byte) :
  src <> [] -> bytes_of (base64_EncodeToString src) <> src.
Proof.
  intros Hne Heq. apply (f_equal (@length byte)) in Heq.
  rewrite bytes_of_length, base64_length in Heq.
  destruct src as [|b rest]; [contradiction|]. simpl length in Heq.
  zify. Z.to_euclidean_division_equations. lia.
Qed.

Lemma hex_digit_inj n m : (n < 16 -> m < 16 -> hex_digit n = hex_digit m -> n = m)%nat.
Proof.
  intros Hn Hm.
  do 16 (destruct n as [|n]; [do 16 (destruct m as [|m]; [first [reflexivity|discriminate]|]); lia|]).
  lia.
Qed.

Lemma nat_of_byte_inj a b : nat_of_byte a = nat_of_byte b -> a = b.
Proof.
  intros H. rewrite <- (byte_of_nat_of_byte a), <- (byte_of_nat_of_byte b). now rewrite H.
Qed.

Lemma hex_pair_inj x y :
  (x < 256 -> y < 256 ->
   hex_digit (x / 16) = hex_digit (y / 16) -> hex_digit (x mod 16) = hex_digit (y mod 16) ->
   x = y)%nat.
Proof.
  intros Hx Hy Hhi Hlo.
  assert (x / 16 < 16 /\ y / 16 < 16 /\ x mod 16 < 16 /\ y mod 16 < 16)%nat
    as (B1 & B2 & B3 & B4)
    by (repeat split; zify; Z.to_euclidean_division_equations; lia).
  apply hex_digit_inj in Hhi; [|assumption..].
  apply hex_digit_inj in Hlo; [|assumption..].
  zify. Z.to_euclidean_division_equations. lia.
Qed.

(** [hex.EncodeToString] is injective. *)
Lemma hex_inj (a : list byte) : forall b,
  hex_EncodeToString a = hex_EncodeToString b -> a = b.
Proof.
  induction a as [|x a IH]; intros [|y b]; cbn [hex_EncodeToString];
    try discriminate; [reflexivity|].
  intros H. injection H as Hhi Hlo Hrest.
  f_equal; [|apply IH, Hrest].
  apply nat_of_byte_inj.
  exact (hex_pair_inj _ _ (nat_of_byte_bound x) (nat_of_byte_bound y) Hhi Hlo).
Qed.

(** ** Currency helpers *)

Section CurrencyFacts.
Context {U : Unicode}.

Lemma no_known_quote_loops s :
  no_known_quote s ->
  base_by_quote s quoteCurrencies = None /\ quote_by_suffix s quoteCurrencies = None /\
  longest_quote s quoteCurrencies = None.
Proof.
  intros H. unfold longest_quote, quoteCurrencies in *. simpl.
  rewrite !H by (simpl; tauto). auto.
Qed.

(** The tests of the repository, TestExtractBaseCurrency and
    TestExtractQuoteCurrency, as evaluations of the model. *)
Lemma TestExtractBaseCurrency :
  map extractBaseCurrency
    ["btcusd"; "ethusd"; "ltcbtc"; "ethbtc"; "dogusd"; "adausd"; "BTCUSD"; "short"] =
  ["BTC"; "ETH"; "LTC"; "ETH"; "DOG"; "ADA"; "BTC"; "SHORT"].
Proof. reflexivity. Qed.

Lemma TestExtractQuoteCurrency :
  map extractQuoteCurrency
    ["btcusd"; "ethusd"; "ltcbtc"; "ethbtc"; "dogusd"; "adaeth"; "BTCUSD"; "short"] =
  ["USD"; "USD"; "BTC"; "BTC"; "USD"; "ETH"; "USD"; "USD"].
Proof. reflexivity. Qed.

(** C7, counterexample: on "dogusd" the helpers answer DOG and USD, as the
    repository's own test expects, where the longest known suffix is "gusd"
    and the longest-match heuristic would answer DO and GUSD; the symbol is
    ASCII, so this is so whatever the case mapping of other text. *)
Lemma extract_is_not_longest_match :
  ~ exists tables : Unicode, @longest_match_heuristic tables.
Proof.
  intros [tables H]. destruct (H "dogusd") as [Hb _]. vm_compute in Hb. discriminate.
Qed.

(** C7, amended: the helpers take the first quote currency of the list
    usd, btc, eth, eur, gbp, sgd, gusd, dai that is a suffix of the
    lower-cased symbol. That is the longest match for every symbol that
    does not end in "gusd"; a symbol that ends in "gusd" is split before
    "usd". When no known quote currency is a suffix, a symbol of at least six
    characters gives its first three and last three characters, upper-cased,
    and a shorter one gives itself, upper-cased, and "USD". "btcusd" gives
    BTC and USD, "ethbtc" gives ETH and BTC. *)
Theorem extract_currency_first_match (symbol : string) :
  let s := ToLower symbol in
  (HasSuffix s "gusd" = false ->
     extractBaseCurrency symbol = longest_match_base symbol /\
     extractQuoteCurrency symbol = longest_match_quote symbol) /\
  (HasSuffix s "gusd" = true ->
     extractBaseCurrency symbol = ToUpper (take (len s - 3) s) /\
     extractQuoteCurrency symbol = "USD") /\
  (no_known_quote s -> (6 <= len s)%nat ->
     extractBaseCurrency symbol = ToUpper (take 3 s) /\
     extractQuoteCurrency symbol = ToUpper (drop (len s - 3) s)) /\
  (no_known_quote s -> (len s < 6)%nat ->
     extractBaseCurrency symbol = ToUpper s /\ extractQuoteCurrency symbol = "USD") /\
  extractBaseCurrency "btcusd" = "BTC" /\ extractQuoteCurrency "btcusd" = "USD" /\
  extractBaseCurrency "ethbtc" = "ETH" /\ extractQuoteCurrency "ethbtc" = "BTC".
Proof.
  intros s.
  split; [|split; [|split; [|split; [|repeat split; reflexivity]]]].
  1: intros Hg; split.
  3: intros Hg; apply HasSuffix_gusd_usd in Hg; split.
  5: intros Hn Hl; destruct (no_known_quote_loops s Hn) as (Hb & Hq & _); split.
  7: intros Hn Hl; destruct (no_known_quote_loops s Hn) as (Hb & Hq & _); split.
  - unfold extractBaseCurrency, longest_match_base. fold s.
    unfold longest_quote, quoteCurrencies. simpl. rewrite Hg.
    destruct (HasSuffix s "usd"), (HasSuffix s "btc"), (HasSuffix s "eth"),
      (HasSuffix s "eur"), (HasSuffix s "gbp"), (HasSuffix s "sgd"), (HasSuffix s "dai");
      reflexivity.
  - unfold extractQuoteCurrency, longest_match_quote. fold s.
    unfold longest_quote, quoteCurrencies. simpl. rewrite Hg.
    destruct (HasSuffix s "usd"), (HasSuffix s "btc"), (HasSuffix s "eth"),
      (HasSuffix s "eur"), (HasSuffix s "gbp"), (HasSuffix s "sgd"), (HasSuffix s "dai");
      reflexivity.
  - unfold extractBaseCurrency. fold s. unfold quoteCurrencies. simpl. now rewrite Hg.
  - unfold extractQuoteCurrency. fold s. unfold quoteCurrencies. simpl. now rewrite Hg.
  - unfold extractBaseCurrency. fold s. rewrite Hb.
    destruct (Nat.leb_spec 6 (len s)); [reflexivity|lia].
  - unfold extractQuoteCurrency. fold s. rewrite Hq.
    destruct (Nat.leb_spec 6 (len s)); [reflexivity|lia].
  - unfold extractBaseCurrency. fold s. rewrite Hb.
    destruct (Nat.leb_spec 6 (len s)); [lia|reflexivity].
  - unfold extractQuoteCurrency. fold s. rewrite Hq.
    destruct (Nat.leb_spec 6 (len s)); [lia|reflexivity].
Qed.

End CurrencyFacts.

(** The amended statement at "ltcbtc" (no "gusd" suffix) and at "btcgusd". *)
Lemma extract_currency_first_match_witness :
  (@extractBaseCurrency Scenario.no_tables "ltcbtc" =
     @longest_match_base Scenario.no_tables "ltcbtc" /\
   @extractQuoteCurrency Scenario.no_tables "ltcbtc" =
     @longest_match_quote Scenario.no_tables "ltcbtc") /\
  (@extractBaseCurrency Scenario.no_tables "btcgusd" = "BTCG" /\
   @extractQuoteCurrency Scenario.no_tables "btcgusd" = "USD").
Proof.
  split.
  - apply (proj1 (@extract_currency_first_match Scenario.no_tables "ltcbtc")). reflexivity.
  - apply (proj1 (proj2 (@extract_currency_first_match Scenario.no_tables "btcgusd"))).
    reflexivity.
Defined.

(** ** The rate limiter *)

Section LimiterFacts.
Local Open Scope Z_scope.

Lemma wrap64_id z : min_int64 <= z <= max_int64 -> wrap64 z = z.
Proof.
  unfold min_int64, max_int64, wrap64. intros Hz.
  rewrite Z.mod_small; lia.
Qed.

Lemma Sub_range t u : min_int64 <= Sub t u <= max_int64.
Proof.
  unfold Sub, min_int64, max_int64.
  destruct (Z.ltb_spec (t - u) (- 2 ^ 63)); [lia|].
  destruct (Z.ltb_spec (2 ^ 63 - 1) (t - u)); lia.
Qed.

Lemma Sub_same t : Sub t t = 0.
Proof. unfold Sub. rewrite Z.sub_diag. reflexivity. Qed.

Lemma TryAcquire_unfold now rl :
  mu rl = false -> interval rl <> 0 ->
  TryAcquire now rl =
    if tokens (refilled now rl) <=? 0 then Returns false (refilled now rl)
    else Returns true (set_tokens (sub64 (tokens (refilled now rl)) 1) (refilled now rl)).
Proof.
  destruct rl as [tk mx iv lr m]. simpl. intros -> Hiv.
  unfold TryAcquire, refilled, defer, refill, bind, ret, get, modify, die, Lock, Unlock. simpl.
  destruct (Z.eqb_spec iv 0) as [?|_]; [contradiction|].
  destruct (iv <=? Sub now lr); simpl.
  - destruct (_ <=? 0); reflexivity.
  - destruct (tk <=? 0); reflexivity.
Qed.

Lemma Wait_unfold now sel now' rl :
  mu rl = false -> interval rl <> 0 ->
  Wait now sel now' rl =
    let rl1 := refilled now rl in
    if tokens rl1 <=? 0 then
      match sel (sub64 (interval rl1) (rem64 (Sub now (lastRefill rl1)) (interval rl1))) with
      | CtxDone _ => Crashes FatalUnlockOfUnlockedMutex
      | TimerFired => Returns None (set_tokens (sub64 1 1) (set_lastRefill now' rl1))
      end
    else Returns None (set_tokens (sub64 (tokens rl1) 1) rl1).
Proof.
  destruct rl as [tk mx iv lr m]. simpl. intros -> Hiv.
  unfold Wait, refilled, defer, refill, bind, ret, get, modify, die, Lock, Unlock. simpl.
  destruct (Z.eqb_spec iv 0) as [?|_]; [contradiction|].
  destruct (iv <=? Sub now lr); simpl.
  - destruct (_ <=? 0); simpl.
    + destruct (Z.eqb_spec iv 0) as [?|_]; [contradiction|]. simpl.
      destruct (sel _); reflexivity.
    + reflexivity.
  - destruct (tk <=? 0); simpl.
    + destruct (Z.eqb_spec iv 0) as [?|_]; [contradiction|]. simpl.
      destruct (sel _); reflexivity.
    + reflexivity.
Qed.

Lemma min_spec a b : GoInt.min a b = Z.min a b.
Proof. unfold GoInt.min. destruct (Z.ltb_spec a b); lia. Qed.

Lemma periods_bound iv el :
  0 < iv -> iv <= el <= max_int64 ->
  quot64 el iv = el / iv /\ 1 <= el / iv <= max_int64 / iv /\ el / iv <= max_int64.
Proof.
  intros Hiv Hel. unfold quot64.
  rewrite Z.quot_div_nonneg by lia.
  assert (1 <= el / iv) by (apply Z.div_le_lower_bound; lia).
  assert (el / iv <= max_int64 / iv) by (apply Z.div_le_mono; lia).
  assert (max_int64 / iv <= max_int64).
  { apply Z.div_le_upper_bound; [lia|]. unfold max_int64 in *. nia. }
  split; [|lia]. apply wrap64_id. unfold min_int64, max_int64 in *. lia.
Qed.

Lemma refilled_steady N iv now rl :
  0 <= N -> 0 < iv -> N + max_int64 / iv <= max_int64 ->
  steady N iv rl -> steady N iv (refilled now rl).
Proof.
  intros HN Hiv Hcap (Hmu & Hmx & Hi & Htk).
  unfold refilled. rewrite Hi.
  destruct (Z.leb_spec iv (Sub now (lastRefill rl))) as [Hel|_].
  - pose proof (Sub_range now (lastRefill rl)) as Hr.
    destruct (periods_bound iv (Sub now (lastRefill rl)) Hiv) as (Hq & Hb & _); [lia|].
    unfold steady. simpl. rewrite Hq, min_spec, Hmx.
    unfold add64. rewrite wrap64_id by (unfold min_int64, max_int64 in *; lia).
    repeat split; try assumption; lia.
  - unfold steady. tauto.
Qed.

Lemma TryAcquire_steady N iv now rl :
  0 <= N -> 0 < iv -> N + max_int64 / iv <= max_int64 ->
  steady N iv rl ->
  exists ok rl', TryAcquire now rl = Returns ok rl' /\ steady N iv rl'.
Proof.
  intros HN Hiv Hcap Hst.
  pose proof (refilled_steady N iv now rl HN Hiv Hcap Hst) as (Hmu & Hmx & Hi & Htk).
  destruct Hst as (Hmu0 & _ & Hi0 & _).
  rewrite TryAcquire_unfold by (try assumption; lia).
  destruct (Z.leb_spec (tokens (refilled now rl)) 0).
  - eexists _, _. split; [reflexivity|]. unfold steady. tauto.
  - eexists _, _. split; [reflexivity|].
    assert (max_int64 / iv >= 0) by (apply Z_div_ge0; unfold max_int64; lia).
    unfold steady, sub64. simpl.
    rewrite wrap64_id by (unfold min_int64, max_int64 in *; lia).
    repeat split; try assumption; lia.
Qed.

Lemma Wait_steady N iv now sel now' rl r rl' :
  0 <= N -> 0 < iv -> N + max_int64 / iv <= max_int64 ->
  steady N iv rl ->
  Wait now sel now' rl = Returns r rl' -> r = None /\ steady N iv rl'.
Proof.
  intros HN Hiv Hcap Hst.
  pose proof (refilled_steady N iv now rl HN Hiv Hcap Hst) as (Hmu & Hmx & Hi & Htk).
  destruct Hst as (Hmu0 & _ & Hi0 & _).
  rewrite Wait_unfold by (try assumption; lia). cbv zeta.
  assert (max_int64 / iv >= 0) by (apply Z_div_ge0; unfold max_int64; lia).
  destruct (Z.leb_spec (tokens (refilled now rl)) 0).
  - destruct (sel _); [discriminate|].
    intros [= <- <-]. split; [reflexivity|].
    change (sub64 1 1) with 0.
    unfold steady. simpl. repeat split; try assumption; lia.
  - intros [= <- <-]. split; [reflexivity|].
    unfold steady, sub64. simpl.
    rewrite wrap64_id by (unfold min_int64, max_int64 in *; lia).
    repeat split; try assumption; lia.
Qed.

Lemma steady_within N iv rl : steady N iv rl -> within_capacity rl.
Proof. intros (_ & Hmx & _ & Htk). unfold within_capacity. rewrite Hmx. exact Htk. Qed.

Lemma perform_steady N iv c rl rl' :
  0 <= N -> 0 < iv -> N + max_int64 / iv <= max_int64 ->
  steady N iv rl -> perform c rl = Returns tt rl' -> steady N iv rl'.
Proof.
  intros HN Hiv Hcap Hst. destruct c as [now|now sel now']; unfold perform, bind, ret.
  - destruct (TryAcquire_steady N iv now rl HN Hiv Hcap Hst) as (ok & rl1 & -> & H1).
    intros [= <-]. exact H1.
  - destruct (Wait now sel now' rl) as [r rl1|c] eqn:E; [|discriminate].
    intros [= <-]. eapply Wait_steady; eassumption.
Qed.

Lemma perform_all_steady N iv cs : forall rl rl',
  0 <= N -> 0 < iv -> N + max_int64 / iv <= max_int64 ->
  steady N iv rl -> perform_all cs rl = Returns tt rl' -> steady N iv rl'.
Proof.
  induction cs as [|c cs IH]; intros rl rl' HN Hiv Hcap Hst; simpl.
  - unfold ret. intros [= <-]. exact Hst.
  - unfold bind at 1. destruct (perform c rl) as [[] rl1|] eqn:E; [|discriminate].
    intros Hrest. apply (IH rl1 rl' HN Hiv Hcap); [|exact Hrest].
    exact (perform_steady N iv c rl rl1 HN Hiv Hcap Hst E).
Qed.

Lemma perform_all_total N iv cs : forall rl,
  0 <= N -> 0 < iv -> N + max_int64 / iv <= max_int64 ->
  steady N iv rl -> Forall timer_only cs ->
  exists rl', perform_all cs rl = Returns tt rl'.
Proof.
  induction cs as [|c cs IH]; intros rl HN Hiv Hcap Hst Hcs; simpl.
  - eexists; reflexivity.
  - inversion Hcs as [|? ? Hc Hcs']; subst.
    assert (exists rl1, perform c rl = Returns tt rl1) as [rl1 E].
    { destruct c as [now|now sel now']; unfold perform, bind, ret.
      - destruct (TryAcquire_steady N iv now rl HN Hiv Hcap Hst) as (ok & rl1 & -> & _).
        eexists; reflexivity.
      - destruct Hst as (Hmu & _ & Hi & _).
        rewrite Wait_unfold by (try assumption; lia). cbv zeta.
        simpl in Hc. rewrite Hc.
        destruct (_ <=? 0); eexists; reflexivity. }
    unfold bind at 1. rewrite E.
    apply (IH rl1 HN Hiv Hcap); [|assumption].
    exact (perform_steady N iv c rl rl1 HN Hiv Hcap Hst E).
Qed.

Lemma New_steady N iv t0 : 0 <= N -> steady N iv (NewRateLimiter N iv t0).
Proof. intros HN. unfold steady, NewRateLimiter. simpl. repeat split; lia. Qed.

(** C8, amended: for every limiter built with a capacity [N >= 0] and a
    positive interval such that [N] plus the largest number of periods a
    duration can hold still fits Go's [int], [0 <= tokens <= capacity] holds
    after the constructor and after every sequence of completed [TryAcquire]
    and [Wait] calls; and such a sequence does complete when no context is
    done while [Wait] blocks. *)
Theorem tokens_within_capacity N iv t0 :
  0 <= N -> 0 < iv -> N + max_int64 / iv <= max_int64 ->
  always_within_capacity N iv t0 /\
  (forall cs, Forall timer_only cs ->
     exists rl', perform_all cs (NewRateLimiter N iv t0) = Returns tt rl').
Proof.
  intros HN Hiv Hcap. split; [split|].
  - eapply steady_within, New_steady, HN.
  - intros cs rl' Hrun. apply (steady_within N iv).
    exact (perform_all_steady N iv cs _ rl' HN Hiv Hcap (New_steady N iv t0 HN) Hrun).
  - intros cs Hcs.
    exact (perform_all_total N iv cs _ HN Hiv Hcap (New_steady N iv t0 HN) Hcs).
Qed.

(** C8, counterexample: [NewRateLimiter(-1, time.Second)] starts with
    [tokens = -1]. *)
Lemma negative_capacity_breaks_invariant : ~ always_within_capacity (-1) Second 0.
Proof. intros [[H _] _]. simpl in H. lia. Qed.

(** The amended invariant for the default public limit, 120 per minute. *)
Lemma tokens_within_capacity_witness :
  always_within_capacity 120 Minute 0 /\
  (forall cs, Forall timer_only cs ->
     exists rl', perform_all cs (NewRateLimiter 120 Minute 0) = Returns tt rl').
Proof. apply (tokens_within_capacity 120 Minute 0); [lia | reflexivity | vm_compute; discriminate]. Defined.

Lemma refilled_again now x rl :
  0 < interval rl ->
  refilled now (set_tokens x (refilled now rl)) = set_tokens x (refilled now rl).
Proof.
  intros Hiv. unfold refilled at 2 3.
  destruct (Z.leb_spec (interval rl) (Sub now (lastRefill rl))) as [H|H].
  - unfold refilled. simpl. rewrite Sub_same.
    destruct (Z.leb_spec (interval rl) 0); [lia|reflexivity].
  - unfold refilled. simpl.
    destruct (Z.leb_spec (interval rl) (Sub now (lastRefill rl))); [lia|reflexivity].
Qed.

Lemma refilled_fields now rl :
  mu (refilled now rl) = mu rl /\ interval (refilled now rl) = interval rl /\
  maxTokens (refilled now rl) = maxTokens rl.
Proof. unfold refilled. destruct (_ <=? _); simpl; auto. Qed.

Lemma burst m : forall now rl,
  mu rl = false -> 0 < interval rl ->
  tokens (refilled now rl) = Z.of_nat m -> Z.of_nat m <= max_int64 ->
  TryAcquire_each (repeat now (S m)) rl =
    Returns (repeat true m ++ [false])%list (set_tokens 0 (refilled now rl)).
Proof.
  induction m as [|m IH]; intros now rl Hmu Hiv Htk Hm.
  - simpl. unfold bind, ret. rewrite TryAcquire_unfold by (try assumption; lia).
    rewrite Htk. simpl.
    destruct (refilled now rl) as [tk mx i lr b]. simpl in Htk. subst tk. reflexivity.
  - change (repeat now (S (S m))) with (now :: repeat now (S m)).
    cbn [TryAcquire_each]. unfold bind at 1.
    rewrite TryAcquire_unfold by (try assumption; lia).
    rewrite Htk.
    destruct (Z.leb_spec (Z.of_nat (S m)) 0) as [?|_]; [lia|].
    destruct (refilled_fields now rl) as (Hmu1 & Hi1 & _).
    set (rl1 := set_tokens (sub64 (Z.of_nat (S m)) 1) (refilled now rl)).
    assert (Hrl1 : refilled now rl1 = rl1) by (apply refilled_again; exact Hiv).
    assert (Hsub : sub64 (Z.of_nat (S m)) 1 = Z.of_nat m).
    { unfold sub64. rewrite wrap64_id by (unfold min_int64, max_int64 in *; lia). lia. }
    unfold bind at 1. rewrite (IH now rl1).
    + unfold ret. rewrite Hrl1. reflexivity.
    + unfold rl1. simpl. congruence.
    + unfold rl1. simpl. lia.
    + rewrite Hrl1. unfold rl1. simpl. exact Hsub.
    + lia.
Qed.

(** C2: the burst is as claimed, the refill is not. A limiter of capacity 2
    and interval 10 s grants two acquisitions at time 0 and refuses the
    third; drained at time 0 and left alone for one full interval, it grants
    one acquisition at time 10 s and refuses the second, where the claim has
    the capacity available again. The default public limit of [NewGemini],
    120 requests per minute, drained, grants one request a minute later. The
    refill adds one token per elapsed interval, and so does not refill to
    the capacity. *)
Theorem one_interval_refills_one_token :
  TryAcquire_each [0; 0; 0] (NewRateLimiter 2 (10 * Second) 0) =
    Returns [true; true; false] (drained_at 2 (10 * Second) 0) /\
  TryAcquire_each [10 * Second; 10 * Second] (drained_at 2 (10 * Second) 0) =
    Returns [true; false] (drained_at 2 (10 * Second) (10 * Second)) /\
  TryAcquire_each [Minute; Minute] (drained_at 120 Minute 0) =
    Returns [true; false] (drained_at 120 Minute Minute) /\
  ~ refills_to_capacity 2 (10 * Second) 0.
Proof.
  split; [reflexivity|]. split; [reflexivity|]. split; [reflexivity|].
  intros (drained & Hburst & rl' & Hagain).
  vm_compute in Hburst. injection Hburst as <-.
  vm_compute in Hagain. discriminate.
Qed.

(** What the code does, for any capacity [N >= 0] and positive interval:
    exactly [N] consecutive [TryAcquire] calls at construction time succeed
    and the next fails at once; when the last refill was at the instant the
    bucket was drained and [k >= 1] whole intervals have elapsed since, with
    no access in between, exactly [min N k] acquisitions succeed and the next
    fails. *)
Theorem TryAcquire_burst_and_refill N iv t0 :
  0 <= N <= max_int64 -> 0 < iv <= max_int64 ->
  TryAcquire_each (repeat t0 (S (Z.to_nat N))) (NewRateLimiter N iv t0) =
    Returns (repeat true (Z.to_nat N) ++ [false])%list (drained_at N iv t0) /\
  (forall now, iv <= now - t0 ->
     let available := Z.to_nat (Z.min N (Sub now t0 / iv)) in
     TryAcquire_each (repeat now (S available)) (drained_at N iv t0) =
       Returns (repeat true available ++ [false])%list (drained_at N iv now)) /\
  TryAcquire_each (repeat (t0 + iv) (S (Z.to_nat (Z.min N 1)))) (drained_at N iv t0) =
    Returns (repeat true (Z.to_nat (Z.min N 1)) ++ [false])%list (drained_at N iv (t0 + iv)).
Proof.
  intros HN Hiv.
  assert (Hlater : forall now, iv <= now - t0 ->
     TryAcquire_each (repeat now (S (Z.to_nat (Z.min N (Sub now t0 / iv)))))
       (drained_at N iv t0) =
     Returns (repeat true (Z.to_nat (Z.min N (Sub now t0 / iv))) ++ [false])%list
       (drained_at N iv now)).
  { intros now Hnow.
    assert (Hel : iv <= Sub now t0 <= max_int64).
    { pose proof (Sub_range now t0). split; [|lia].
      unfold Sub. destruct (Z.ltb_spec (now - t0) min_int64); [unfold min_int64 in *; lia|].
      destruct (Z.ltb_spec max_int64 (now - t0)); lia. }
    destruct (periods_bound iv (Sub now t0) (proj1 Hiv) Hel) as (Hq & Hb & Hb').
    assert (Hre : refilled now (drained_at N iv t0) =
                  mkRateLimiter (Z.min N (Sub now t0 / iv)) N iv now false).
    { unfold refilled, drained_at. simpl.
      destruct (Z.leb_spec iv (Sub now t0)); [|lia].
      unfold set_lastRefill, set_tokens. simpl. rewrite Hq, min_spec.
      unfold add64. rewrite wrap64_id by (unfold min_int64, max_int64 in *; lia).
      reflexivity. }
    rewrite (burst _ now (drained_at N iv t0)).
    - rewrite Hre. reflexivity.
    - reflexivity.
    - simpl. lia.
    - rewrite Hre. simpl. lia.
    - lia. }
  split; [|split].
  - assert (Hre : refilled t0 (NewRateLimiter N iv t0) = NewRateLimiter N iv t0).
    { unfold refilled. simpl. rewrite Sub_same.
      destruct (Z.leb_spec iv 0); [lia|reflexivity]. }
    rewrite (burst _ t0 (NewRateLimiter N iv t0)).
    + rewrite Hre. reflexivity.
    + reflexivity.
    + simpl. lia.
    + rewrite Hre. simpl. lia.
    + lia.
  - exact Hlater.
  - specialize (Hlater (t0 + iv) ltac:(lia)).
    assert (Hone : Sub (t0 + iv) t0 / iv = 1).
    { unfold Sub. replace (t0 + iv - t0) with iv by lia.
      destruct (Z.ltb_spec iv min_int64); [unfold min_int64 in *; lia|].
      destruct (Z.ltb_spec max_int64 iv); [lia|].
      apply Z_div_same_full. lia. }
    rewrite Hone in Hlater. exact Hlater.
Qed.

(** The same for the limiter of capacity 2 and interval 10 s. *)
Lemma TryAcquire_burst_and_refill_witness :
  TryAcquire_each (repeat 0 (S (Z.to_nat 2))) (NewRateLimiter 2 (10 * Second) 0) =
    Returns (repeat true (Z.to_nat 2) ++ [false])%list (drained_at 2 (10 * Second) 0) /\
  TryAcquire_each (repeat (0 + 10 * Second) (S (Z.to_nat (Z.min 2 1))))
    (drained_at 2 (10 * Second) 0) =
    Returns (repeat true (Z.to_nat (Z.min 2 1)) ++ [false])%list
      (drained_at 2 (10 * Second) (0 + 10 * Second)).
Proof.
  assert (H1 : 0 <= 2 <= max_int64) by (split; vm_compute; discriminate).
  assert (H2 : 0 < 10 * Second <= max_int64)
    by (split; [reflexivity | vm_compute; discriminate]).
  destruct (TryAcquire_burst_and_refill 2 (10 * Second) 0 H1 H2) as (Ha & _ & Hb).
  exact (conj Ha Hb).
Defined.

Lemma Wait_cancelled now sel now' rl err :
  mu rl = false -> interval rl <> 0 ->
  tokens (refilled now rl) <= 0 ->
  (forall d, sel d = CtxDone err) ->
  Wait now sel now' rl = Crashes FatalUnlockOfUnlockedMutex.
Proof.
  intros Hmu Hiv Htk Hsel. rewrite Wait_unfold by assumption. cbv zeta.
  destruct (Z.leb_spec (tokens (refilled now rl)) 0); [|lia].
  rewrite Hsel. reflexivity.
Qed.

Lemma Wait_reports_nothing now sel now' rl r rl' :
  mu rl = false -> Wait now sel now' rl = Returns r rl' -> r = None.
Proof.
  intros Hmu. destruct (Z.eq_dec (interval rl) 0) as [Hz|Hnz].
  - destruct rl as [tk mx iv lr m]. simpl in *. subst.
    unfold Wait, defer, refill, bind, ret, get, modify, die, Lock, Unlock. simpl.
    destruct (0 <=? Sub now lr); simpl; [discriminate|].
    destruct (tk <=? 0); simpl; [discriminate|]. intros [= <- _]. reflexivity.
  - rewrite Wait_unfold by assumption. cbv zeta.
    destruct (_ <=? 0).
    + destruct (sel _); [discriminate|]. intros [= <- _]. reflexivity.
    + intros [= <- _]. reflexivity.
Qed.

End LimiterFacts.

(** ** The transport *)

Lemma assign_all_union (src dst : gmap string string) : assign_all src dst = src ∪ dst.
Proof.
  unfold assign_all.
  apply (map_fold_weak_ind (fun r m => r = m ∪ dst)).
  - symmetry. apply (left_id_L ∅ (∪)).
  - intros i x m r _ ->. apply insert_union_l.
Qed.

Lemma copy_of_id ps : copy_of ps = ps.
Proof. induction ps as [|p ps IH]; simpl; [reflexivity|]. now f_equal. Qed.

(** C10: [SetHeaders(h)] merges [h] into the default headers key by key:
    a key of [h] gets the value of [h], any other key keeps its value, and
    no call, nor any sequence of calls, removes a key; [SetProxies] replaces
    the proxy list by its argument and leaves the headers alone. *)
Theorem SetHeaders_merges (h : gmap string string) (c : HTTPClient) :
  (forall name,
     headers (SetHeaders h c) !! name =
       match h !! name with Some v => Some v | None => headers c !! name end) /\
  dom (headers c) ⊆ dom (headers (SetHeaders h c)) /\
  (forall hs,
     dom (headers c) ⊆ dom (headers (fold_left (fun c h => SetHeaders h c) hs c))) /\
  proxies (SetHeaders h c) = proxies c /\
  (forall ps, proxies (SetProxies ps c) = ps /\ headers (SetProxies ps c) = headers c).
Proof.
  assert (Hdom : forall h c, dom (headers c) ⊆ dom (headers (SetHeaders h c))).
  { intros h' c'. simpl. rewrite assign_all_union, dom_union_L. set_solver. }
  split; [|split; [|split; [|split]]].
  - intros name. simpl. rewrite assign_all_union, lookup_union.
    destruct (h !! name), (headers c !! name); reflexivity.
  - apply Hdom.
  - intros hs. revert c. induction hs as [|h' hs IH]; intros c'; simpl; [set_solver|].
    etrans; [apply (Hdom h')|apply IH].
  - reflexivity.
  - intros ps. split; [apply copy_of_id|reflexivity].
Qed.

Section TransportFacts.
Context {N : Network}.

Lemma wait_for_token_unfold apiType s :
  wait_for_token apiType s =
    match limiter_for apiType (http s) with
    | None => Returns None s
    | Some rl =>
        match Wait (time_Now (step s)) (select_ctx (step s + 1)) (time_Now (step s + 2)) rl with
        | Returns r rl' =>
            Returns r (advance 3 (set_http (with_limiter apiType rl' (http s)) s))
        | Crashes c => Crashes c
        end
    end.
Proof.
  unfold wait_for_token, bind, get. simpl.
  destruct (limiter_for apiType (http s)) as [rl|]; [|reflexivity].
  unfold zoom, modify, ret. destruct (Wait _ _ _ rl); reflexivity.
Qed.

Lemma with_limiter_frame apiType rl c :
  headers (with_limiter apiType rl c) = headers c /\
  proxies (with_limiter apiType rl c) = proxies c.
Proof.
  unfold with_limiter. destruct (String.eqb _ _); [split; reflexivity|].
  destruct (String.eqb _ _); split; reflexivity.
Qed.

(** Waiting for a token touches the limiter and the interaction count only,
    and what it returns is never an error. *)
Lemma wait_for_token_frame apiType s r s' :
  unlocked apiType (http s) ->
  wait_for_token apiType s = Returns r s' ->
  r = None /\ wire s' = wire s /\ journal s' = journal s /\
  headers (http s') = headers (http s) /\ proxies (http s') = proxies (http s).
Proof.
  intros Hun. rewrite wait_for_token_unfold.
  destruct (limiter_for apiType (http s)) as [rl|] eqn:E.
  - destruct (Wait _ _ _ rl) as [r0 rl'|] eqn:EW; [|discriminate].
    intros [= <- <-]. apply Wait_reports_nothing in EW; [|exact (Hun rl E)].
    destruct (with_limiter_frame apiType rl' (http s)) as [Hh Hp].
    simpl. auto.
  - intros [= <- <-]. auto.
Qed.

Lemma wait_for_token_total apiType s :
  usable apiType (http s) -> calm ->
  exists s', wait_for_token apiType s = Returns None s' /\
    wire s' = wire s /\ journal s' = journal s /\
    headers (http s') = headers (http s) /\ proxies (http s') = proxies (http s).
Proof.
  intros Hus Hcalm. rewrite wait_for_token_unfold.
  destruct (limiter_for apiType (http s)) as [rl|] eqn:E.
  - destruct (Hus rl E) as [Hmu Hiv].
    rewrite Wait_unfold by assumption. cbv zeta. rewrite Hcalm.
    destruct (with_limiter_frame apiType
      (set_tokens (sub64 1 1)
         (set_lastRefill (time_Now (step s + 2)) (refilled (time_Now (step s)) rl))) (http s)).
    destruct (with_limiter_frame apiType
      (set_tokens (sub64 (tokens (refilled (time_Now (step s)) rl)) 1)
         (refilled (time_Now (step s)) rl)) (http s)).
    destruct (_ <=? 0)%Z; eexists; (split; [reflexivity|]); simpl; auto.
  - eexists. split; [reflexivity|]. auto.
Qed.

(** [rand.Intn(n)] is below [n]: the index is always in range. *)
Lemma pick_proxy_total ps s :
  exists via k, pick_proxy ps s = Returns via (advance k s).
Proof.
  unfold pick_proxy. destruct (0 <? length ps)%nat eqn:E.
  - unfold bind, get, modify. simpl.
    apply Nat.ltb_lt in E.
    destruct (ps !! (rand_Intn (step s) (length ps) mod length ps)%nat) as [p|] eqn:L.
    + exists (Some p), 1%nat. reflexivity.
    + apply lookup_ge_None in L.
      pose proof (Nat.mod_upper_bound (rand_Intn (step s) (length ps)) (length ps)). lia.
  - exists None, 0%nat. unfold ret, advance. destruct s; simpl.
    rewrite Nat.add_0_r. reflexivity.
Qed.

Lemma conclude_frame r s :
  exists res s', conclude r s = Returns res s' /\
    wire s' = wire s /\ http s' = http s /\
    (forall payload, r = NetResponse 200 payload ->
       res = Ok payload /\
       last (journal s') = Some (mkLogLine Debug "Request completed successfully" [])) /\
    (forall e, res = Err e -> GetCode e = ErrNetworkError).
Proof.
  destruct r as [cause|status payload]; simpl.
  - eexists _, _. split; [reflexivity|]. simpl. repeat split; try discriminate.
    intros e [= <-]. reflexivity.
  - unfold bind, logf, modify. simpl.
    destruct (Z.eqb_spec status 200) as [->|Hne]; simpl.
    + eexists _, _. split; [reflexivity|]. simpl.
      split; [reflexivity|]. split; [reflexivity|]. split.
      * intros payload' [= <-]. split; [reflexivity|]. apply last_snoc.
      * discriminate.
    + eexists _, _. split; [reflexivity|]. simpl.
      split; [reflexivity|]. split; [reflexivity|]. split.
      * intros payload' [= ? ?]. contradiction.
      * intros e [= <-]. reflexivity.
Qed.

(** With a usable limiter and a context that is not done, the request
    reaches the wire: the method, the URL and the body are the arguments, the
    header fields are the custom ones over the defaults. *)
Lemma requestWithHeaders_delivers method url body custom apiType s :
  usable apiType (http s) -> calm ->
  exists s1 via,
    requestWithHeaders method url body custom apiType s =
      conclude (DoTimeout (step s1)
                  (mkRequest method url body (custom ∪ headers (http s)) via))
        (mkSession (http s1) (step s1 + 1)
           (wire s ++ [mkRequest method url body (custom ∪ headers (http s)) via])
           (journal s1)).
Proof.
  intros Hus Hcalm. unfold requestWithHeaders.
  unfold bind at 1. unfold logf at 1. unfold modify.
  set (s0 := mkSession (http s) (step s) (wire s) _).
  destruct (wait_for_token_total apiType s0 Hus Hcalm) as (s' & Hw & Hwire & Hj & Hh & Hp).
  unfold bind at 1. rewrite Hw. unfold bind at 1. unfold get.
  rewrite !assign_all_union, copy_of_id, Hh. simpl.
  rewrite (right_id_L ∅ (∪)).
  unfold send. unfold bind at 1.
  destruct (pick_proxy_total (proxies (http s')) s') as (via & k & ->).
  unfold bind at 1. unfold roundtrip. unfold bind at 1, get. unfold bind at 1, put. unfold ret.
  exists (advance k s'), via. simpl. rewrite Hwire. reflexivity.
Qed.

(** In one goroutine, the branch of [requestWithHeaders] that wraps the
    error of [Wait] as a rate-limit error is never taken: [Wait] returns nil
    or the process dies. *)
Lemma requestWithHeaders_no_rate_limit_error method url body custom apiType s r s' :
  unlocked apiType (http s) ->
  requestWithHeaders method url body custom apiType s = Returns r s' ->
  forall e, r = Err e -> GetCode e <> ErrRateLimit.
Proof.
  intros Hun. unfold requestWithHeaders.
  unfold bind at 1. unfold logf at 1. unfold modify.
  set (s0 := mkSession (http s) (step s) (wire s) _).
  unfold bind at 1.
  destruct (wait_for_token apiType s0) as [w s1|] eqn:Hw; [|discriminate].
  apply wait_for_token_frame in Hw; [|exact Hun]. destruct Hw as (-> & _).
  unfold bind at 1, get. unfold send. unfold bind at 1.
  destruct (pick_proxy_total (copy_of (proxies (http s1))) s1) as (via & k & ->).
  unfold bind at 1. unfold roundtrip. unfold bind at 1, get. unfold bind at 1, put. unfold ret.
  match goal with |- conclude ?r ?st = _ -> _ =>
    destruct (conclude_frame r st) as (res & s2 & -> & _ & _ & _ & Hcode) end.
  intros [= <- <-] e He. rewrite (Hcode e He). discriminate.
Qed.

End TransportFacts.

(** C1: a limiter of capacity 1 gives its token to a first [TryAcquire];
    a [Wait] that then blocks and whose context is cancelled does not return
    the context's error: the deferred [Unlock] finds the mutex already
    unlocked and the runtime stops the process. A private request on a client
    with that limiter dies in the same way, before any rate-limit error
    is built. *)
Theorem Wait_cancelled_while_blocking_is_fatal :
  TryAcquire (Scenario.clock 0) (NewRateLimiter 1 Second (Scenario.clock 0)) =
    Returns true Scenario.exhausted /\
  Wait (Scenario.clock 1) (fun _ => CtxDone context_Canceled) (Scenario.clock 2)
    Scenario.exhausted =
    Crashes FatalUnlockOfUnlockedMutex /\
  @PostWithHeaders Scenario.cancelling "https://api.gemini.com/v1/balances" None ∅
    APITypePrivate Scenario.throttled = Crashes FatalUnlockOfUnlockedMutex.
Proof. repeat split; vm_compute; reflexivity. Qed.

(** ** The exchange *)

Section ExchangeFacts.
Context {N : Network} {C : Codec}.

Lemma credentials_missing_iff g :
  credentials_missing g = true <-> apiKey g = "" \/ apiSecret g = "".
Proof.
  unfold credentials_missing. rewrite orb_true_iff, !String.eqb_eq. reflexivity.
Qed.

Lemma credentials_present g :
  apiKey g <> "" -> apiSecret g <> "" -> credentials_missing g = false.
Proof.
  intros Hk Hs. destruct (credentials_missing g) eqn:E; [|reflexivity].
  apply credentials_missing_iff in E. tauto.
Qed.

Lemma private_call_guard {A} endpoint fill mf before pf (decode : list byte -> result A)
    qf after g :
  credentials_missing g = true ->
  private_call endpoint fill mf before pf decode qf after g =
    Returns (Err missing_credentials_error) g.
Proof. intros H. unfold private_call, bind, get. rewrite H. reflexivity. Qed.

(** C5: with an empty API key or an empty API secret every private
    operation returns the InvalidInput error of the guard and leaves the
    whole process state as it was: no clock reading for a nonce, no token
    taken, nothing on the wire, nothing logged. *)
Theorem private_call_requires_credentials (op : private_op) (g : Gemini) :
  apiKey g = "" \/ apiSecret g = "" ->
  call_private op g = Returns (Err missing_credentials_error) g /\
  GetCode missing_credentials_error = ErrInvalidInput.
Proof.
  intros H. apply credentials_missing_iff in H. split; [|reflexivity].
  destruct op; unfold call_private, answered, PlaceOrder, CancelOrder, GetActiveOrders,
    GetOrderStatus, GetAvailableBalances, GetNotionalBalances, ListDepositAddresses;
    unfold bind at 1; rewrite private_call_guard by exact H; reflexivity.
Qed.

Lemma settle_frame {A} pf (decode : list byte -> result A) qf after posted g :
  exists res g', settle pf decode qf after posted g = Returns res g' /\
    wire (client g') = wire (client g) /\
    (forall response e, posted = Ok response -> api_error response = Some e ->
       res = Err e /\ g' = g).
Proof.
  destruct posted as [response|err]; simpl.
  - destruct (api_error response) as [e|] eqn:E.
    + eexists _, _. split; [reflexivity|]. split; [reflexivity|].
      intros response' e' [= <-]. rewrite E. intros [= <-]. auto.
    + destruct (decode response) as [a|e]; simpl.
      * eexists _, _. split; [reflexivity|]. split; [reflexivity|].
        intros response' e' [= <-]. rewrite E. discriminate.
      * eexists _, _. split; [reflexivity|]. split; [reflexivity|].
        intros response' e' [= <-]. rewrite E. discriminate.
  - eexists _, _. split; [reflexivity|]. split; [reflexivity|]. discriminate.
Qed.

(** A private call with credentials, a usable limiter, a context that is
    not done and a payload that marshals: it returns, it has put exactly its
    request on the wire, and a 200 reply that holds an error envelope decides
    the result. *)
Lemma private_call_runs {A} endpoint fill mf before pf (decode : list byte -> result A)
    qf after g payloadBytes :
  credentials_missing g = false ->
  usable APITypePrivate (http (client g)) -> calm ->
  json_Marshal (fill (FormatInt (time_Now (step (client g))))) = Ok payloadBytes ->
  exists res g' via k,
    private_call endpoint fill mf before pf decode qf after g = Returns res g' /\
    wire (client g') =
      (wire (client g) ++ [private_request g endpoint payloadBytes via])%list /\
    (forall response e,
       DoTimeout k (private_request g endpoint payloadBytes via) = NetResponse 200 response ->
       api_error response = Some e ->
       res = Err e /\
       last (journal (client g')) =
         Some (mkLogLine Debug "Request completed successfully" [])).
Proof.
  intros Hcred Hus Hcalm Hm.
  unfold private_call. unfold bind at 1, get. rewrite Hcred.
  unfold bind at 1. unfold UnixNano_now, on_client, zoom.
  unfold bind at 1, get. unfold bind at 1, modify. unfold ret at 1.
  rewrite Hm. unfold bind at 1. unfold gemit, glog, on_client, zoom, logf, modify.
  unfold bind at 1. unfold PostWithHeaders.
  match goal with |- context [requestWithHeaders ?m ?u ?b ?c ?t ?s] =>
    destruct (requestWithHeaders_delivers m u b c t s) as (s1 & via & ->);
      [exact Hus | exact Hcalm |] end.
  simpl.
  match goal with |- context [conclude ?r ?st] =>
    destruct (conclude_frame r st) as (posted & s2 & -> & Hw & _ & H200 & _) end.
  match goal with |- context [settle ?a ?b ?c ?d ?p ?gg] =>
    destruct (settle_frame a b c d p gg) as (res & g' & -> & Hw' & Hapi) end.
  exists res, g', via, (step s1). split; [reflexivity|]. split.
  - rewrite Hw'. simpl. rewrite Hw. simpl. reflexivity.
  - intros response e Hreply Herr. simpl in H200.
    destruct (H200 response Hreply) as [Hposted Hlast].
    destruct (Hapi response e Hposted Herr) as [-> ->]. split; [reflexivity|].
    simpl. exact Hlast.
Qed.

Lemma call_private_runs op g payloadBytes :
  credentials_missing g = false ->
  usable APITypePrivate (http (client g)) -> calm ->
  json_Marshal (payload_of op (FormatInt (time_Now (step (client g))))) = Ok payloadBytes ->
  exists res g' via k,
    call_private op g = Returns res g' /\
    wire (client g') =
      (wire (client g) ++ [private_request g (endpoint_of op) payloadBytes via])%list /\
    (forall response e,
       DoTimeout k (private_request g (endpoint_of op) payloadBytes via) =
         NetResponse 200 response ->
       api_error response = Some e ->
       res = Err e /\
       last (journal (client g')) =
         Some (mkLogLine Debug "Request completed successfully" [])).
Proof.
  intros Hcred Hus Hcalm Hm.
  destruct op; unfold call_private, answered, PlaceOrder, CancelOrder, GetActiveOrders,
    GetOrderStatus, GetAvailableBalances, GetNotionalBalances, ListDepositAddresses;
    cbv zeta; unfold bind at 1;
    match goal with |- context [private_call ?e ?f ?mf ?b ?pf ?d ?qf ?a g] =>
      destruct (private_call_runs e f mf b pf d qf a g payloadBytes Hcred Hus Hcalm Hm)
        as (res & g' & via & k & -> & Hw & Hapi) end;
    eexists _, g', via, k; (split; [reflexivity|]); (split; [exact Hw|]);
    intros response e Hr He; destruct (Hapi response e Hr He) as [-> Hlast];
    (split; [reflexivity|exact Hlast]).
Qed.

Lemma auth_headers_lookup g payloadBytes :
  auth_headers g payloadBytes !! "X-GEMINI-APIKEY" = Some (apiKey g) /\
  auth_headers g payloadBytes !! "X-GEMINI-PAYLOAD" =
    Some (base64_EncodeToString payloadBytes) /\
  auth_headers g payloadBytes !! "X-GEMINI-SIGNATURE" =
    Some (hex_EncodeToString
            (hmac_sha384 (bytes_of (apiSecret g))
               (bytes_of (base64_EncodeToString payloadBytes)))) /\
  auth_headers g payloadBytes !! "Content-Type" = Some "text/plain" /\
  auth_headers g payloadBytes !! "Content-Length" = Some "0".
Proof. unfold auth_headers. repeat split; by simplify_map_eq. Qed.

Lemma auth_headers_dom g payloadBytes :
  dom (auth_headers g payloadBytes) = auth_header_names.
Proof.
  unfold auth_headers, auth_header_names. rewrite !dom_insert_L, dom_empty_L. set_solver.
Qed.

Lemma private_request_header g endpoint payloadBytes via name v :
  auth_headers g payloadBytes !! name = Some v ->
  header (private_request g endpoint payloadBytes via) !! name = Some v.
Proof.
  intros H. unfold private_request. simpl. rewrite lookup_union_l'; [exact H|eauto].
Qed.

Lemma payload_of_fields op nonce :
  payload_request (payload_of op nonce) = endpoint_of op /\
  payload_nonce (payload_of op nonce) = nonce.
Proof. destruct op; split; reflexivity. Qed.

(** C3: the request that a private operation puts on the wire carries, in
    X-GEMINI-PAYLOAD, the standard base64 encoding of the JSON bytes of its
    payload struct, so that decoding the header gives those bytes back, and,
    in X-GEMINI-SIGNATURE, the hex encoding of the HMAC-SHA384 digest keyed by
    the API secret of the bytes of that base64 string. The signed message is
    not the JSON: the two byte sequences differ, and the signature is not the
    hex digest of the JSON bytes unless the two digests collide. *)
Theorem private_request_is_signed (op : private_op) (g : Gemini) (payloadBytes : list byte) :
  apiKey g <> "" -> apiSecret g <> "" ->
  usable APITypePrivate (http (client g)) -> calm ->
  json_Marshal (payload_of op (FormatInt (time_Now (step (client g))))) = Ok payloadBytes ->
  exists res g' req payload signature,
    call_private op g = Returns res g' /\
    wire (client g') = (wire (client g) ++ [req])%list /\
    uri req = baseURL g ++ endpoint_of op /\
    header req !! "X-GEMINI-PAYLOAD" = Some payload /\
    header req !! "X-GEMINI-SIGNATURE" = Some signature /\
    payload = base64_EncodeToString payloadBytes /\
    base64_DecodeString payload = Some payloadBytes /\
    signature =
      hex_EncodeToString (hmac_sha384 (bytes_of (apiSecret g)) (bytes_of payload)) /\
    (payloadBytes <> [] -> bytes_of payload <> payloadBytes) /\
    (hmac_sha384 (bytes_of (apiSecret g)) (bytes_of payload) <>
       hmac_sha384 (bytes_of (apiSecret g)) payloadBytes ->
     signature <> hex_EncodeToString (hmac_sha384 (bytes_of (apiSecret g)) payloadBytes)).
Proof.
  intros Hk Hs Hus Hcalm Hm.
  destruct (call_private_runs op g payloadBytes (credentials_present g Hk Hs) Hus Hcalm Hm)
    as (res & g' & via & k & Hrun & Hw & _).
  destruct (auth_headers_lookup g payloadBytes) as (_ & Hp & Hsig & _).
  exists res, g', (private_request g (endpoint_of op) payloadBytes via),
    (base64_EncodeToString payloadBytes),
    (hex_EncodeToString
       (hmac_sha384 (bytes_of (apiSecret g)) (bytes_of (base64_EncodeToString payloadBytes)))).
  split; [exact Hrun|]. split; [exact Hw|]. split; [reflexivity|].
  split; [apply private_request_header, Hp|].
  split; [apply private_request_header, Hsig|].
  split; [reflexivity|]. split; [apply base64_roundtrip|].
  split; [reflexivity|]. split; [apply base64_differs|].
  intros Hdiff Heq. apply Hdiff. apply hex_inj, Heq.
Qed.

(** C4: a private operation puts one request on the wire: a POST to the
    base URL followed by the endpoint path, without a body, whose header
    fields are the operation's own over the client's defaults. The
    operation's own fields are the API key, the payload, the signature,
    Content-Type text/plain, Content-Length 0 and Cache-Control, and no
    other: the nonce is not among them. The nonce is the decimal form of the
    clock reading in nanoseconds and is a field of the struct whose JSON is
    the payload, next to the endpoint path. *)
Theorem private_call_wire_format (op : private_op) (g : Gemini) (payloadBytes : list byte) :
  apiKey g <> "" -> apiSecret g <> "" ->
  usable APITypePrivate (http (client g)) -> calm ->
  json_Marshal (payload_of op (FormatInt (time_Now (step (client g))))) = Ok payloadBytes ->
  exists res g' req,
    call_private op g = Returns res g' /\
    wire (client g') = (wire (client g) ++ [req])%list /\
    method req = "POST" /\ body req = None /\
    uri req = baseURL g ++ endpoint_of op /\
    header req = auth_headers g payloadBytes ∪ headers (http (client g)) /\
    dom (auth_headers g payloadBytes) = auth_header_names /\
    header req !! "X-GEMINI-APIKEY" = Some (apiKey g) /\
    header req !! "X-GEMINI-PAYLOAD" = Some (base64_EncodeToString payloadBytes) /\
    header req !! "X-GEMINI-SIGNATURE" =
      Some (hex_EncodeToString
              (hmac_sha384 (bytes_of (apiSecret g))
                 (bytes_of (base64_EncodeToString payloadBytes)))) /\
    header req !! "Content-Type" = Some "text/plain" /\
    header req !! "Content-Length" = Some "0" /\
    payload_nonce (payload_of op (FormatInt (time_Now (step (client g))))) =
      FormatInt (time_Now (step (client g))) /\
    payload_request (payload_of op (FormatInt (time_Now (step (client g))))) =
      endpoint_of op.
Proof.
  intros Hk Hs Hus Hcalm Hm.
  destruct (call_private_runs op g payloadBytes (credentials_present g Hk Hs) Hus Hcalm Hm)
    as (res & g' & via & k & Hrun & Hw & _).
  destruct (auth_headers_lookup g payloadBytes) as (Hkey & Hp & Hsig & Hct & Hcl).
  destruct (payload_of_fields op (FormatInt (time_Now (step (client g))))) as [Hreq Hnonce].
  exists res, g', (private_request g (endpoint_of op) payloadBytes via).
  split; [exact Hrun|]. split; [exact Hw|].
  split; [reflexivity|]. split; [reflexivity|]. split; [reflexivity|].
  split; [reflexivity|]. split; [apply auth_headers_dom|].
  split; [apply private_request_header, Hkey|].
  split; [apply private_request_header, Hp|].
  split; [apply private_request_header, Hsig|].
  split; [apply private_request_header, Hct|].
  split; [apply private_request_header, Hcl|].
  split; [exact Hnonce|exact Hreq].
Qed.

(** C6: when the peer answers 200 with a body that decodes to an error
    envelope whose result is "error", a private operation returns the
    API error that carries the reason and the message of the envelope,
    whatever the decoder of the success type would make of that body; the
    last line it logs is the transport's, on the 200 status it accepted, and
    not the line that follows a decoded answer. *)
Theorem error_envelope_takes_precedence (op : private_op) (g : Gemini)
    (payloadBytes response : list byte) (reason message : string) :
  apiKey g <> "" -> apiSecret g <> "" ->
  usable APITypePrivate (http (client g)) -> calm ->
  json_Marshal (payload_of op (FormatInt (time_Now (step (client g))))) = Ok payloadBytes ->
  (forall k req, DoTimeout k req = NetResponse 200 response) ->
  json_Unmarshal_ErrorResponse response = Ok (mkErrorResponse "error" reason message) ->
  exists g',
    call_private op g =
      Returns (Err (SDKError ErrAPIError
                      ("Gemini API error: " ++ reason ++ " - " ++ message) "" None)) g' /\
    last (journal (client g')) =
      Some (mkLogLine Debug "Request completed successfully" []).
Proof.
  intros Hk Hs Hus Hcalm Hm Hnet Hjson.
  destruct (call_private_runs op g payloadBytes (credentials_present g Hk Hs) Hus Hcalm Hm)
    as (res & g' & via & k & Hrun & _ & Hapi).
  assert (Henv : api_error response =
                 Some (SDKError ErrAPIError
                         ("Gemini API error: " ++ reason ++ " - " ++ message) "" None))
    by (unfold api_error; rewrite Hjson; reflexivity).
  destruct (Hapi response _ (Hnet k _) Henv) as [-> Hlast].
  exists g'. split; [exact Hrun|exact Hlast].
Qed.

(** *** Market data *)

Lemma details_loop_fetch_each symbols : forall allDetails g,
  details_loop symbols allDetails g =
    match fetch_each symbols g with
    | Returns outcomes g' => Returns (allDetails ++ succeeded outcomes)%list g'
    | Crashes c => Crashes c
    end.
Proof.
  induction symbols as [|symbol rest IH]; intros allDetails g.
  - simpl. unfold ret. now rewrite app_nil_r.
  - cbn [details_loop fetch_each]. unfold bind.
    destruct (GetSymbolDetails symbol g) as [[details|err] g1|c]; [| |reflexivity].
    + unfold ret at 1. rewrite IH.
      destruct (fetch_each rest g1) as [others g2|c]; [|reflexivity].
      unfold ret. simpl. now rewrite <- app_assoc.
    + destruct (glog Warn "Failed to fetch details for symbol" [("symbol", symbol)] g1)
        as [[] g1'|c]; [|reflexivity].
      rewrite IH.
      destruct (fetch_each rest g1') as [others g2|c]; reflexivity.
Qed.

Lemma fetch_each_length symbols : forall g outcomes g',
  fetch_each symbols g = Returns outcomes g' -> length outcomes = length symbols.
Proof.
  induction symbols as [|symbol rest IH]; intros g outcomes g'.
  - simpl. unfold ret. intros [= <- _]. reflexivity.
  - cbn [fetch_each]. unfold bind at 1.
    destruct (GetSymbolDetails symbol g) as [fetched g1|c]; [|discriminate].
    unfold bind at 1.
    destruct ((match fetched with
               | Ok _ => ret ()
               | Err _ => glog Warn "Failed to fetch details for symbol" [("symbol", symbol)]
               end) g1) as [[] g2|c]; [|discriminate].
    unfold bind at 1.
    destruct (fetch_each rest g2) as [others g3|c] eqn:E; [|discriminate].
    unfold ret. intros [= <- _]. simpl. f_equal. eapply IH, E.
Qed.

(** The policy of [GetAllSymbolDetails], for the calls that return: when
    the list of symbols cannot be fetched, that error, wrapped, and nothing
    else is fetched; when it can, one detail call per symbol, in order, a
    failed one is logged, and the details of those that succeeded are
    returned in the order of the list, with a nil error. *)
Theorem GetAllSymbolDetails_best_effort (g : Gemini) :
  match ListSymbols g with
  | Crashes c => GetAllSymbolDetails g = Crashes c
  | Returns (Err err) g1 =>
      GetAllSymbolDetails g =
        Returns (Err (Wrap ErrNetworkError "failed to fetch symbols list" err)) g1
  | Returns (Ok symbols) g1 =>
      match fetch_each symbols g1 with
      | Crashes c => GetAllSymbolDetails g = Crashes c
      | Returns outcomes g2 =>
          length outcomes = length symbols /\
          GetAllSymbolDetails g =
            (glog Debug "Successfully fetched all symbol details"
               [("count", FormatInt (Z.of_nat (length (succeeded outcomes))))] ;;;
             ret (Ok (succeeded outcomes)))%prog g2
      end
  end /\
  (forall e g', GetAllSymbolDetails g = Returns (Err e) g' ->
     exists err, ListSymbols g = Returns (Err err) g' /\
                 e = Wrap ErrNetworkError "failed to fetch symbols list" err).
Proof.
  unfold GetAllSymbolDetails. unfold bind.
  destruct (ListSymbols g) as [[symbols|err] g1|c].
  - rewrite details_loop_fetch_each.
    destruct (fetch_each symbols g1) as [outcomes g2|c] eqn:E.
    + unfold ret. simpl. split.
      * split; [eapply fetch_each_length, E|reflexivity].
      * discriminate.
    + split; [reflexivity|discriminate].
  - split; [reflexivity|]. unfold ret. intros e g' [= <- <-]. eauto.
  - split; [reflexivity|discriminate].
Qed.

End ExchangeFacts.

(** C9: the list fetch succeeds and the call does not return. On an exchange
    limited to one public request per second, [ListSymbols] takes the token
    and returns two symbols; the detail fetch of the first symbol has to wait
    for a token, the context is done while it waits, and [Wait] ends the
    process with the fatal error of the runtime (its deferred [Unlock] finds
    the mutex unlocked). [GetAllSymbolDetails] dies with it: it returns
    neither the details nor an error. *)
Theorem GetAllSymbolDetails_dies_with_a_waiting_fetch :
  let g := @NewGemini Market.impatient (Some Market.one_per_second) in
  match @ListSymbols Market.impatient Market.listing g with
  | Returns (Ok symbols) g1 =>
      symbols = ["btcusd"; "ethgusd"] /\
      @GetSymbolDetails Market.impatient Market.listing "btcusd" g1 =
        Crashes FatalUnlockOfUnlockedMutex
  | _ => False
  end /\
  @GetAllSymbolDetails Market.impatient Market.listing g =
    Crashes FatalUnlockOfUnlockedMutex.
Proof. vm_compute. repeat split; reflexivity. Qed.

(** ** The theorems on a concrete account *)

Lemma account_usable :
  usable APITypePrivate (http (client Scenario.account)).
Proof.
  intros rl H. vm_compute in H. injection H as <-.
  split; [reflexivity | discriminate].
Defined.

Lemma quiet_calm r : @calm (Scenario.quiet r).
Proof. intros k d. reflexivity. Defined.

(** C5 on an account without credentials: fetching the balances fails in
    the guard and the account is as before. *)
Lemma private_call_requires_credentials_witness :
  @call_private (Scenario.quiet Scenario.envelope) Scenario.stand_in
    (OpGetAvailableBalances "primary") Scenario.anonymous =
    Returns (Err missing_credentials_error) Scenario.anonymous.
Proof.
  apply (@private_call_requires_credentials (Scenario.quiet Scenario.envelope)
           Scenario.stand_in (OpGetAvailableBalances "primary") Scenario.anonymous).
  left. reflexivity.
Defined.

(** C3 on the sandbox account: cancelling an order puts a signed request
    on the wire. *)
Lemma private_request_is_signed_witness :
  exists res g' req payload,
    @call_private (Scenario.quiet Scenario.envelope) Scenario.stand_in
      (OpCancelOrder "106817811" "primary") Scenario.account = Returns res g' /\
    wire (client g') = (wire (client Scenario.account) ++ [req])%list /\
    header req !! "X-GEMINI-PAYLOAD" = Some payload /\
    exists payloadBytes, base64_DecodeString payload = Some payloadBytes.
Proof.
  destruct (@private_request_is_signed (Scenario.quiet Scenario.envelope)
              Scenario.stand_in (OpCancelOrder "106817811" "primary") Scenario.account
              (bytes_of "/v1/order/cancel 1700000000000000002"))
    as (res & g' & req & payload & signature & Hrun & Hw & _ & Hp & _ & _ & Hd & _).
  - discriminate.
  - discriminate.
  - exact account_usable.
  - exact (quiet_calm Scenario.envelope).
  - reflexivity.
  - exists res, g', req, payload. repeat split; try assumption.
    exists (bytes_of "/v1/order/cancel 1700000000000000002"). exact Hd.
Defined.

(** C4 on the sandbox account: fetching the balances is a POST without a
    body. *)
Lemma private_call_wire_format_witness :
  exists res g' req,
    @call_private (Scenario.quiet Scenario.envelope) Scenario.stand_in
      (OpGetAvailableBalances "primary") Scenario.account = Returns res g' /\
    wire (client g') = (wire (client Scenario.account) ++ [req])%list /\
    method req = "POST" /\ body req = None /\
    header req !! "Content-Type" = Some "text/plain" /\
    header req !! "Content-Length" = Some "0".
Proof.
  destruct (@private_call_wire_format (Scenario.quiet Scenario.envelope)
              Scenario.stand_in (OpGetAvailableBalances "primary") Scenario.account
              (bytes_of "/v1/balances 1700000000000000002"))
    as (res & g' & req & Hrun & Hw & Hm & Hb & _ & _ & _ & _ & _ & _ & Hct & Hcl & _).
  - discriminate.
  - discriminate.
  - exact account_usable.
  - exact (quiet_calm Scenario.envelope).
  - reflexivity.
  - exists res, g', req. repeat split; assumption.
Defined.

(** C6 on the sandbox account: the exchange answers a new order with 200
    and an error envelope. *)
Lemma error_envelope_takes_precedence_witness :
  exists g',
    @call_private (Scenario.quiet Scenario.envelope) Scenario.stand_in
      (OpPlaceOrder
         (NewOrderRequest.mk "" "" "" "btcusd" "0.5" "27000.00" OrderSideBuy
            OrderTypeExchangeLimit [] "primary"))
      Scenario.account =
    Returns (Err (SDKError ErrAPIError
                    "Gemini API error: InvalidNonce - Nonce was not increasing" "" None)) g' /\
    last (journal (client g')) =
      Some (mkLogLine Debug "Request completed successfully" []).
Proof.
  apply (@error_envelope_takes_precedence (Scenario.quiet Scenario.envelope)
           Scenario.stand_in _ Scenario.account
           (bytes_of "/v1/order/new 1700000000000000002") (bytes_of "envelope")
           "InvalidNonce" "Nonce was not increasing").
  - discriminate.
  - discriminate.
  - exact account_usable.
  - exact (quiet_calm Scenario.envelope).
  - reflexivity.
  - intros k req. reflexivity.
  - reflexivity.
Defined.

(** * Further properties of the code *)

Import GoText Exchange GeminiCore.

(** ** The rate limiter at its edges *)

Section LimiterEdges.
Local Open Scope Z_scope.

Lemma Sub_nonneg t u : u <= t -> 0 <= Sub t u.
Proof.
  intros H. unfold Sub, min_int64, max_int64.
  destruct (Z.ltb_spec (t - u) (- 2 ^ 63)); [lia|].
  destruct (Z.ltb_spec (2 ^ 63 - 1) (t - u)); lia.
Qed.

Lemma zero_interval_crash now sel now' rl :
  interval rl = 0 -> mu rl = false -> lastRefill rl <= now ->
  TryAcquire now rl = Crashes PanicDivideByZero /\
  Wait now sel now' rl = Crashes PanicDivideByZero.
Proof.
  destruct rl as [tk mx iv lr m]. simpl. intros -> -> Hlr.
  pose proof (Sub_nonneg now lr Hlr) as H0.
  unfold TryAcquire, Wait, defer, refill, bind, ret, get, modify, die, Lock, Unlock. simpl.
  destruct (Z.leb_spec 0 (Sub now lr)); [|lia]. simpl. split; reflexivity.
Qed.

(** X1: a limiter whose interval is zero cannot be used. With the mutex free
    and a clock that has not run backwards since the last refill, the
    division [elapsed / rl.interval] is reached by [TryAcquire] and by [Wait]
    alike, and the process ends in Go's integer-divide-by-zero panic. *)
Theorem zero_interval_panics now sel now' rl :
  interval rl = 0 -> mu rl = false -> lastRefill rl <= now ->
  TryAcquire now rl = Crashes PanicDivideByZero /\
  Wait now sel now' rl = Crashes PanicDivideByZero.
Proof. apply zero_interval_crash. Qed.

(** X1 on [NewRateLimiter(3, 0)], used at the instant of its creation. *)
Lemma zero_interval_panics_witness :
  TryAcquire 5 (NewRateLimiter 3 0 5) = Crashes PanicDivideByZero /\
  Wait 5 (fun _ => TimerFired) 6 (NewRateLimiter 3 0 5) = Crashes PanicDivideByZero.
Proof.
  apply (zero_interval_panics 5 (fun _ => TimerFired) 6 (NewRateLimiter 3 0 5));
    [reflexivity | reflexivity | simpl; lia].
Defined.

(** X2: [Wait] and [TryAcquire] agree on a limiter with a non-zero
    interval. Where [TryAcquire] would return true, [Wait] returns nil at
    once, in the same state, whatever the context does (its [select] is not
    reached). Where [TryAcquire] would return false in state [rl'], [Wait]
    blocks in its [select] for some time [d]; if the timer fires it returns
    nil with no token left and [lastRefill] set to the new clock reading. *)
Theorem Wait_agrees_with_TryAcquire now sel now' rl ok rl' :
  interval rl <> 0 ->
  TryAcquire now rl = Returns ok rl' ->
  if ok then Wait now sel now' rl = Returns None rl'
  else
    exists d,
      Wait now sel now' rl =
        match sel d with
        | CtxDone _ => Crashes FatalUnlockOfUnlockedMutex
        | TimerFired => Returns None (set_tokens 0 (set_lastRefill now' rl'))
        end.
Proof.
  intros Hiv. destruct (mu rl) eqn:Hmu.
  { destruct rl as [tk mx iv lr m]. simpl in Hmu. subst m.
    unfold TryAcquire, bind, Lock. simpl. discriminate. }
  rewrite TryAcquire_unfold, Wait_unfold by assumption. cbv zeta.
  destruct (_ <=? 0); intros [= <- <-].
  - eexists. change (sub64 1 1) with 0. reflexivity.
  - reflexivity.
Qed.

(** X2 on a fresh limiter of capacity two and a context that is already
    cancelled: [Wait] takes a token and returns nil. *)
Lemma Wait_agrees_with_TryAcquire_witness :
  Wait 7 (fun _ => CtxDone context_Canceled) 8 (NewRateLimiter 2 Second 7) =
    Returns None (mkRateLimiter 1 2 Second 7 false).
Proof.
  apply (Wait_agrees_with_TryAcquire 7 (fun _ => CtxDone context_Canceled) 8
           (NewRateLimiter 2 Second 7) true (mkRateLimiter 1 2 Second 7 false));
    [vm_compute; discriminate | reflexivity].
Defined.

(** X3: the time for which [Wait] arms its timer is positive and at most
    one interval, when the interval is positive and the clock has not run
    backwards since the last refill: two contexts that behave alike on the
    wait times in that range give the same outcome. *)
Theorem Wait_sleeps_at_most_one_interval now sel sel' now' rl :
  mu rl = false -> 0 < interval rl <= max_int64 -> lastRefill rl <= now ->
  (forall d, 0 < d <= interval rl -> sel d = sel' d) ->
  Wait now sel now' rl = Wait now sel' now' rl.
Proof.
  intros Hmu Hiv Hlr Hsel.
  rewrite !Wait_unfold by (try assumption; lia). cbv zeta.
  destruct (_ <=? 0); [|reflexivity].
  rewrite Hsel; [reflexivity|].
  destruct (refilled_fields now rl) as (_ & -> & _).
  pose proof (Sub_nonneg now (lastRefill rl) Hlr) as H0.
  unfold refilled.
  destruct (Z.leb_spec (interval rl) (Sub now (lastRefill rl))) as [H|H]; simpl.
  - rewrite Sub_same. unfold rem64. rewrite Z.rem_0_l by lia.
    unfold sub64. rewrite wrap64_id by (unfold min_int64, max_int64 in *; lia). lia.
  - unfold rem64. rewrite Z.rem_small by lia.
    unfold sub64. rewrite wrap64_id by (unfold min_int64, max_int64 in *; lia). lia.
Qed.

(** X3 on the exhausted limiter: a context that would only be done on a
    wait longer than the interval is as good as one that is never done. *)
Lemma Wait_sleeps_at_most_one_interval_witness :
  Wait (Scenario.clock 1)
    (fun d => if d <=? Second then TimerFired else CtxDone context_Canceled)
    (Scenario.clock 2) Scenario.exhausted =
  Wait (Scenario.clock 1) (fun _ => TimerFired) (Scenario.clock 2) Scenario.exhausted.
Proof.
  apply Wait_sleeps_at_most_one_interval.
  - reflexivity.
  - vm_compute. split; [reflexivity | discriminate].
  - vm_compute. discriminate.
  - intros d [_ Hd]. change (d <= Second) in Hd.
    destruct (Z.leb_spec d Second); [reflexivity | lia].
Defined.

Lemma zero_capacity_steady iv now rl :
  0 < iv -> steady 0 iv rl ->
  TryAcquire now rl = Returns false (refilled now rl) /\ steady 0 iv (refilled now rl).
Proof.
  intros Hiv Hst.
  assert (Hcap : 0 + max_int64 / iv <= max_int64).
  { cut (max_int64 / iv <= max_int64); [lia|].
    apply Z.div_le_upper_bound; [lia|]. unfold max_int64. nia. }
  pose proof (refilled_steady 0 iv now rl (Z.le_refl 0) Hiv Hcap Hst) as Hst'.
  split; [|exact Hst'].
  destruct Hst as (Hmu & _ & Hi & _). destruct Hst' as (_ & _ & _ & Htk).
  rewrite TryAcquire_unfold by (try assumption; lia).
  destruct (Z.leb_spec (tokens (refilled now rl)) 0); [reflexivity|lia].
Qed.

(** X4: a limiter built with capacity zero and a positive interval never
    grants a token to [TryAcquire], at whatever times it is called; a [Wait]
    whose context is never done still returns nil, once its timer has
    fired, and leaves the bucket empty. *)
Theorem zero_capacity_never_acquires iv t0 times :
  0 < iv ->
  (exists rl', TryAcquire_each times (NewRateLimiter 0 iv t0) =
                 Returns (repeat false (length times)) rl') /\
  (forall now now',
     exists rl', Wait now (fun _ => TimerFired) now' (NewRateLimiter 0 iv t0) =
                   Returns None rl' /\ tokens rl' = 0).
Proof.
  intros Hiv. split.
  - assert (H : forall rl, steady 0 iv rl ->
      exists rl', TryAcquire_each times rl = Returns (repeat false (length times)) rl').
    { induction times as [|t times IH]; intros rl Hst; simpl.
      - eexists. reflexivity.
      - destruct (zero_capacity_steady iv t rl Hiv Hst) as [E Hst'].
        unfold bind at 1. rewrite E.
        destruct (IH _ Hst') as (rl' & E'). unfold bind at 1. rewrite E'.
        eexists. reflexivity. }
    apply H, New_steady. lia.
  - intros now now'.
    destruct (zero_capacity_steady iv now (NewRateLimiter 0 iv t0) Hiv) as [_ Hst'];
      [apply New_steady; lia|].
    destruct Hst' as (_ & _ & _ & Htk).
    rewrite Wait_unfold by (simpl; lia). cbv zeta.
    destruct (Z.leb_spec (tokens (refilled now (NewRateLimiter 0 iv t0))) 0); [|lia].
    eexists. split; reflexivity.
Qed.

(** X4 on three calls, one second apart. *)
Lemma zero_capacity_never_acquires_witness :
  exists rl', TryAcquire_each [0; Second; 2 * Second] (NewRateLimiter 0 Second 0) =
                Returns [false; false; false] rl'.
Proof.
  apply (proj1 (zero_capacity_never_acquires Second 0 [0; Second; 2 * Second] ltac:(reflexivity))).
Defined.

End LimiterEdges.

(** ** Requests of the transport *)

Section TransportEdges.
Context {N : Network}.

Lemma pick_proxy_spec ps s :
  exists via k, pick_proxy ps s = Returns via (advance k s) /\ (k <= 1)%nat /\
    match via with None => ps = [] | Some p => In p ps end.
Proof.
  unfold pick_proxy. destruct (0 <? length ps)%nat eqn:E.
  - unfold bind, get, modify. simpl.
    apply Nat.ltb_lt in E.
    destruct (ps !! (rand_Intn (step s) (length ps) mod length ps)%nat) as [p|] eqn:L.
    + exists (Some p), 1%nat. split; [reflexivity|]. split; [lia|].
      apply list_elem_of_In. eapply list_elem_of_lookup_2, L.
    + apply lookup_ge_None in L.
      pose proof (Nat.mod_upper_bound (rand_Intn (step s) (length ps)) (length ps)). lia.
  - exists None, 0%nat. split.
    + unfold ret, advance. destruct s; simpl. rewrite Nat.add_0_r. reflexivity.
    + split; [lia|]. apply Nat.ltb_ge in E. destruct ps; [reflexivity | simpl in E; lia].
Qed.

Lemma conclude_delivered r s :
  exists lines,
    conclude r s =
      Returns (delivered r) (mkSession (http s) (step s) (wire s) (journal s ++ lines)).
Proof.
  destruct r as [cause|status payload]; simpl.
  - eexists. unfold bind, logf, modify, ret. reflexivity.
  - unfold bind, logf, modify, ret. simpl.
    destruct (Z.eqb status 200); simpl.
    + eexists. rewrite <- app_assoc. reflexivity.
    + eexists. rewrite <- app_assoc. reflexivity.
Qed.

Lemma send_delivered method url body hdr ps s :
  exists via k lines,
    send method url body hdr ps s =
      Returns (delivered (DoTimeout (step s + k) (mkRequest method url body hdr via)))
        (mkSession (http s) (step s + k + 1)
           (wire s ++ [mkRequest method url body hdr via]) (journal s ++ lines)) /\
    (k <= 1)%nat /\
    match via with None => ps = [] | Some p => In p ps end.
Proof.
  unfold send. unfold bind at 1.
  destruct (pick_proxy_spec ps s) as (via & k & -> & Hk & Hvia).
  unfold bind at 1. unfold roundtrip. unfold bind at 1, get. unfold bind at 1, put. unfold ret.
  match goal with |- context [conclude ?r ?st] =>
    destruct (conclude_delivered r st) as (lines & E) end.
  exists via, k, lines. split; [|exact (conj Hk Hvia)]. rewrite E. reflexivity.
Qed.

Lemma with_limiter_others apiType rl c :
  ReadTimeout (with_limiter apiType rl c) = ReadTimeout c /\
  (apiType <> APITypePublic ->
     publicLimiter (with_limiter apiType rl c) = publicLimiter c) /\
  (apiType <> APITypePrivate ->
     privateLimiter (with_limiter apiType rl c) = privateLimiter c).
Proof.
  unfold with_limiter.
  destruct (String.eqb_spec apiType APITypePublic) as [->|H1].
  - repeat split; intros; try reflexivity; contradiction.
  - destruct (String.eqb_spec apiType APITypePrivate) as [->|H2];
      repeat split; intros; try reflexivity; contradiction.
Qed.

(** Same configuration, the limiter of [apiType] apart. *)
Lemma wait_for_token_others apiType s r s' :
  wait_for_token apiType s = Returns r s' ->
  ReadTimeout (http s') = ReadTimeout (http s) /\
  headers (http s') = headers (http s) /\ proxies (http s') = proxies (http s) /\
  (apiType <> APITypePublic -> publicLimiter (http s') = publicLimiter (http s)) /\
  (apiType <> APITypePrivate -> privateLimiter (http s') = privateLimiter (http s)) /\
  wire s' = wire s /\ journal s' = journal s.
Proof.
  rewrite wait_for_token_unfold.
  destruct (limiter_for apiType (http s)) as [rl|] eqn:E.
  - destruct (Wait _ _ _ rl) as [r0 rl'|] eqn:EW; [|discriminate].
    intros [= <- <-].
    destruct (with_limiter_frame apiType rl' (http s)) as [Hh Hp].
    destruct (with_limiter_others apiType rl' (http s)) as (Ht & Hpub & Hpriv).
    simpl. auto 10.
  - intros [= <- <-]. auto 10.
Qed.

Lemma limiter_for_with_limiter apiType rl c :
  apiType = APITypePublic \/ apiType = APITypePrivate ->
  limiter_for apiType (with_limiter apiType rl c) = Some rl.
Proof. intros [-> | ->]; reflexivity. Qed.

Lemma wait_for_token_usable apiType s s' :
  usable apiType (http s) ->
  wait_for_token apiType s = Returns None s' -> usable apiType (http s').
Proof.
  intros Hus. rewrite wait_for_token_unfold.
  destruct (limiter_for apiType (http s)) as [rl|] eqn:E.
  - destruct (Hus rl E) as [Hmu Hiv].
    rewrite Wait_unfold by assumption. cbv zeta.
    destruct (refilled_fields (time_Now (step s)) rl) as (Hm & Hi & _).
    assert (Hk : apiType = APITypePublic \/ apiType = APITypePrivate).
    { unfold limiter_for in E.
      destruct (String.eqb_spec apiType APITypePublic); [auto|].
      destruct (String.eqb_spec apiType APITypePrivate); [auto|discriminate]. }
    destruct (_ <=? 0)%Z.
    + destruct (select_ctx _ _); [discriminate|].
      intros [= <-]. intros rl'. simpl. rewrite limiter_for_with_limiter by exact Hk.
      intros [= <-]. simpl. rewrite Hm, Hi. auto.
    + intros [= <-]. intros rl'. simpl. rewrite limiter_for_with_limiter by exact Hk.
      intros [= <-]. simpl. rewrite Hm, Hi. auto.
  - intros [= <-]. exact Hus.
Qed.

Lemma request_unfold method url body apiType s :
  request method url body apiType s =
    match wait_for_token apiType
            (mkSession (http s) (step s) (wire s)
               (journal s ++ [mkLogLine Debug "Sending HTTP request"
                                [("method", method); ("url", url); ("apiType", apiType)]]))
    with
    | Crashes c => Crashes c
    | Returns (Some err) s1 =>
        Returns (Err (Wrap ErrRateLimit "rate limit error" err))
          (mkSession (http s1) (step s1) (wire s1)
             (journal s1 ++ [mkLogLine Error "Rate limit error" []]))
    | Returns None s1 =>
        send method url body (headers (http s1) ∪ content_type_of body) (proxies (http s1)) s1
    end.
Proof.
  unfold request. unfold bind at 1. unfold logf at 1. unfold modify.
  unfold bind at 1. destruct (wait_for_token _ _) as [[err|] s1|]; [| |reflexivity].
  - reflexivity.
  - unfold bind at 1, get. rewrite assign_all_union, copy_of_id.
    unfold content_type_of. destruct body; reflexivity.
Qed.

(** A request with a usable limiter and a context that is not done. *)
Lemma request_delivers method url body apiType s :
  usable apiType (http s) -> calm ->
  exists via k s',
    let req := mkRequest method url body (headers (http s) ∪ content_type_of body) via in
    request method url body apiType s = Returns (delivered (DoTimeout k req)) s' /\
    wire s' = (wire s ++ [req])%list /\
    match via with None => proxies (http s) = [] | Some p => In p (proxies (http s)) end /\
    ReadTimeout (http s') = ReadTimeout (http s) /\
    headers (http s') = headers (http s) /\ proxies (http s') = proxies (http s) /\
    (apiType <> APITypePublic -> publicLimiter (http s') = publicLimiter (http s)) /\
    (apiType <> APITypePrivate -> privateLimiter (http s') = privateLimiter (http s)) /\
    (step s <= k < step s')%nat /\ usable apiType (http s').
Proof.
  intros Hus Hcalm. rewrite request_unfold.
  set (s0 := mkSession (http s) (step s) (wire s) _).
  destruct (wait_for_token_total apiType s0 Hus Hcalm) as (s1 & Hw & _).
  rewrite Hw.
  pose proof (wait_for_token_usable apiType s0 s1 Hus Hw) as Hus1.
  destruct (wait_for_token_others apiType s0 None s1 Hw)
    as (Ht & Hh & Hp & Hpub & Hpriv & Hwire & Hj).
  assert (Hstep : (step s <= step s1)%nat).
  { rewrite wait_for_token_unfold in Hw.
    destruct (limiter_for apiType (http s0)).
    - destruct (Wait _ _ _ _); [|discriminate]. injection Hw as _ <-. simpl. lia.
    - injection Hw as <-. simpl. lia. }
  destruct (send_delivered method url body (headers (http s1) ∪ content_type_of body)
              (proxies (http s1)) s1) as (via & k & lines & -> & _ & Hvia).
  subst s0. simpl in Ht, Hh, Hp, Hpub, Hpriv, Hwire, Hj, Hstep.
  exists via, (step s1 + k)%nat. eexists. cbv zeta.
  rewrite Hh. split; [reflexivity|]. simpl. rewrite Hwire, <- Hp.
  split; [reflexivity|]. split; [exact Hvia|].
  repeat (split; [first [assumption | reflexivity | lia]|]). exact Hus1.
Qed.


(** X5: what [request] puts on the wire when the limiter of the API class is
    usable and the context is not done: exactly one request, with the method,
    the URL and the body of the call. Its header fields are the default
    headers of the client; [Content-Type: application/json] is added for a
    body that is not nil, and a default [Content-Type] header overrides it.
    The connection is direct when the client has no proxies, and goes through
    one of the configured proxies otherwise. *)
Theorem request_wire_format m url b apiType s :
  usable apiType (http s) -> calm ->
  exists res s' req,
    request m url b apiType s = Returns res s' /\
    wire s' = (wire s ++ [req])%list /\
    method req = m /\ uri req = url /\ body req = b /\
    (forall name, name <> "Content-Type" -> header req !! name = headers (http s) !! name) /\
    header req !! "Content-Type" =
      match headers (http s) !! "Content-Type", b with
      | Some v, _ => Some v
      | None, Some _ => Some "application/json"
      | None, None => None
      end /\
    match dial req with
    | None => proxies (http s) = []
    | Some p => In p (proxies (http s))
    end.
Proof.
  intros Hus Hcalm.
  destruct (request_delivers m url b apiType s Hus Hcalm)
    as (via & k & s' & E & Hw & Hvia & _).
  eexists _, s', _. split; [exact E|]. split; [exact Hw|]. simpl.
  split; [reflexivity|]. split; [reflexivity|]. split; [reflexivity|].
  split; [|split; [|exact Hvia]].
  - intros name Hn. rewrite lookup_union.
    unfold content_type_of. destruct b; simplify_map_eq; destruct (headers (http s) !! name); reflexivity.
  - rewrite lookup_union. unfold content_type_of.
    destruct b; simplify_map_eq; destruct (headers (http s) !! "Content-Type"); reflexivity.
Qed.

(** X6: what [request] returns. The body is returned exactly when the reply
    has status 200; every other status, other 2xx codes included, and every
    failed round trip is an error of kind NetworkError: the message holds
    the status and the body, respectively the error wraps the cause. *)
Theorem request_result m url b apiType s :
  usable apiType (http s) -> calm ->
  exists res s' req k,
    request m url b apiType s = Returns res s' /\
    last (wire s') = Some req /\
    (forall payload, res = Ok payload <-> DoTimeout k req = NetResponse 200 payload) /\
    (forall e, res = Err e ->
       e = transport_error (DoTimeout k req) /\ GetCode e = ErrNetworkError).
Proof.
  intros Hus Hcalm.
  destruct (request_delivers m url b apiType s Hus Hcalm)
    as (via & k & s' & E & Hw & _).
  eexists _, s', _, k. split; [exact E|]. split; [rewrite Hw; apply last_snoc|].
  destruct (DoTimeout k _) as [cause|status payload]; simpl.
  - split; [split; discriminate|]. intros e [= <-]. split; reflexivity.
  - destruct (Z.eqb_spec status 200) as [->|Hne].
    + split; [|discriminate]. intros p. split; intros [= ->]; reflexivity.
    + split.
      * intros p. split; [discriminate|]. intros [= ? ?]. contradiction.
      * intros e [= <-]. split; reflexivity.
Qed.

(** X7: a request draws on the limiter of its own API class only: the
    limiter of the other class, the timeout, the default headers and the
    proxies of the client are as before. *)
Theorem request_keeps_the_other_limiter m url b apiType s :
  usable apiType (http s) -> calm ->
  exists res s',
    request m url b apiType s = Returns res s' /\
    (apiType <> APITypePublic -> publicLimiter (http s') = publicLimiter (http s)) /\
    (apiType <> APITypePrivate -> privateLimiter (http s') = privateLimiter (http s)) /\
    ReadTimeout (http s') = ReadTimeout (http s) /\
    headers (http s') = headers (http s) /\ proxies (http s') = proxies (http s).
Proof.
  intros Hus Hcalm.
  destruct (request_delivers m url b apiType s Hus Hcalm)
    as (via & k & s' & E & _ & _ & Ht & Hh & Hp & Hpub & Hpriv & _ & _).
  eexists _, s'. split; [exact E|]. auto.
Qed.

Lemma limiter_for_unknown apiType c :
  apiType <> APITypePublic -> apiType <> APITypePrivate -> limiter_for apiType c = None.
Proof.
  intros H1 H2. unfold limiter_for.
  destruct (String.eqb_spec apiType APITypePublic); [contradiction|].
  destruct (String.eqb_spec apiType APITypePrivate); [contradiction|reflexivity].
Qed.

Lemma requestWithHeaders_unfold method url body custom apiType s :
  requestWithHeaders method url body custom apiType s =
    match wait_for_token apiType
            (mkSession (http s) (step s) (wire s)
               (journal s ++ [mkLogLine Debug "Sending HTTP request with custom headers"
                                [("method", method); ("url", url); ("apiType", apiType)]]))
    with
    | Crashes c => Crashes c
    | Returns (Some err) s1 =>
        Returns (Err (Wrap ErrRateLimit "rate limit error" err))
          (mkSession (http s1) (step s1) (wire s1)
             (journal s1 ++ [mkLogLine Error "Rate limit error" []]))
    | Returns None s1 =>
        send method url body (custom ∪ headers (http s1)) (proxies (http s1)) s1
    end.
Proof.
  unfold requestWithHeaders. unfold bind at 1. unfold logf at 1. unfold modify.
  unfold bind at 1. destruct (wait_for_token _ _) as [[err|] s1|]; [| |reflexivity].
  - reflexivity.
  - unfold bind at 1, get. rewrite !assign_all_union, copy_of_id.
    rewrite (right_id_L ∅ (∪)). reflexivity.
Qed.

(** The same for the request of a private operation. *)
Lemma requestWithHeaders_delivered method url body custom apiType s :
  usable apiType (http s) -> calm ->
  exists via k s',
    let req := mkRequest method url body (custom ∪ headers (http s)) via in
    requestWithHeaders method url body custom apiType s =
      Returns (delivered (DoTimeout k req)) s' /\
    wire s' = (wire s ++ [req])%list /\
    headers (http s') = headers (http s) /\ proxies (http s') = proxies (http s) /\
    (apiType <> APITypePublic -> publicLimiter (http s') = publicLimiter (http s)) /\
    usable apiType (http s').
Proof.
  intros Hus Hcalm. rewrite requestWithHeaders_unfold.
  set (s0 := mkSession (http s) (step s) (wire s) _).
  destruct (wait_for_token_total apiType s0 Hus Hcalm) as (s1 & Hw & _).
  rewrite Hw.
  pose proof (wait_for_token_usable apiType s0 s1 Hus Hw) as Hus1.
  destruct (wait_for_token_others apiType s0 None s1 Hw)
    as (Ht & Hh & Hp & Hpub & Hpriv & Hwire & Hj).
  destruct (send_delivered method url body (custom ∪ headers (http s1))
              (proxies (http s1)) s1) as (via & k & lines & -> & _ & Hvia).
  subst s0. simpl in Ht, Hh, Hp, Hpub, Hpriv, Hwire, Hj.
  exists via, (step s1 + k)%nat. eexists. cbv zeta.
  rewrite Hh. split; [reflexivity|]. simpl. rewrite Hwire.
  split; [reflexivity|]. repeat (split; [assumption|]). exact Hus1.
Qed.

(** X8: an API type that is neither "public" nor "private" selects no
    limiter. Such a request is sent without waiting, whatever the state of
    the limiters and of the context: it always returns, the client is
    unchanged, one request is on the wire and at most two interactions (the
    proxy choice and the round trip) took place. *)
Theorem unknown_api_type_is_not_rate_limited m url b custom apiType s :
  apiType <> APITypePublic -> apiType <> APITypePrivate ->
  (exists res s' req,
     request m url b apiType s = Returns res s' /\
     http s' = http s /\ wire s' = (wire s ++ [req])%list /\ (step s' <= step s + 2)%nat) /\
  (exists res s' req,
     requestWithHeaders m url b custom apiType s = Returns res s' /\
     http s' = http s /\ wire s' = (wire s ++ [req])%list /\ (step s' <= step s + 2)%nat).
Proof.
  intros H1 H2. split.
  - rewrite request_unfold, wait_for_token_unfold.
    rewrite limiter_for_unknown by assumption.
    match goal with |- context [send ?a ?b ?c ?d ?e ?f] =>
      destruct (send_delivered a b c d e f) as (via & k & lines & -> & Hk & Hvia) end.
    eexists _, _, _. split; [reflexivity|]. simpl. repeat split. lia.
  - rewrite requestWithHeaders_unfold, wait_for_token_unfold.
    rewrite limiter_for_unknown by assumption.
    match goal with |- context [send ?a ?b ?c ?d ?e ?f] =>
      destruct (send_delivered a b c d e f) as (via & k & lines & -> & Hk & Hvia) end.
    eexists _, _, _. split; [reflexivity|]. simpl. repeat split. lia.
Qed.


Lemma fresh_refilled n iv t0 now :
  (0 < n)%Z -> (0 < iv)%Z -> (n + max_int64 / iv <= max_int64)%Z ->
  refilled now (NewRateLimiter n iv t0) =
    mkRateLimiter n n iv (if (iv <=? Sub now t0)%Z then now else t0) false.
Proof.
  intros Hn Hiv Hcap. unfold refilled, NewRateLimiter. simpl.
  destruct (Z.leb_spec iv (Sub now t0)) as [Hel|_]; [|reflexivity].
  pose proof (Sub_range now t0) as Hr.
  destruct (periods_bound iv (Sub now t0) Hiv) as (Hq & Hb & _); [lia|].
  unfold set_lastRefill, set_tokens. simpl. rewrite Hq, min_spec.
  unfold add64. rewrite wrap64_id by (unfold min_int64, max_int64 in *; lia).
  f_equal. lia.
Qed.

(** X9: [SetRateLimit] replaces the limiter of its class by a full one.
    With a positive capacity [n] and a positive interval (and no overflow of
    the token count), the next request of that class returns without
    consulting the context, whatever state the former limiter was in, puts
    one request on the wire and leaves [n - 1] tokens. *)
Theorem SetRateLimit_lets_next_request_pass apiType n iv m url b s :
  apiType = APITypePublic \/ apiType = APITypePrivate ->
  (0 < n)%Z -> (0 < iv)%Z -> (n + max_int64 / iv <= max_int64)%Z ->
  exists res s' t,
    request m url b apiType (client_SetRateLimit apiType n iv s) = Returns res s' /\
    limiter_for apiType (http s') = Some (mkRateLimiter (n - 1) n iv t false) /\
    length (wire s') = S (length (wire s)).
Proof.
  intros Hty Hn Hiv Hcap.
  rewrite request_unfold, wait_for_token_unfold.
  assert (Hl : forall c now, limiter_for apiType (SetRateLimit apiType n iv now c) =
                        Some (NewRateLimiter n iv now)).
  { intros c now. destruct Hty as [-> | ->]; reflexivity. }
  unfold client_SetRateLimit. simpl. rewrite Hl.
  rewrite Wait_unfold by (simpl; lia). cbv zeta.
  rewrite fresh_refilled by assumption. simpl.
  destruct (Z.leb_spec n 0); [lia|].
  match goal with |- context [send ?a ?b ?c ?d ?e ?f] =>
    destruct (send_delivered a b c d e f) as (via & k & lines & -> & Hk & Hvia) end.
  eexists _, _, _. split; [reflexivity|]. simpl.
  rewrite limiter_for_with_limiter by assumption.
  split.
  - unfold set_tokens. simpl. unfold sub64.
    assert (0 <= max_int64 / iv)%Z by (apply Z.div_pos; unfold max_int64; lia).
    rewrite wrap64_id by (unfold min_int64, max_int64 in *; lia). reflexivity.
  - rewrite length_app. simpl. lia.
Qed.

End TransportEdges.

Lemma throttled_usable_public : usable APITypePublic (http Scenario.throttled).
Proof. intros rl. vm_compute. discriminate. Qed.

(** X5 on a GET of the symbol list by a client without proxies. *)
Lemma request_wire_format_witness :
  exists res s' req,
    @request (Scenario.quiet Scenario.envelope) "GET" "https://api.gemini.com/v1/symbols"
      None APITypePublic Scenario.throttled = Returns res s' /\
    wire s' = [req] /\ method req = "GET" /\ body req = None /\ dial req = None.
Proof.
  destruct (@request_wire_format (Scenario.quiet Scenario.envelope) "GET"
              "https://api.gemini.com/v1/symbols" None APITypePublic Scenario.throttled
              throttled_usable_public (quiet_calm _))
    as (res & s' & req & E & Hw & Hm & _ & Hb & _ & _ & Hd).
  exists res, s', req. repeat split; try assumption.
  destruct (dial req) as [p|]; [destruct Hd | reflexivity].
Defined.

(** X8 on the client whose private limiter is exhausted, in a process whose
    context is cancelled. *)
Lemma unknown_api_type_is_not_rate_limited_witness :
  exists res s' req,
    @request Scenario.cancelling "GET" "https://api.gemini.com/v1/symbols" None "admin"
      Scenario.throttled = Returns res s' /\
    http s' = http Scenario.throttled /\
    wire s' = (wire Scenario.throttled ++ [req])%list /\
    (step s' <= step Scenario.throttled + 2)%nat.
Proof.
  apply (proj1 (@unknown_api_type_is_not_rate_limited Scenario.cancelling
                  "GET" "https://api.gemini.com/v1/symbols" None ∅ "admin"
                  Scenario.throttled ltac:(discriminate) ltac:(discriminate))).
Defined.


(** X6 on a peer that answers 200. *)
Lemma request_result_witness :
  exists res s' req,
    @request (Scenario.quiet Scenario.envelope) "GET" "https://api.gemini.com/v1/symbols"
      None APITypePublic Scenario.throttled = Returns res s' /\
    last (wire s') = Some req /\
    res = Ok (bytes_of "envelope").
Proof.
  destruct (@request_result (Scenario.quiet Scenario.envelope) "GET"
              "https://api.gemini.com/v1/symbols" None APITypePublic Scenario.throttled
              throttled_usable_public (quiet_calm _))
    as (res & s' & req & k & E & Hw & Hok & _).
  exists res, s', req. split; [exact E|]. split; [exact Hw|].
  apply Hok. reflexivity.
Defined.

(** X7 on a public request by a client whose private limiter is exhausted. *)
Lemma request_keeps_the_other_limiter_witness :
  exists res s',
    @request (Scenario.quiet Scenario.envelope) "GET" "https://api.gemini.com/v1/symbols"
      None APITypePublic Scenario.throttled = Returns res s' /\
    privateLimiter (http s') = Some Scenario.exhausted.
Proof.
  destruct (@request_keeps_the_other_limiter (Scenario.quiet Scenario.envelope) "GET"
              "https://api.gemini.com/v1/symbols" None APITypePublic Scenario.throttled
              throttled_usable_public (quiet_calm _))
    as (res & s' & E & _ & Hpriv & _).
  exists res, s'. split; [exact E|]. apply Hpriv. discriminate.
Defined.

(** X9 on the exhausted private limiter, replaced by five requests per
    second, in a process whose context is cancelled. *)
Lemma SetRateLimit_lets_next_request_pass_witness :
  exists res s' t,
    @request Scenario.cancelling "POST" "https://api.gemini.com/v1/balances" None
      APITypePrivate
      (@client_SetRateLimit Scenario.cancelling APITypePrivate 5 Second Scenario.throttled) =
      Returns res s' /\
    limiter_for APITypePrivate (http s') = Some (mkRateLimiter (5 - 1) 5 Second t false) /\
    length (wire s') = S (length (wire Scenario.throttled)).
Proof.
  apply (@SetRateLimit_lets_next_request_pass Scenario.cancelling APITypePrivate 5 Second);
    [right; reflexivity | reflexivity | reflexivity | vm_compute; discriminate].
Defined.

(** ** Private and public operations *)

Section ExchangeEdges.
Context {N : Network} {C : Codec} {M : MarketCodec}.

Lemma settle_result {A} pf (decode : list byte -> result A) qf after posted g :
  exists g',
    settle pf decode qf after posted g =
      Returns
        (match posted with
         | Err err => Err (Wrap ErrNetworkError pf err)
         | Ok response =>
             match api_error response with
             | Some e => Err e
             | None =>
                 match decode response with
                 | Err err => Err (Wrap ErrDataParsingError qf err)
                 | Ok a => Ok a
                 end
             end
         end) g' /\
    wire (client g') = wire (client g) /\ http (client g') = http (client g).
Proof.
  destruct posted as [response|err]; simpl.
  - destruct (api_error response) as [e|].
    + eexists. split; [reflexivity|]. split; reflexivity.
    + destruct (decode response) as [a|e]; simpl.
      * eexists. split; [reflexivity|]. split; reflexivity.
      * eexists. split; [reflexivity|]. split; reflexivity.
  - eexists. split; [reflexivity|]. split; reflexivity.
Qed.

Lemma private_call_result {A} endpoint fill mf before pf (decode : list byte -> result A)
    qf after g payloadBytes :
  credentials_missing g = false ->
  usable APITypePrivate (http (client g)) -> calm ->
  json_Marshal (fill (FormatInt (time_Now (step (client g))))) = Ok payloadBytes ->
  exists g' via k,
    private_call endpoint fill mf before pf decode qf after g =
      Returns
        (match delivered (DoTimeout k (private_request g endpoint payloadBytes via)) with
         | Err err => Err (Wrap ErrNetworkError pf err)
         | Ok response =>
             match api_error response with
             | Some e => Err e
             | None =>
                 match decode response with
                 | Err err => Err (Wrap ErrDataParsingError qf err)
                 | Ok a => Ok a
                 end
             end
         end) g' /\
    wire (client g') =
      (wire (client g) ++ [private_request g endpoint payloadBytes via])%list /\
    publicLimiter (http (client g')) = publicLimiter (http (client g)) /\
    headers (http (client g')) = headers (http (client g)).
Proof.
  intros Hcred Hus Hcalm Hm.
  unfold private_call. unfold bind at 1, get. rewrite Hcred.
  unfold bind at 1. unfold UnixNano_now, on_client, zoom.
  unfold bind at 1, get. unfold bind at 1, modify. unfold ret at 1.
  rewrite Hm. unfold bind at 1. unfold gemit, glog, on_client, zoom, logf, modify.
  unfold bind at 1. unfold PostWithHeaders.
  match goal with |- context [requestWithHeaders ?m ?u ?b ?c ?t ?s] =>
    destruct (requestWithHeaders_delivered m u b c t s)
      as (via & k & s1 & E & Hw & Hh & _ & Hpub & _);
      [exact Hus | exact Hcalm |] end.
  cbv zeta in E. rewrite E. simpl in Hw, Hh, Hpub.
  match goal with |- context [settle ?a ?b ?c ?d ?p ?gg] =>
    destruct (settle_result a b c d p gg) as (g' & -> & Hw' & Hh') end.
  exists g', via, k. split; [reflexivity|]. simpl in Hw', Hh'.
  rewrite Hw', Hh', Hw, Hh. repeat split. apply Hpub. discriminate.
Qed.


Lemma call_private_result op g payloadBytes :
  credentials_missing g = false ->
  usable APITypePrivate (http (client g)) -> calm ->
  json_Marshal (payload_of op (FormatInt (time_Now (step (client g))))) = Ok payloadBytes ->
  exists res g' via k,
    call_private op g = Returns res g' /\
    wire (client g') =
      (wire (client g) ++ [private_request g (endpoint_of op) payloadBytes via])%list /\
    publicLimiter (http (client g')) = publicLimiter (http (client g)) /\
    headers (http (client g')) = headers (http (client g)) /\
    match delivered (DoTimeout k (private_request g (endpoint_of op) payloadBytes via)) with
    | Err err => res = Err (Wrap ErrNetworkError (post_failed_of op) err)
    | Ok response =>
        match api_error response with
        | Some e => res = Err e
        | None =>
            (exists a, res = Ok a) \/
            (exists err m, res = Err (Wrap ErrDataParsingError m err))
        end
    end.
Proof.
  intros Hcred Hus Hcalm Hm.
  destruct op; unfold call_private, answered, PlaceOrder, CancelOrder, GetActiveOrders,
    GetOrderStatus, GetAvailableBalances, GetNotionalBalances, ListDepositAddresses;
    cbv zeta; unfold bind at 1;
    match goal with |- context [private_call ?e ?f ?mf ?b ?pf ?d ?qf ?a g] =>
      destruct (private_call_result e f mf b pf d qf a g payloadBytes Hcred Hus Hcalm Hm)
        as (g' & via & k & -> & Hw & Hpub & Hh) end;
    eexists _, g', via, k; (split; [reflexivity|]); (split; [exact Hw|]);
    (split; [exact Hpub|]); (split; [exact Hh|]);
    simpl endpoint_of; simpl post_failed_of;
    (match goal with |- context [delivered ?r] => destruct (delivered r) as [response|err] end;
    [ destruct (api_error response) as [e|]; [reflexivity|];
      match goal with |- context [json_Unmarshal_Order ?b] => destruct (json_Unmarshal_Order b)
                    | |- context [json_Unmarshal_Orders ?b] => destruct (json_Unmarshal_Orders b)
                    | |- context [json_Unmarshal_Balances ?b] =>
                        destruct (json_Unmarshal_Balances b)
                    | |- context [json_Unmarshal_NotionalBalances ?b] =>
                        destruct (json_Unmarshal_NotionalBalances b)
                    | |- context [json_Unmarshal_DepositAddresses ?b] =>
                        destruct (json_Unmarshal_DepositAddresses b)
      end; [left|right]; eauto
    | reflexivity ]).
Qed.

(** X10: a private operation whose reply is not a 200 returns an error of
    kind NetworkError that wraps the error of the transport, whatever the
    body holds: an error envelope sent with another status is not reported
    as an APIError. When the round trip itself failed, the cause is two
    [Unwrap]s below the error returned. *)
Theorem private_op_reports_http_errors_as_network_errors op g payloadBytes :
  apiKey g <> "" -> apiSecret g <> "" ->
  usable APITypePrivate (http (client g)) -> calm ->
  json_Marshal (payload_of op (FormatInt (time_Now (step (client g))))) = Ok payloadBytes ->
  exists res g' req k,
    call_private op g = Returns res g' /\
    last (wire (client g')) = Some req /\
    (accepted (DoTimeout k req) = false ->
       res = Err (Wrap ErrNetworkError (post_failed_of op)
                    (transport_error (DoTimeout k req)))) /\
    (forall cause, DoTimeout k req = NetFail cause ->
       exists e inner,
         res = Err e /\ Unwrap e = Some inner /\ Unwrap inner = Some cause).
Proof.
  intros Hk Hs Hus Hcalm Hm.
  destruct (call_private_result op g payloadBytes (credentials_present g Hk Hs) Hus Hcalm Hm)
    as (res & g' & via & k & E & Hw & _ & _ & Hres).
  exists res, g', (private_request g (endpoint_of op) payloadBytes via), k.
  split; [exact E|]. split; [rewrite Hw; apply last_snoc|].
  destruct (DoTimeout k _) as [cause|status payload]; simpl in *.
  - split; [intros _; exact Hres|]. intros cause' [= <-].
    eexists _, _. split; [exact Hres|]. split; reflexivity.
  - split; [|discriminate]. intros Hacc. rewrite Hacc in Hres. exact Hres.
Qed.

(** X11: the error of a private operation has one of four codes:
    InvalidInput (the guard on the credentials), DataParsingError (the
    payload did not marshal or the body did not decode), NetworkError (any
    error of the transport, wrapped) or APIError (the error envelope). In
    particular no private operation returns an error of kind RateLimit. *)
Theorem private_op_error_kinds op g e g' :
  call_private op g = Returns (Err e) g' ->
  GetCode e = ErrInvalidInput \/ GetCode e = ErrDataParsingError \/
  GetCode e = ErrNetworkError \/ GetCode e = ErrAPIError.
Proof.
  assert (H : forall A endpoint fill mf before pf (decode : list byte -> result A) qf after
                r g1,
    private_call endpoint fill mf before pf decode qf after g = Returns r g1 ->
    forall e, r = Err e ->
      GetCode e = ErrInvalidInput \/ GetCode e = ErrDataParsingError \/
      GetCode e = ErrNetworkError \/ GetCode e = ErrAPIError).
  { intros A endpoint fill mf before pf decode qf after r g1.
    unfold private_call. unfold bind at 1, get.
    destruct (credentials_missing g).
    { unfold ret. intros [= <- _] e0 [= <-]. auto. }
    unfold bind at 1.
    destruct (UnixNano_now g) as [t g2|]; [|discriminate].
    destruct (json_Marshal _) as [payloadBytes|err].
    2:{ unfold ret. intros [= <- _] e0 [= <-]. auto. }
    unfold bind at 1. destruct (gemit _ g2) as [[] g3|]; [|discriminate].
    unfold bind at 1. destruct (on_client _ g3) as [posted g4|]; [|discriminate].
    unfold settle. destruct posted as [response|err].
    2:{ unfold ret. intros [= <- _] e0 [= <-]. auto. }
    unfold api_error.
    destruct (json_Unmarshal_ErrorResponse response) as [errorResp|_].
    - destruct (String.eqb _ _).
      + unfold ret. intros [= <- _] e0 [= <-]. auto.
      + destruct (decode response) as [a|err].
        * unfold bind. destruct (gemit _ g4); [|discriminate].
          unfold ret. intros [= <- _] e0; discriminate.
        * unfold ret. intros [= <- _] e0 [= <-]. auto.
    - destruct (decode response) as [a|err].
      * unfold bind. destruct (gemit _ g4); [|discriminate].
        unfold ret. intros [= <- _] e0; discriminate.
      * unfold ret. intros [= <- _] e0 [= <-]. auto. }
  destruct op; unfold call_private, answered; unfold bind at 1;
    match goal with |- context [?op_call g] =>
      destruct (op_call g) as [r g1|] eqn:E end; try discriminate;
    unfold ret; intros [= Hr _]; destruct r as [a|e0]; try discriminate;
    injection Hr as <-; (eapply H; [exact E | reflexivity]).
Qed.


Lemma call_public_runs op g :
  usable APITypePublic (http (client g)) -> calm ->
  exists via k g',
    let req := mkRequest "GET" (url_of g op) None (headers (http (client g))) via in
    call_public op g =
      Returns (match delivered (DoTimeout k req) with
               | Err err => Err (Wrap ErrNetworkError (fetch_failed_of op) err)
               | Ok response => decoded op response
               end) g' /\
    wire (client g') = (wire (client g) ++ [req])%list /\
    match via with
    | None => proxies (http (client g)) = []
    | Some p => In p (proxies (http (client g)))
    end /\
    privateLimiter (http (client g')) = privateLimiter (http (client g)) /\
    headers (http (client g')) = headers (http (client g)) /\
    proxies (http (client g')) = proxies (http (client g)) /\
    usable APITypePublic (http (client g')) /\
    baseURL g' = baseURL g /\ apiKey g' = apiKey g /\ apiSecret g' = apiSecret g.
Proof.
  intros Hus Hcalm.
  destruct op as [|symbol|symbol];
    unfold call_public, answered, ListSymbols, GetSymbolDetails, GetTickerV2;
    unfold bind at 1; unfold bind at 1, get; unfold bind at 1;
    unfold glog, on_client, zoom, logf, modify; unfold bind at 1;
    unfold GetWithType, RequestWithType;
    (match goal with |- context [request ?m ?u ?b ?t ?s] =>
       destruct (request_delivers m u b t s)
         as (via & k & s' & E & Hw & Hvia & _ & Hh & Hp & _ & Hpriv & _ & Hus');
         [exact Hus | exact Hcalm |] end);
    cbv zeta in E; rewrite E; clear E; simpl in Hw, Hvia, Hh, Hp, Hpriv;
    cbn [client set_client http];
    unfold content_type_of in *; rewrite (right_id_L ∅ (∪)) in *;
    exists via, k; cbv zeta; simpl url_of; simpl fetch_failed_of;
    (match goal with |- context [delivered ?r] => destruct (delivered r) as [response|err] end;
     [ simpl decoded;
       match goal with
       | |- context [json_Unmarshal_Symbols ?b] => destruct (json_Unmarshal_Symbols b)
       | |- context [json_Unmarshal_SymbolDetails ?b] => destruct (json_Unmarshal_SymbolDetails b)
       | |- context [json_Unmarshal_TickerV2 ?b] => destruct (json_Unmarshal_TickerV2 b)
       end
     | ]);
    (eexists; split; [reflexivity|]; simpl; rewrite ?Hw;
     repeat (split; [first [assumption | reflexivity | apply Hpriv; discriminate]|]);
     reflexivity).
Qed.


(** X12: a public operation (ListSymbols, GetSymbolDetails, GetTickerV2)
    needs no credentials and sends none: with a usable public limiter and a
    context that is not done it puts exactly one GET without a body on the
    wire, to its URL under the base URL, with the default headers of the
    client and nothing else, and leaves the private limiter alone. *)
Theorem public_call_wire_format op g :
  usable APITypePublic (http (client g)) -> calm ->
  exists res g' req,
    call_public op g = Returns res g' /\
    wire (client g') = (wire (client g) ++ [req])%list /\
    method req = "GET" /\ uri req = url_of g op /\ body req = None /\
    header req = headers (http (client g)) /\
    match dial req with
    | None => proxies (http (client g)) = []
    | Some p => In p (proxies (http (client g)))
    end /\
    privateLimiter (http (client g')) = privateLimiter (http (client g)).
Proof.
  intros Hus Hcalm.
  destruct (call_public_runs op g Hus Hcalm)
    as (via & k & g' & E & Hw & Hvia & Hpriv & _).
  eexists _, g', _. split; [exact E|]. split; [exact Hw|]. simpl. auto 10.
Qed.

(** X13: what a public operation returns: a reply that is not a 200, or a
    failed round trip, is a NetworkError that wraps the error of the
    transport; the body of a 200 is decoded as the answer type, without a
    look at the error envelope, and a body that does not decode is a
    DataParsingError. No public operation returns an APIError. *)
Theorem public_call_result op g :
  usable APITypePublic (http (client g)) -> calm ->
  exists res g' req k,
    call_public op g = Returns res g' /\
    last (wire (client g')) = Some req /\
    res = match delivered (DoTimeout k req) with
          | Err err => Err (Wrap ErrNetworkError (fetch_failed_of op) err)
          | Ok response => decoded op response
          end /\
    (forall e, res = Err e ->
       GetCode e = ErrNetworkError \/ GetCode e = ErrDataParsingError).
Proof.
  intros Hus Hcalm.
  destruct (call_public_runs op g Hus Hcalm) as (via & k & g' & E & Hw & _).
  eexists _, g', _, k. split; [exact E|]. split; [rewrite Hw; apply last_snoc|].
  split; [reflexivity|].
  destruct (delivered _) as [response|err].
  - destruct op; simpl;
      match goal with |- context [match ?d with Ok _ => _ | Err _ => _ end] =>
        destruct d end; intros e0 [= <-]; auto.
  - intros e0 [= <-]. auto.
Qed.

Lemma answered_inv {S A B} (f : A -> B) (m : prog S (result A)) s x s' :
  answered f m s = Returns x s' ->
  exists r, m s = Returns r s' /\
            x = match r with Ok a => Ok (f a) | Err e => Err e end.
Proof.
  unfold answered, bind, ret. destruct (m s) as [r s1|]; [|discriminate].
  intros [= <- <-]. eauto.
Qed.

Lemma GetSymbolDetails_runs symbol g :
  usable APITypePublic (http (client g)) -> calm ->
  exists r g' req,
    GetSymbolDetails symbol g = Returns r g' /\
    wire (client g') = (wire (client g) ++ [req])%list /\
    uri req = url_of g (OpGetSymbolDetails symbol) /\
    usable APITypePublic (http (client g')) /\ baseURL g' = baseURL g.
Proof.
  intros Hus Hcalm.
  destruct (call_public_runs (OpGetSymbolDetails symbol) g Hus Hcalm)
    as (via & k & g' & E & Hw & _ & _ & _ & _ & Hus' & Hb & _).
  cbv zeta in E. apply answered_inv in E. destruct E as (r & E & _).
  eexists r, g', _. split; [exact E|]. split; [exact Hw|]. auto.
Qed.

Lemma fetch_each_runs symbols : forall g,
  usable APITypePublic (http (client g)) -> calm ->
  exists outcomes g',
    fetch_each symbols g = Returns outcomes g' /\
    map uri (wire (client g')) =
      (map uri (wire (client g)) ++
       map (fun symbol => url_of g (OpGetSymbolDetails symbol)) symbols)%list.
Proof.
  induction symbols as [|symbol rest IH]; intros g Hus Hcalm.
  - eexists _, _. split; [reflexivity|]. simpl. now rewrite app_nil_r.
  - cbn [fetch_each]. unfold bind at 1.
    destruct (GetSymbolDetails_runs symbol g Hus Hcalm)
      as (r & g1 & req & -> & Hw & Hu & Hus1 & Hb).
    unfold bind at 1.
    assert (exists g2,
      (match r with
       | Ok _ => ret ()
       | Err _ => glog Warn "Failed to fetch details for symbol" [("symbol", symbol)]
       end) g1 = Returns tt g2 /\
      wire (client g2) = wire (client g1) /\ http (client g2) = http (client g1) /\
      baseURL g2 = baseURL g1) as (g2 & -> & Hw2 & Hh2 & Hb2).
    { destruct r; eexists; (split; [reflexivity|]); auto. }
    unfold bind at 1.
    destruct (IH g2) as (others & g' & -> & Hw'); [rewrite Hh2; exact Hus1 | exact Hcalm |].
    eexists _, _. split; [reflexivity|].
    rewrite Hw', Hw2, Hw, map_app. simpl. rewrite Hu, <- app_assoc. simpl.
    do 2 f_equal. apply map_ext. intros a. simpl. now rewrite Hb2, Hb.
Qed.

(** X14: with a usable public limiter and a context that is not done,
    [GetAllSymbolDetails] always returns. When [ListSymbols] returns a list,
    it has sent the request for the list and then one detail request for
    each symbol of that list, in the order of the list, and it returns the
    details of exactly those symbols whose fetch succeeded, in that order;
    when [ListSymbols] fails it has sent that one request and returns the
    error, wrapped as a NetworkError. *)
Theorem GetAllSymbolDetails_requests g :
  usable APITypePublic (http (client g)) -> calm ->
  exists res g',
    GetAllSymbolDetails g = Returns res g' /\
    match ListSymbols g with
    | Crashes _ => False
    | Returns (Err err) g1 =>
        res = Err (Wrap ErrNetworkError "failed to fetch symbols list" err) /\
        map uri (wire (client g')) =
          (map uri (wire (client g)) ++ [url_of g OpListSymbols])%list
    | Returns (Ok symbols) g1 =>
        exists outcomes g2,
          fetch_each symbols g1 = Returns outcomes g2 /\
          length outcomes = length symbols /\
          res = Ok (succeeded outcomes) /\
          map uri (wire (client g')) =
            (map uri (wire (client g)) ++
             url_of g OpListSymbols ::
             map (fun symbol => url_of g (OpGetSymbolDetails symbol)) symbols)%list
    end.
Proof.
  intros Hus Hcalm. unfold GetAllSymbolDetails. unfold bind at 1.
  destruct (call_public_runs OpListSymbols g Hus Hcalm)
    as (via & k & g1 & E & Hw & _ & _ & _ & _ & Hus1 & Hb & _).
  cbv zeta in E. apply answered_inv in E. destruct E as (r & -> & _).
  destruct r as [symbols|err].
  - unfold bind at 1. rewrite details_loop_fetch_each.
    destruct (fetch_each_runs symbols g1 Hus1 Hcalm) as (outcomes & g2 & E & Hw').
    rewrite E. unfold bind at 1. unfold glog, on_client, zoom, logf, modify. unfold ret.
    eexists _, _. split; [reflexivity|]. exists outcomes, g2.
    split; [reflexivity|]. split; [eapply fetch_each_length, E|]. split; [reflexivity|].
    simpl. rewrite Hw', Hw, map_app, <- app_assoc. simpl.
    do 2 f_equal. apply map_ext. intros a. simpl. rewrite Hb. reflexivity.
  - unfold ret. eexists _, _. split; [reflexivity|]. split; [reflexivity|].
    rewrite Hw, map_app. reflexivity.
Qed.

End ExchangeEdges.

(** ** Symbols and their currencies *)

Section CaseMapping.
Context {U : Unicode}.

Lemma char_cases c :
  lower_char (upper_char c) = lower_char c /\ upper_char (lower_char c) = upper_char c /\
  lower_char (lower_char c) = lower_char c /\ upper_char (upper_char c) = upper_char c /\
  (is_ascii_byte c = true ->
   is_ascii_byte (lower_char c) = true /\ is_ascii_byte (upper_char c) = true).
Proof.
  destruct c as [[] [] [] [] [] [] [] []];
    repeat split; try reflexivity; discriminate.
Qed.

Lemma map_chars_compose f g h s :
  (forall c, f (g c) = h c) -> map_chars f (map_chars g s) = map_chars h s.
Proof. intros H. induction s as [|c s IH]; simpl; [reflexivity|]. now rewrite H, IH. Qed.

Lemma is_ascii_map f s :
  (forall c, is_ascii_byte c = true -> is_ascii_byte (f c) = true) ->
  is_ascii s = true -> is_ascii (map_chars f s) = true.
Proof.
  intros Hf. induction s as [|c s IH]; simpl; [reflexivity|].
  intros H. apply andb_true_iff in H as [Hc Hs]. now rewrite (Hf c Hc), (IH Hs).
Qed.

Lemma is_ascii_app p q : is_ascii (p ++ q) = is_ascii p && is_ascii q.
Proof.
  induction p as [|c p IH].
  - now rewrite app_nil.
  - rewrite app_cons. simpl. rewrite IH. apply andb_assoc.
Qed.

Lemma is_ascii_substring s : forall n m,
  is_ascii s = true -> is_ascii (substring n m s) = true.
Proof.
  induction s as [|c s IH]; intros n m H.
  - destruct n, m; reflexivity.
  - simpl in H. apply andb_true_iff in H as [Hc Hs].
    destruct n as [|n]; destruct m as [|m]; simpl; try reflexivity.
    + rewrite Hc. apply IH, Hs.
    + apply IH, Hs.
    + apply IH, Hs.
Qed.

Lemma ToLower_ascii s :
  is_ascii s = true -> ToLower s = map_chars lower_char s /\ is_ascii (ToLower s) = true.
Proof.
  intros H. unfold ToLower. rewrite H. split; [reflexivity|].
  apply is_ascii_map; [|exact H]. intros c. apply char_cases.
Qed.

Lemma ToUpper_ascii s :
  is_ascii s = true -> ToUpper s = map_chars upper_char s /\ is_ascii (ToUpper s) = true.
Proof.
  intros H. unfold ToUpper. rewrite H. split; [reflexivity|].
  apply is_ascii_map; [|exact H]. intros c. apply char_cases.
Qed.

Lemma ToLower_ToUpper s : is_ascii s = true -> ToLower (ToUpper s) = ToLower s.
Proof.
  intros H. destruct (ToUpper_ascii s H) as [E Ha].
  rewrite (proj1 (ToLower_ascii _ Ha)), (proj1 (ToLower_ascii s H)), E.
  apply map_chars_compose. intros c. apply char_cases.
Qed.

Lemma ToUpper_ToLower s : is_ascii s = true -> ToUpper (ToLower s) = ToUpper s.
Proof.
  intros H. destruct (ToLower_ascii s H) as [E Ha].
  rewrite (proj1 (ToUpper_ascii _ Ha)), (proj1 (ToUpper_ascii s H)), E.
  apply map_chars_compose. intros c. apply char_cases.
Qed.

Lemma ToLower_idem s : is_ascii s = true -> ToLower (ToLower s) = ToLower s.
Proof.
  intros H. destruct (ToLower_ascii s H) as [E Ha].
  rewrite (proj1 (ToLower_ascii _ Ha)), E.
  apply map_chars_compose. intros c. apply char_cases.
Qed.

Lemma ToUpper_idem s : is_ascii s = true -> ToUpper (ToUpper s) = ToUpper s.
Proof.
  intros H. destruct (ToUpper_ascii s H) as [E Ha].
  rewrite (proj1 (ToUpper_ascii _ Ha)), E.
  apply map_chars_compose. intros c. apply char_cases.
Qed.

Lemma map_chars_app f p q : map_chars f (p ++ q) = map_chars f p ++ map_chars f q.
Proof.
  induction p as [|c p IH].
  - now rewrite !app_nil.
  - rewrite app_cons. simpl. rewrite app_cons. now rewrite IH.
Qed.

Lemma ToUpper_app p q :
  is_ascii p = true -> is_ascii q = true -> ToUpper (p ++ q) = ToUpper p ++ ToUpper q.
Proof.
  intros Hp Hq.
  assert (Hpq : is_ascii (p ++ q) = true) by (rewrite is_ascii_app, Hp, Hq; reflexivity).
  rewrite (proj1 (ToUpper_ascii _ Hpq)), (proj1 (ToUpper_ascii _ Hp)),
    (proj1 (ToUpper_ascii _ Hq)).
  apply map_chars_app.
Qed.

Lemma take_app p q : take (len p) (p ++ q) = p.
Proof.
  unfold take, len. induction p as [|c p IH].
  - rewrite app_nil. destruct q; reflexivity.
  - rewrite app_cons. simpl. now rewrite IH.
Qed.

(** The two loops stop at the same quote currency. *)
Lemma loops_agree s quotes :
  match quote_by_suffix s quotes with
  | None => base_by_quote s quotes = None
  | Some q =>
      exists quote p, In quote quotes /\ s = p ++ quote /\ q = ToUpper quote /\
                      base_by_quote s quotes = Some (ToUpper p)
  end.
Proof.
  induction quotes as [|quote rest IH]; simpl; [reflexivity|].
  destruct (HasSuffix s quote) eqn:E.
  - destruct (HasSuffix_split s quote E) as [p ->].
    exists quote, p. rewrite len_app, Nat.add_sub, take_app. auto.
  - destruct (quote_by_suffix s rest); [|exact IH].
    destruct IH as (q' & p & Hin & -> & -> & Hb). exists q', p. auto.
Qed.

(** X20: for a symbol of ASCII characters whose lower-cased form ends in a
    known quote currency, the base and the quote that the helpers extract are
    the two parts of one split: together they spell the upper-cased symbol. *)
Theorem extract_currencies_recompose symbol :
  is_ascii symbol = true ->
  (exists quote, In quote quoteCurrencies /\ HasSuffix (ToLower symbol) quote = true) ->
  extractBaseCurrency symbol ++ extractQuoteCurrency symbol = ToUpper symbol.
Proof.
  intros Ha (quote & Hin & Hs). unfold extractBaseCurrency, extractQuoteCurrency. cbv zeta.
  pose proof (loops_agree (ToLower symbol) quoteCurrencies) as H.
  destruct (ToLower_ascii symbol Ha) as [_ Hal].
  destruct (quote_by_suffix (ToLower symbol) quoteCurrencies) as [q|] eqn:Eq.
  - destruct H as (quote' & p & _ & Hp & -> & ->).
    rewrite Hp, is_ascii_app in Hal. apply andb_true_iff in Hal as [Hap Haq].
    rewrite <- ToUpper_app, <- Hp by assumption. apply ToUpper_ToLower, Ha.
  - exfalso. clear H. revert Eq. generalize quoteCurrencies Hin.
    intros quotes. induction quotes as [|a rest IH]; simpl; [tauto|].
    intros [->|Hin']; [rewrite Hs; discriminate|].
    destruct (HasSuffix _ a); [discriminate|]. apply IH, Hin'.
Qed.

(** X21: on a symbol of ASCII characters the currency helpers ignore the
    case of the symbol and answer in upper case. *)
Theorem extract_currencies_ignore_case symbol :
  is_ascii symbol = true ->
  extractBaseCurrency (ToUpper symbol) = extractBaseCurrency symbol /\
  extractBaseCurrency (ToLower symbol) = extractBaseCurrency symbol /\
  extractQuoteCurrency (ToUpper symbol) = extractQuoteCurrency symbol /\
  extractQuoteCurrency (ToLower symbol) = extractQuoteCurrency symbol /\
  ToUpper (extractBaseCurrency symbol) = extractBaseCurrency symbol /\
  ToUpper (extractQuoteCurrency symbol) = extractQuoteCurrency symbol.
Proof.
  intros Ha. unfold extractBaseCurrency, extractQuoteCurrency. cbv zeta.
  rewrite ToLower_ToUpper, ToLower_idem by exact Ha.
  repeat (split; [reflexivity|]).
  pose proof (loops_agree (ToLower symbol) quoteCurrencies) as H.
  destruct (ToLower_ascii symbol Ha) as [_ Hal].
  destruct (quote_by_suffix (ToLower symbol) quoteCurrencies) as [q|].
  - destruct H as (quote' & p & _ & Hp & -> & ->).
    rewrite Hp, is_ascii_app in Hal. apply andb_true_iff in Hal as [Hap Haq].
    split; apply ToUpper_idem; assumption.
  - rewrite H. destruct (6 <=? _)%nat; split; try reflexivity;
      apply ToUpper_idem; try exact Hal; apply is_ascii_substring, Hal.
Qed.

End CaseMapping.

(** X20 on "EthGusd", which is split before "usd". *)
Lemma extract_currencies_recompose_witness :
  @extractBaseCurrency Scenario.no_tables "EthGusd" ++
  @extractQuoteCurrency Scenario.no_tables "EthGusd" = "ETHGUSD".
Proof.
  apply (@extract_currencies_recompose Scenario.no_tables "EthGusd" eq_refl).
  exists "usd". split; [simpl; tauto | reflexivity].
Defined.

(** X21 on "btcusd" and its upper-cased form. *)
Lemma extract_currencies_ignore_case_witness :
  @extractBaseCurrency Scenario.no_tables "BTCUSD" = "BTC" /\
  @extractQuoteCurrency Scenario.no_tables "BTCUSD" = "USD".
Proof.
  destruct (@extract_currencies_ignore_case Scenario.no_tables "btcusd" eq_refl)
    as (Hb & _ & Hq & _).
  split; [exact Hb | exact Hq].
Defined.

(** ** Setting up an exchange *)

Section ExchangeSetup.
Context {N : Network} {C : Codec} {M : MarketCodec}.

(** X15: [SetAPICredentials] and [SetSandbox] decide the next private
    request: it goes to the endpoint under the sandbox or the production
    URL, as chosen, and is signed with the new key and the new secret. *)
Theorem setters_take_effect op g key secret on payloadBytes :
  key <> "" -> secret <> "" ->
  usable APITypePrivate (http (client g)) -> calm ->
  json_Marshal (payload_of op (FormatInt (time_Now (step (client g))))) = Ok payloadBytes ->
  exists res g' req,
    call_private op (SetSandbox on (SetAPICredentials key secret g)) = Returns res g' /\
    last (wire (client g')) = Some req /\
    uri req = (if on then baseURLSandbox else baseURLProd) ++ endpoint_of op /\
    header req !! "X-GEMINI-APIKEY" = Some key /\
    header req !! "X-GEMINI-SIGNATURE" =
      Some (hex_EncodeToString
              (hmac_sha384 (bytes_of secret)
                 (bytes_of (base64_EncodeToString payloadBytes)))).
Proof.
  intros Hk Hs Hus Hcalm Hm.
  set (g1 := SetSandbox on (SetAPICredentials key secret g)).
  destruct (call_private_result op g1 payloadBytes) as (res & g' & via & k & E & Hw & _);
    [apply credentials_present; assumption | exact Hus | exact Hcalm | exact Hm |].
  eexists res, g', _. split; [exact E|]. split; [rewrite Hw; apply last_snoc|].
  split; [reflexivity|].
  destruct (auth_headers_lookup g1 payloadBytes) as (Ha & _ & Hsig & _).
  split; apply private_request_header; assumption.
Qed.

Lemma lookup_union_match (a b : gmap string string) k :
  (a ∪ b) !! k = match a !! k with Some v => Some v | None => b !! k end.
Proof. rewrite lookup_union. destruct (a !! k), (b !! k); reflexivity. Qed.

(** The caller's map after the two assignments of [Gemini.SetHeaders]. *)
Lemma essential_entries (h : gmap string string) (ua : string) :
  let h1 := if String.eqb (index h "User-Agent") "" then <["User-Agent" := ua]> h else h in
  let h2 := if String.eqb (index h1 "Content-Type") ""
            then <["Content-Type" := "application/json"]> h1 else h1 in
  h2 !! "User-Agent" =
    Some (if String.eqb (index h "User-Agent") "" then ua else index h "User-Agent") /\
  h2 !! "Content-Type" =
    Some (if String.eqb (index h "Content-Type") "" then "application/json"
          else index h "Content-Type") /\
  (forall name, name <> "User-Agent" -> name <> "Content-Type" -> h2 !! name = h !! name).
Proof.
  cbv zeta. unfold index. split; [|split].
  - destruct (h !! "User-Agent") as [u|] eqn:Eua; simpl.
    + destruct (String.eqb_spec u "") as [->|Hne]; simpl.
      * rewrite lookup_insert_ne by discriminate.
        destruct (h !! "Content-Type") as [ct|] eqn:Ect;
          [destruct (String.eqb ct "")|]; by simplify_map_eq.
      * destruct (h !! "Content-Type") as [ct|] eqn:Ect;
          [destruct (String.eqb ct "")|]; by simplify_map_eq.
    + rewrite lookup_insert_ne by discriminate.
      destruct (h !! "Content-Type") as [ct|] eqn:Ect;
        [destruct (String.eqb ct "")|]; by simplify_map_eq.
  - destruct (h !! "User-Agent") as [u|] eqn:Eua; simpl.
    + destruct (String.eqb u ""); simpl;
        rewrite ?lookup_insert_ne by discriminate;
        (destruct (h !! "Content-Type") as [ct|] eqn:Ect; simpl;
         [destruct (String.eqb_spec ct "") as [->|Hne]|]; by simplify_map_eq).
    + rewrite ?lookup_insert_ne by discriminate.
      destruct (h !! "Content-Type") as [ct|] eqn:Ect; simpl;
        [destruct (String.eqb_spec ct "") as [->|Hne]|]; by simplify_map_eq.
  - intros name H1 H2.
    destruct (String.eqb _ ""); destruct (String.eqb _ ""); by simplify_map_eq.
Qed.

(** X16: [Gemini.SetHeaders] on a nil map panics with an assignment to an
    entry in a nil map. On any other map it returns, and the map, which is the
    caller's, then holds a User-Agent and a Content-Type: its own value where
    it had a non-empty one, else the user agent of the exchange, respectively
    "application/json"; its other entries are as before. The default headers
    of the client take every entry of that map and keep their other entries.
    A User-Agent set in this way is reset to that of the exchange by any
    later call whose map has none. *)
Theorem Gemini_SetHeaders_keeps_essential_headers h g :
  Gemini_SetHeaders None g = Crashes PanicAssignmentToNilMap /\
  exists h' g',
    Gemini_SetHeaders (Some h) g = Returns h' g' /\
    h' !! "User-Agent" =
      Some (if String.eqb (index h "User-Agent") "" then userAgent g
            else index h "User-Agent") /\
    h' !! "Content-Type" =
      Some (if String.eqb (index h "Content-Type") "" then "application/json"
            else index h "Content-Type") /\
    (forall name, name <> "User-Agent" -> name <> "Content-Type" ->
       h' !! name = h !! name) /\
    (forall name,
       headers (http (client g')) !! name =
         match h' !! name with
         | Some v => Some v
         | None => headers (http (client g)) !! name
         end) /\
    userAgent g' = userAgent g /\ wire (client g') = wire (client g) /\
    (forall later,
       index later "User-Agent" = "" ->
       exists h'' g'',
         Gemini_SetHeaders (Some later) g' = Returns h'' g'' /\
         headers (http (client g'')) !! "User-Agent" = Some (userAgent g)).
Proof.
  split; [reflexivity|].
  unfold Gemini_SetHeaders, bind, get, put, ret.
  destruct (essential_entries h (userAgent g)) as (Hua & Hct & Hrest). cbv zeta in *.
  eexists _, _. split; [reflexivity|].
  split; [exact Hua|]. split; [exact Hct|]. split; [exact Hrest|].
  split; [|split; [reflexivity|split; [reflexivity|]]].
  - intros name. simpl. rewrite assign_all_union. apply lookup_union_match.
  - intros later Hl.
    destruct (essential_entries later (userAgent g)) as (Hua' & _). cbv zeta in Hua'.
    eexists _, _. split; [reflexivity|]. simpl.
    rewrite assign_all_union, lookup_union_match, Hua', Hl. reflexivity.
Qed.

Lemma background_calm : @calm (background N).
Proof. intros k d. reflexivity. Qed.

(** X17: [ValidateConfig] rejects an empty base URL and a base URL that
    starts with neither "http://" nor "https://" with an InvalidInput error,
    and touches nothing. Otherwise it sends one GET for the symbol list under
    [context.Background()]: with a usable public limiter it returns whatever
    the caller's context does, nil exactly when the reply is a 200, and else a
    NetworkError that wraps the error of the transport. *)
Theorem ValidateConfig_checks_then_connects g :
  (baseURL g = "" ->
   ValidateConfig g = Returns (Some (New ErrInvalidInput "base URL is required")) g) /\
  (baseURL g <> "" ->
   HasPrefix (baseURL g) "http://" = false -> HasPrefix (baseURL g) "https://" = false ->
   ValidateConfig g = Returns (Some (New ErrInvalidInput "invalid base URL format")) g) /\
  (HasPrefix (baseURL g) "http://" = true \/ HasPrefix (baseURL g) "https://" = true ->
   usable APITypePublic (http (client g)) ->
   exists res g' req k,
     ValidateConfig g = Returns res g' /\
     wire (client g') = (wire (client g) ++ [req])%list /\
     method req = "GET" /\ uri req = baseURL g ++ "/v1/symbols" /\ body req = None /\
     (res = None <-> exists payload, DoTimeout k req = NetResponse 200 payload) /\
     (forall e, res = Some e ->
        e = Wrap ErrNetworkError "failed to connect to Gemini API"
              (transport_error (DoTimeout k req)))).
Proof.
  split; [|split].
  - intros H. unfold ValidateConfig, bind, get. rewrite H. reflexivity.
  - intros H H1 H2. unfold ValidateConfig, bind, get.
    destruct (String.eqb_spec (baseURL g) ""); [contradiction|].
    rewrite H1, H2. reflexivity.
  - intros H Hus. unfold ValidateConfig. unfold bind at 1, get.
    assert (Hne : baseURL g <> "").
    { intros E. rewrite E in H. destruct H; discriminate. }
    destruct (String.eqb_spec (baseURL g) ""); [contradiction|].
    assert (Hp : negb (HasPrefix (baseURL g) "http://") &&
                 negb (HasPrefix (baseURL g) "https://") = false).
    { destruct H as [-> | ->]; [reflexivity|]. apply andb_false_r. }
    rewrite Hp. unfold bind at 1. unfold on_client, zoom, Get, RequestWithType.
    destruct (@request_delivers (background N) "GET" (baseURL g ++ "/v1/symbols") None
                APITypePublic (client g) Hus background_calm)
      as (via & k & s' & E & Hw & _).
    cbv zeta in E. rewrite E. clear E.
    change (@DoTimeout (background N)) with (@DoTimeout N).
    match goal with |- context [delivered (DoTimeout k ?r)] => set (req := r) in * end.
    assert (Hreq : method req = "GET" /\ uri req = baseURL g ++ "/v1/symbols" /\
                   body req = None) by (repeat split).
    clearbody req.
    destruct (DoTimeout k req) as [cause|status payload] eqn:ED; simpl.
    + exists (Some (Wrap ErrNetworkError "failed to connect to Gemini API"
                      (transport_error (NetFail cause)))).
      eexists _, req, k. split; [reflexivity|]. simpl. split; [exact Hw|].
      rewrite ED. repeat (split; [apply Hreq|]).
      split; [split; [discriminate|intros [? ?]; discriminate]|].
      intros e [= <-]. reflexivity.
    + destruct (Z.eqb_spec status 200) as [->|Hs]; simpl.
      * exists None. eexists _, req, k. split; [reflexivity|]. simpl. split; [exact Hw|].
        rewrite ED. repeat (split; [apply Hreq|]).
        split; [split; eauto|discriminate].
      * exists (Some (Wrap ErrNetworkError "failed to connect to Gemini API"
                        (transport_error (NetResponse status payload)))).
        eexists _, req, k. split; [reflexivity|]. simpl. split; [exact Hw|].
        rewrite ED. repeat (split; [apply Hreq|]).
        split; [split; [discriminate|intros [? [= ? ?]]; contradiction]|].
        intros e [= <-]. reflexivity.
Qed.


Lemma NewGemini_limiters cfg :
  is_Some (publicLimiter (http (client (NewGemini (Some cfg))))) /\
  is_Some (privateLimiter (http (client (NewGemini (Some cfg))))) /\
  publicLimiter (http (client (NewGemini None))) = None /\
  privateLimiter (http (client (NewGemini None))) = None.
Proof.
  unfold NewGemini, client_SetRateLimit. simpl.
  destruct (0 <? Requests (Public _))%Z; destruct (0 <? Requests (Private _))%Z; simpl;
    repeat split; eauto.
Qed.

(** X18: what [NewGemini] establishes. The timeout is positive (30 s unless
    the configuration has a positive one); the default headers are the user
    agent "CEX-SDK/1.0" and the JSON content type; there are no proxies and
    nothing was sent; the base URL matches the sandbox flag. Without a
    configuration there is no rate limiter and there are no credentials.
    With one, both limiters exist, full, with a positive capacity: the
    configured requests and interval when the requests are positive, else
    120 per minute for the public class and 600 per minute for the private
    one. *)
Theorem NewGemini_invariants config :
  let g := NewGemini config in
  let c := http (client g) in
  (0 < ReadTimeout c)%Z /\
  headers c = {[ "User-Agent" := "CEX-SDK/1.0"; "Content-Type" := "application/json" ]} /\
  proxies c = [] /\ wire (client g) = [] /\
  userAgent g = "CEX-SDK/1.0" /\
  baseURL g = (if sandbox g then baseURLSandbox else baseURLProd) /\
  match config with
  | None =>
      publicLimiter c = None /\ privateLimiter c = None /\
      sandbox g = false /\ credentials_missing g = true
  | Some cfg =>
      sandbox g = Testnet cfg /\ apiKey g = APIKey cfg /\ apiSecret g = SecretKey cfg /\
      exists pub priv,
        publicLimiter c = Some pub /\ privateLimiter c = Some priv /\
        (0 < maxTokens pub)%Z /\ tokens pub = maxTokens pub /\ mu pub = false /\
        (0 < maxTokens priv)%Z /\ tokens priv = maxTokens priv /\ mu priv = false /\
        ((Requests (Public (RateLimit_ cfg)) <= 0)%Z ->
           maxTokens pub = 120%Z /\ interval pub = Minute) /\
        ((Requests (Private (RateLimit_ cfg)) <= 0)%Z ->
           maxTokens priv = 600%Z /\ interval priv = Minute) /\
        ((0 < Requests (Public (RateLimit_ cfg)))%Z ->
           maxTokens pub = Requests (Public (RateLimit_ cfg)) /\
           interval pub = Interval (Public (RateLimit_ cfg))) /\
        ((0 < Requests (Private (RateLimit_ cfg)))%Z ->
           maxTokens priv = Requests (Private (RateLimit_ cfg)) /\
           interval priv = Interval (Private (RateLimit_ cfg)))
  end.
Proof.
  cbv zeta. destruct config as [cfg|].
  - unfold NewGemini. cbn [client http set_http ReadTimeout headers proxies wire baseURL
      sandbox userAgent apiKey apiSecret SetHeaders NewSession NewHTTPClient].
    split.
    { unfold client_SetRateLimit.
      destruct (Z.ltb_spec 0 (Timeout cfg));
        destruct (0 <? Requests (Public _))%Z; destruct (0 <? Requests (Private _))%Z;
        simpl; unfold Second; lia. }
    split.
    { rewrite assign_all_union.
      unfold client_SetRateLimit.
      destruct (0 <? Requests (Public _))%Z; destruct (0 <? Requests (Private _))%Z; simpl;
        rewrite (right_id_L ∅ (∪)); reflexivity. }
    split.
    { unfold client_SetRateLimit.
      destruct (0 <? Requests (Public _))%Z; destruct (0 <? Requests (Private _))%Z;
        reflexivity. }
    split.
    { unfold client_SetRateLimit.
      destruct (0 <? Requests (Public _))%Z; destruct (0 <? Requests (Private _))%Z;
        reflexivity. }
    split; [reflexivity|]. split; [reflexivity|].
    split; [reflexivity|]. split; [reflexivity|]. split; [reflexivity|].
    unfold client_SetRateLimit.
    destruct (Z.ltb_spec 0 (Requests (Public (RateLimit_ cfg))));
      destruct (Z.ltb_spec 0 (Requests (Private (RateLimit_ cfg)))); simpl;
      eexists _, _; (split; [reflexivity|]); (split; [reflexivity|]); simpl;
      repeat split; try reflexivity; try assumption; try lia.
  - unfold NewGemini. simpl. rewrite assign_all_union, (right_id_L ∅ (∪)).
    repeat split; reflexivity.
Qed.

(** X19: [NewGemini] checks the requests of a configured rate limit, not its
    interval. A configuration with positive public requests and a zero
    interval gives an exchange on which every public operation panics with
    an integer division by zero, on a clock that does not run backwards. *)
Theorem zero_interval_config_panics cfg op :
  (0 < Requests (Public (RateLimit_ cfg)))%Z ->
  Interval (Public (RateLimit_ cfg)) = 0%Z ->
  monotone_clock ->
  call_public op (NewGemini (Some cfg)) = Crashes PanicDivideByZero.
Proof.
  intros Hr Hi Hmono.
  assert (Hreq : forall m url b j,
    request m url b APITypePublic
      (mkSession (http (client (NewGemini (Some cfg)))) 2
         (wire (client (NewGemini (Some cfg)))) j) = Crashes PanicDivideByZero).
  { intros m url b j. rewrite request_unfold, wait_for_token_unfold.
    unfold NewGemini. cbn [client http set_http step wire SetHeaders NewSession
      NewHTTPClient limiter_for publicLimiter String.eqb APITypePublic].
    destruct (Z.ltb_spec 0 (Requests (Public (RateLimit_ cfg)))); [|lia].
    unfold client_SetRateLimit.
    destruct (0 <? Requests (Private _))%Z; simpl;
      rewrite Hi;
      match goal with |- context [Wait ?a ?b ?c ?rl] =>
        rewrite (proj2 (zero_interval_crash a b c rl eq_refl eq_refl
                          (Hmono 0%nat 2%nat ltac:(lia)))) end; reflexivity. }
  assert (Hstep : step (client (NewGemini (Some cfg))) = 2%nat).
  { unfold NewGemini, client_SetRateLimit. simpl.
    destruct (0 <? Requests (Public _))%Z; destruct (0 <? Requests (Private _))%Z;
      reflexivity. }
  destruct op as [|symbol|symbol];
    unfold call_public, answered, ListSymbols, GetSymbolDetails, GetTickerV2;
    unfold bind at 1; unfold bind at 1, get; unfold bind at 1;
    unfold glog, on_client, zoom, logf, modify; unfold bind at 1;
    unfold GetWithType, RequestWithType;
    cbn [client set_client http step wire journal]; rewrite Hstep, Hreq; reflexivity.
Qed.

End ExchangeSetup.

(** ** The factory and the SDK *)

Section FactoryFacts.
Context {U : Unicode}.

Lemma supported_iff {E} (f : Factory E) name :
  In name (GetSupportedExchanges f) <-> is_Some (constructors f !! name).
Proof.
  unfold GetSupportedExchanges. rewrite <- list_elem_of_In, list_elem_of_fmap. split.
  - intros ([k v] & -> & H). apply elem_of_map_to_list in H. simpl. eauto.
  - intros [v H]. exists (name, v). split; [reflexivity|]. apply elem_of_map_to_list, H.
Qed.

(** X22: the factory keeps its constructors by lower-cased name. [Create]
    finds a constructor under every name with the same lower-cased form as
    the name it was registered with (for an ASCII name, its upper-cased form
    for example), a registration under a name with another lower-cased form
    does not change what [Create] finds, and [GetSupportedExchanges] lists
    the lower-cased name once, next to the names listed before. *)
Theorem Factory_is_case_insensitive {E} (f : Factory E) a b constructor config :
  (ToLower a = ToLower b ->
   Create b config (Register a constructor f) = Ok (constructor config)) /\
  (ToLower a <> ToLower b ->
   Create b config (Register a constructor f) = Create b config f) /\
  (is_ascii a = true ->
   Create (ToUpper a) config (Register a constructor f) = Ok (constructor config)) /\
  (forall name,
     In name (GetSupportedExchanges (Register a constructor f)) <->
     name = ToLower a \/ In name (GetSupportedExchanges f)) /\
  base.NoDup (GetSupportedExchanges (Register a constructor f)).
Proof.
  split; [|split; [|split; [|split]]].
  - intros H. unfold Create, Register. simpl. rewrite <- H, lookup_insert_eq. reflexivity.
  - intros H. unfold Create, Register. simpl. rewrite lookup_insert_ne by exact H. reflexivity.
  - intros Ha. unfold Create, Register. simpl.
    rewrite (ToLower_ToUpper a Ha), lookup_insert_eq. reflexivity.
  - intros name. rewrite !supported_iff. unfold Register. simpl.
    destruct (decide (name = ToLower a)) as [->|Hne].
    + rewrite lookup_insert_eq. split; eauto.
    + rewrite lookup_insert_ne by congruence. split; [auto|]. intros [?|?]; [contradiction|auto].
  - unfold GetSupportedExchanges. apply NoDup_fst_map_to_list.
Qed.

(** X23: [Create], and [CreateByName] with it, of a name whose lower-cased
    form is not among the supported exchanges returns the error
    ExchangeNotSupported, whose message quotes the name as it was given. *)
Theorem Create_unknown_exchange {E} (f : Factory E) name config :
  ~ In (ToLower name) (GetSupportedExchanges f) ->
  Create name config f =
    Err (Newf ErrExchangeNotSupported ("exchange '" ++ name ++ "' not supported")) /\
  CreateByName name config f = Create name config f.
Proof.
  intros H. split; [|reflexivity]. unfold Create.
  destruct (constructors f !! ToLower name) as [c|] eqn:E0; [|reflexivity].
  exfalso. apply H, supported_iff. eauto.
Qed.

End FactoryFacts.

Section SDKFacts.
Context {U : Unicode} {N : Network}.

(** X24: the SDK supports exactly the names that [strings.ToLower] maps to
    "gemini": for such a name [NewExchange] returns [NewGemini] of the
    configuration, for every other name the error ExchangeNotSupported. An
    exchange made by [NewExchange] has both rate limiters; the one made by
    the package-level [NewGemini()] has none. *)
Theorem SDK_supports_gemini name config :
  CexSDK.SDK_GetSupportedExchanges CexSDK.New = ["gemini"] /\
  (ToLower name = "gemini" ->
   CexSDK.NewExchange name config CexSDK.New = Ok (NewGemini (Some config))) /\
  (ToLower name <> "gemini" ->
   CexSDK.NewExchange name config CexSDK.New =
     Err (Newf ErrExchangeNotSupported ("exchange '" ++ name ++ "' not supported"))) /\
  (forall g, CexSDK.NewExchange name config CexSDK.New = Ok g ->
     is_Some (publicLimiter (http (client g))) /\
     is_Some (privateLimiter (http (client g)))) /\
  publicLimiter (http (client CexSDK.SDK_NewGemini)) = None /\
  privateLimiter (http (client CexSDK.SDK_NewGemini)) = None.
Proof.
  assert (Hc : constructors (CexSDK.factory CexSDK.New) =
               {[ "gemini" := fun config => NewGemini (Some config) ]}).
  { unfold CexSDK.New, CexSDK.registerExchanges, Register, NewFactory. simpl.
    change (ToLower "gemini") with "gemini". apply insert_empty. }
  assert (Hyes : ToLower name = "gemini" ->
    CexSDK.NewExchange name config CexSDK.New = Ok (NewGemini (Some config))).
  { intros H. unfold CexSDK.NewExchange, CexSDK.SDK_GetSupportedExchanges, CreateByName, Create.
    rewrite Hc, H. reflexivity. }
  assert (Hno : ToLower name <> "gemini" ->
    CexSDK.NewExchange name config CexSDK.New =
      Err (Newf ErrExchangeNotSupported ("exchange '" ++ name ++ "' not supported"))).
  { intros H. unfold CexSDK.NewExchange, CreateByName, Create.
    rewrite Hc, lookup_singleton_ne by congruence. reflexivity. }
  split; [|split; [exact Hyes|split; [exact Hno|split]]].
  - unfold CexSDK.SDK_GetSupportedExchanges, GetSupportedExchanges. rewrite Hc.
    rewrite map_to_list_singleton. reflexivity.
  - intros g. destruct (String.eqb_spec (ToLower name) "gemini") as [H|H].
    + rewrite (Hyes H). intros [= <-].
      destruct (NewGemini_limiters config) as (H1 & H2 & _). split; assumption.
    + rewrite (Hno H). discriminate.
  - destruct (NewGemini_limiters config) as (_ & _ & H1 & H2). split; assumption.
Qed.

End SDKFacts.

(** X23 on an empty factory. *)
Lemma Create_unknown_exchange_witness :
  @Create Scenario.no_tables Gemini "Kraken" (Scenario.sandbox_config "k" "s") NewFactory =
    Err (Newf ErrExchangeNotSupported "exchange 'Kraken' not supported").
Proof.
  apply (proj1 (@Create_unknown_exchange Scenario.no_tables Gemini NewFactory "Kraken"
                  (Scenario.sandbox_config "k" "s") ltac:(vm_compute; tauto))).
Defined.

(** ** Trading pairs *)

Section Parsing.
Context {U : Unicode} {M : MarketCodec}.

Lemma all_space_ascii l : all_space l = true -> is_ascii l = true.
Proof.
  induction l as [|c l IH]; simpl; [reflexivity|].
  intros H. apply andb_true_iff in H as [Hc Hl]. rewrite (IH Hl), andb_true_r.
  revert Hc. clear. destruct c as [[] [] [] [] [] [] [] []]; intros H; first [reflexivity | discriminate].
Qed.

Lemma TrimSpace_ascii s : is_ascii s = true -> TrimSpace s = trim_right (trim_left s).
Proof. intros H. unfold TrimSpace. now rewrite H. Qed.

Lemma trim_left_spaces l x : all_space l = true -> trim_left (l ++ x) = trim_left x.
Proof.
  induction l as [|c l IH]; intros H.
  - now rewrite app_nil.
  - simpl in H. apply andb_true_iff in H as [Hc Hl].
    rewrite app_cons. simpl. rewrite Hc. apply IH, Hl.
Qed.

Lemma trim_left_clean x : starts_with_space x = false -> trim_left x = x.
Proof. destruct x as [|c x]; simpl; [reflexivity|]. intros ->. reflexivity. Qed.

Lemma trim_right_spaces r : all_space r = true -> trim_right r = "".
Proof.
  induction r as [|c r IH]; simpl; [reflexivity|].
  intros H. apply andb_true_iff in H as [Hc Hr]. rewrite (IH Hr), Hc. reflexivity.
Qed.

Lemma trim_right_clean s r :
  all_space r = true -> s <> "" -> ends_with_space s = false -> trim_right (s ++ r) = s.
Proof.
  intros Hr. induction s as [|c s IH]; intros Hne He; [contradiction|].
  rewrite app_cons. cbn [trim_right]. destruct s as [|c' s].
  - rewrite app_nil, (trim_right_spaces r Hr). simpl in He. rewrite He. reflexivity.
  - rewrite IH; [reflexivity | discriminate | exact He].
Qed.

(** X25: on ASCII text [parseFloatFromString] hands the text without its
    surrounding white space to [strconv.ParseFloat], and the empty string is
    zero without an error. Text that is not empty and holds white space only
    is not the empty string: it reaches [ParseFloat] as "". *)
Theorem parseFloatFromString_ignores_surrounding_space l s r :
  all_space l = true -> all_space r = true -> is_ascii s = true ->
  s <> "" -> starts_with_space s = false -> ends_with_space s = false ->
  parseFloatFromString (l ++ s ++ r) = strconv_ParseFloat s /\
  parseFloatFromString s = strconv_ParseFloat s /\
  parseFloatFromString "" = (0%Z, None) /\
  (l <> "" -> parseFloatFromString l = strconv_ParseFloat "").
Proof.
  intros Hl Hr Ha Hne Hs He.
  assert (Hasc : forall l, all_space l = true -> is_ascii (l ++ s ++ r) = true).
  { intros l0 Hl0. rewrite !is_ascii_app, Ha, (all_space_ascii l0 Hl0), (all_space_ascii r Hr).
    reflexivity. }
  assert (Ht : forall l, all_space l = true -> TrimSpace (l ++ s ++ r) = s).
  { intros l0 Hl0. rewrite TrimSpace_ascii by (apply Hasc, Hl0).
    rewrite trim_left_spaces by exact Hl0.
    rewrite trim_left_clean.
    - apply trim_right_clean; assumption.
    - destruct s as [|c s]; [contradiction|]. rewrite app_cons. exact Hs. }
  assert (Hnon : forall x, String.eqb (x ++ s ++ r) "" = false).
  { intros x. destruct x as [|c x]; [|rewrite app_cons; reflexivity].
    rewrite app_nil. destruct s as [|c s]; [contradiction|]. rewrite app_cons. reflexivity. }
  unfold parseFloatFromString. split; [|split; [|split; [reflexivity|]]].
  - rewrite Hnon, (Ht l Hl). reflexivity.
  - assert (Hs0 : TrimSpace s = s).
    { rewrite TrimSpace_ascii by exact Ha. rewrite trim_left_clean by exact Hs.
      rewrite <- (trim_right_clean s "" eq_refl Hne He) at 2.
      f_equal. clear. induction s as [|c s IH]; [reflexivity|]. rewrite app_cons. now f_equal. }
    destruct (String.eqb_spec s ""); [contradiction|]. rewrite Hs0. reflexivity.
  - intros Hnl. destruct (String.eqb_spec l ""); [contradiction|].
    rewrite TrimSpace_ascii by (apply all_space_ascii, Hl).
    replace (trim_left l) with ""; [reflexivity|].
    clear -Hl. induction l as [|c l IH]; [reflexivity|]. simpl in *.
    apply andb_true_iff in Hl as [-> Hl]. apply IH, Hl.
Qed.

End Parsing.

(** X25 on " 0.00001 ". *)
Lemma parseFloatFromString_ignores_surrounding_space_witness :
  @parseFloatFromString Scenario.no_tables Market.details " 0.00001 " =
    (4532020583610935537%Z, None).
Proof.
  apply (proj1 (@parseFloatFromString_ignores_surrounding_space Scenario.no_tables
                  Market.details " " "0.00001" " " eq_refl eq_refl eq_refl
                  ltac:(discriminate) eq_refl eq_refl)).
Defined.

Section Pairs.
Context {U : Unicode} {N : Network} {C : Codec} {M : MarketCodec}.

Lemma pairs_loop_map detailsMap symbols :
  pairs_loop detailsMap symbols = map (pair_of detailsMap) symbols.
Proof.
  unfold pairs_loop.
  assert (H : forall acc, fold_left (fun pairs symbol => pairs ++ [pair_of detailsMap symbol])%list
                            symbols acc = (acc ++ map (pair_of detailsMap) symbols)%list).
  { induction symbols as [|x xs IH]; intros acc; simpl.
    - now rewrite app_nil_r.
    - rewrite IH, <- app_assoc. reflexivity. }
  apply H.
Qed.

Lemma details_by_symbol_snoc ds d :
  details_by_symbol (ds ++ [d]) =
    <[ToLower (Symbol_Symbol d) := d]> (details_by_symbol ds).
Proof. unfold details_by_symbol. rewrite fold_left_app. reflexivity. Qed.

Lemma details_by_symbol_lookup ds : forall k d,
  details_by_symbol ds !! k = Some d -> ToLower (Symbol_Symbol d) = k /\ In d ds.
Proof.
  induction ds as [|x ds IH] using rev_ind; intros k d.
  - unfold details_by_symbol. simpl. rewrite lookup_empty. discriminate.
  - rewrite details_by_symbol_snoc.
    destruct (decide (ToLower (Symbol_Symbol x) = k)) as [<-|Hne].
    + rewrite lookup_insert_eq. intros [= <-]. split; [reflexivity|].
      apply in_or_app. right. left. reflexivity.
    + rewrite lookup_insert_ne by exact Hne. intros H.
      destruct (IH k d H) as [Hk Hin]. split; [exact Hk|]. apply in_or_app. auto.
Qed.

Lemma pair_of_symbol ds symbol :
  is_ascii symbol = true ->
  Forall (fun detail => is_ascii (Symbol_Symbol detail) = true) ds ->
  TradingPair.Symbol (pair_of (details_by_symbol ds) symbol) = ToUpper symbol.
Proof.
  intros Ha Hds. unfold pair_of.
  destruct (details_by_symbol ds !! ToLower symbol) as [d|] eqn:E; simpl; [|reflexivity].
  apply details_by_symbol_lookup in E as [E Hin].
  assert (Had : is_ascii (Symbol_Symbol d) = true).
  { rewrite Forall_forall in Hds. apply Hds, list_elem_of_In, Hin. }
  rewrite <- (ToUpper_ToLower (Symbol_Symbol d) Had), E. apply ToUpper_ToLower, Ha.
Qed.

(** X26: the pairs that [GetTradingPairs] builds follow the symbol list: one
    pair per symbol, in order. A symbol for which no detail has the same
    lower-cased name gets its upper-cased name, the extracted currencies, the
    status "TRADING" and zero sizes; of several details for one symbol the
    last one is used, and the pair takes its name, upper-cased, its
    currencies, status, tick size and parsed minimum order size from it. When
    the symbols and the names in the details are ASCII, the pairs are named
    by the upper-cased symbols in either case. *)
Theorem trading_pairs_follow_the_symbols symbolDetails symbols :
  let pairs := pairs_loop (details_by_symbol symbolDetails) in
  length (pairs symbols) = length symbols /\
  (Forall (fun symbol => is_ascii symbol = true) symbols ->
   Forall (fun detail => is_ascii (Symbol_Symbol detail) = true) symbolDetails ->
   map TradingPair.Symbol (pairs symbols) = map ToUpper symbols) /\
  (forall i symbol,
     symbols !! i = Some symbol ->
     (forall detail, In detail symbolDetails ->
        ToLower (Symbol_Symbol detail) <> ToLower symbol) ->
     pairs symbols !! i =
       Some (TradingPair.mk (ToUpper symbol) (extractBaseCurrency symbol)
               (extractQuoteCurrency symbol) "TRADING" 0%Z 0%Z 0%Z 0%Z)) /\
  (forall i symbol detail,
     symbols !! i = Some symbol ->
     ToLower (Symbol_Symbol detail) = ToLower symbol ->
     pairs_loop (details_by_symbol (symbolDetails ++ [detail])) symbols !! i =
       Some (TradingPair.mk (ToUpper (Symbol_Symbol detail))
               (ToUpper (Symbol_BaseCurrency detail))
               (ToUpper (Symbol_QuoteCurrency detail)) (Symbol_Status detail)
               (fst (parseFloatFromString (Symbol_MinOrderSize detail))) 0%Z 0%Z
               (Symbol_TickSize detail))).
Proof.
  cbv zeta. split; [|split; [|split]].
  - rewrite pairs_loop_map. apply length_map.
  - intros Hs Hds. rewrite pairs_loop_map, map_map.
    rewrite Forall_forall in Hs.
    apply map_ext_in. intros a Hin. apply pair_of_symbol; [|exact Hds].
    apply Hs, list_elem_of_In, Hin.
  - intros i symbol Hi Hnone. rewrite pairs_loop_map, list_lookup_fmap, Hi. simpl.
    unfold pair_of.
    destruct (details_by_symbol symbolDetails !! ToLower symbol) as [d|] eqn:E; [|reflexivity].
    apply details_by_symbol_lookup in E as [E Hin]. destruct (Hnone d Hin E).
  - intros i symbol detail Hi Hk. rewrite pairs_loop_map, list_lookup_fmap, Hi. simpl.
    unfold pair_of. rewrite details_by_symbol_snoc, <- Hk, lookup_insert_eq. reflexivity.
Qed.

Lemma Get_runs url s :
  usable APITypePublic (http s) -> calm ->
  exists via k s',
    Get url s =
      Returns (delivered (DoTimeout k (mkRequest "GET" url None (headers (http s)) via))) s' /\
    wire s' = (wire s ++ [mkRequest "GET" url None (headers (http s)) via])%list /\
    headers (http s') = headers (http s) /\
    usable APITypePublic (http s').
Proof.
  intros Hus Hcalm. unfold Get, RequestWithType.
  destruct (request_delivers "GET" url None APITypePublic s Hus Hcalm)
    as (via & k & s' & E & Hw & _ & _ & Hh & _ & _ & _ & _ & Hus').
  cbv zeta in E. unfold content_type_of in E, Hw. rewrite (right_id_L ∅ (∪)) in E, Hw.
  exists via, k, s'. auto.
Qed.

(** X27: with a usable public limiter and a context that is not done,
    [GetTradingPairs] always returns, and the two replies decide what. If
    the reply to the GET of the symbol list is not a 200, or its body does
    not parse, the error is a NetworkError, respectively a DataParsingError,
    and no second request is sent. Otherwise the details are requested with
    a second GET; a reply that is not a 200 is a NetworkError, a body that
    does not parse a DataParsingError, and else the call returns the pair of
    each listed symbol, in order, built from the parsed details. *)
Theorem GetTradingPairs_runs g :
  usable APITypePublic (http (client g)) -> calm ->
  exists res g' via1 k1 via2 k2,
    let defaults := headers (http (client g)) in
    let req1 := mkRequest "GET" (baseURL g ++ "/v1/symbols") None defaults via1 in
    let req2 := mkRequest "GET" (baseURL g ++ "/v1/symbols/details") None defaults via2 in
    GetTradingPairs g = Returns res g' /\
    match delivered (DoTimeout k1 req1) with
    | Err err =>
        res = Err (Wrap ErrNetworkError "failed to fetch symbols" err) /\
        wire (client g') = (wire (client g) ++ [req1])%list
    | Ok response =>
        match json_Unmarshal_Symbols response with
        | Err err =>
            res = Err (Wrap ErrDataParsingError "failed to parse symbols response" err) /\
            wire (client g') = (wire (client g) ++ [req1])%list
        | Ok symbols =>
            wire (client g') = (wire (client g) ++ [req1; req2])%list /\
            match delivered (DoTimeout k2 req2) with
            | Err err =>
                res = Err (Wrap ErrNetworkError "failed to fetch symbol details" err)
            | Ok detailsResp =>
                match json_Unmarshal_SymbolList detailsResp with
                | Err err =>
                    res = Err (Wrap ErrDataParsingError "failed to parse symbol details" err)
                | Ok symbolDetails =>
                    res = Ok (map (pair_of (details_by_symbol symbolDetails)) symbols)
                end
            end
        end
    end.
Proof.
  intros Hus Hcalm. unfold GetTradingPairs. unfold bind at 1, get. unfold bind at 1.
  unfold on_client at 1, zoom.
  destruct (Get_runs (baseURL g ++ "/v1/symbols") (client g) Hus Hcalm)
    as (via & k & s1 & -> & Hw1 & Hh1 & Hus1).
  destruct (Get_runs (baseURL g ++ "/v1/symbols/details") s1 Hus1 Hcalm)
    as (via2 & k2 & s2 & E2 & Hw2 & _ & _).
  rewrite Hh1 in E2, Hw2.
  destruct (delivered (DoTimeout k _)) as [response|err] eqn:E1.
  2:{ unfold ret. exists (Err (Wrap ErrNetworkError "failed to fetch symbols" err)).
      eexists _, via, k, via2, k2. cbv zeta. split; [reflexivity|].
      rewrite E1. split; [reflexivity|exact Hw1]. }
  destruct (json_Unmarshal_Symbols response) as [symbols|err] eqn:Es.
  2:{ unfold ret.
      exists (Err (Wrap ErrDataParsingError "failed to parse symbols response" err)).
      eexists _, via, k, via2, k2. cbv zeta. split; [reflexivity|].
      rewrite E1, Es. split; [reflexivity|exact Hw1]. }
  unfold bind at 1. unfold on_client at 1, zoom. simpl client. simpl baseURL.
  rewrite E2.
  assert (Hw : wire s2 =
    (wire (client g) ++
     [mkRequest "GET" (baseURL g ++ "/v1/symbols") None (headers (http (client g))) via;
      mkRequest "GET" (baseURL g ++ "/v1/symbols/details") None
        (headers (http (client g))) via2])%list).
  { rewrite Hw2, Hw1, <- app_assoc. reflexivity. }
  destruct (delivered (DoTimeout k2 _)) as [detailsResp|err] eqn:Ed.
  2:{ unfold ret. exists (Err (Wrap ErrNetworkError "failed to fetch symbol details" err)).
      eexists _, via, k, via2, k2. cbv zeta. split; [reflexivity|].
      rewrite E1, Es, Ed. split; [exact Hw|reflexivity]. }
  destruct (json_Unmarshal_SymbolList detailsResp) as [symbolDetails|err] eqn:El.
  2:{ unfold ret. exists (Err (Wrap ErrDataParsingError "failed to parse symbol details" err)).
      eexists _, via, k, via2, k2. cbv zeta. split; [reflexivity|].
      rewrite E1, Es, Ed, El. split; [exact Hw|reflexivity]. }
  unfold ret. exists (Ok (map (pair_of (details_by_symbol symbolDetails)) symbols)).
  eexists _, via, k, via2, k2. cbv zeta. split; [rewrite pairs_loop_map; reflexivity|].
  rewrite E1, Es, Ed, El. split; [exact Hw|reflexivity].
Qed.

End Pairs.

(** ** The properties on concrete processes *)

Lemma account_usable_public :
  usable APITypePublic (http (client Scenario.account)).
Proof.
  intros rl H. vm_compute in H. injection H as <-.
  split; [reflexivity | discriminate].
Defined.

Lemma quiet_monotone r : @monotone_clock (Scenario.quiet r).
Proof. intros j k H. simpl. unfold Scenario.clock. lia. Defined.

(** X10 on an exchange that answers 400 with an error envelope. *)
Lemma private_op_reports_http_errors_as_network_errors_witness :
  exists res g' req,
    @call_private (Scenario.quiet (NetResponse 400 (bytes_of "envelope"))) Scenario.stand_in
      (OpGetActiveOrders "primary") Scenario.account = Returns res g' /\
    last (wire (client g')) = Some req /\
    res = Err (Wrap ErrNetworkError "failed to fetch active orders"
                 (Newf ErrNetworkError "HTTP error: 400 envelope")).
Proof.
  destruct (@private_op_reports_http_errors_as_network_errors
              (Scenario.quiet (NetResponse 400 (bytes_of "envelope"))) Scenario.stand_in
              (OpGetActiveOrders "primary") Scenario.account
              (bytes_of "/v1/orders 1700000000000000002"))
    as (res & g' & req & k & E & Hw & Hres & _).
  - discriminate.
  - discriminate.
  - exact account_usable.
  - exact (quiet_calm _).
  - reflexivity.
  - exists res, g', req. split; [exact E|]. split; [exact Hw|]. apply Hres. reflexivity.
Defined.

(** X11 on an account without credentials. *)
Lemma private_op_error_kinds_witness :
  GetCode missing_credentials_error = ErrInvalidInput \/
  GetCode missing_credentials_error = ErrDataParsingError \/
  GetCode missing_credentials_error = ErrNetworkError \/
  GetCode missing_credentials_error = ErrAPIError.
Proof.
  apply (@private_op_error_kinds (Scenario.quiet Scenario.envelope) Scenario.stand_in
           (OpGetAvailableBalances "primary") Scenario.anonymous
           missing_credentials_error Scenario.anonymous).
  reflexivity.
Defined.

(** X12 on the ticker of btcusd, asked by an account without credentials. *)
Lemma public_call_wire_format_witness :
  exists res g' req,
    @call_public (Scenario.quiet Scenario.envelope) Market.listing Market.details
      (OpGetTickerV2 "btcusd") Scenario.anonymous = Returns res g' /\
    wire (client g') = (wire (client Scenario.anonymous) ++ [req])%list /\
    method req = "GET" /\
    uri req = "https://api.sandbox.gemini.com/v2/ticker/btcusd" /\ body req = None.
Proof.
  destruct (@public_call_wire_format (Scenario.quiet Scenario.envelope) Market.listing
              Market.details (OpGetTickerV2 "btcusd") Scenario.anonymous)
    as (res & g' & req & E & Hw & Hm & Hu & Hb & _).
  - exact account_usable_public.
  - exact (quiet_calm _).
  - exists res, g', req. repeat split; assumption.
Defined.

(** X13 on the symbol list of the concrete market. *)
Lemma public_call_result_witness :
  exists res g' req,
    @call_public (Scenario.quiet Scenario.envelope) Market.listing Market.details
      OpListSymbols Scenario.account = Returns res g' /\
    last (wire (client g')) = Some req /\
    res = Ok (SymbolNames ["btcusd"; "ethgusd"]).
Proof.
  destruct (@public_call_result (Scenario.quiet Scenario.envelope) Market.listing
              Market.details OpListSymbols Scenario.account)
    as (res & g' & req & k & E & Hw & Hres & _).
  - exact account_usable_public.
  - exact (quiet_calm _).
  - exists res, g', req. split; [exact E|]. split; [exact Hw|]. exact Hres.
Defined.

(** X14 on the concrete market, whose two detail fetches do not decode. *)
Lemma GetAllSymbolDetails_requests_witness :
  exists res g',
    @GetAllSymbolDetails (Scenario.quiet Scenario.envelope) Market.listing
      Scenario.account = Returns res g' /\
    res = Ok [] /\
    map uri (wire (client g')) =
      ["https://api.sandbox.gemini.com/v1/symbols";
       "https://api.sandbox.gemini.com/v1/symbols/details/btcusd";
       "https://api.sandbox.gemini.com/v1/symbols/details/ethgusd"].
Proof.
  destruct (@GetAllSymbolDetails_requests (Scenario.quiet Scenario.envelope) Market.listing
              Market.details Scenario.account account_usable_public (quiet_calm _))
    as (res & g' & E & H).
  exists res, g'. split; [exact E|].
  destruct (@ListSymbols (Scenario.quiet Scenario.envelope) Market.listing Scenario.account)
    as [[symbols|err] g1|c] eqn:EL; vm_compute in EL; try discriminate.
  injection EL as <- <-.
  destruct H as (outcomes & g2 & Ef & _ & Hres & Hw).
  vm_compute in Ef. injection Ef as <- <-.
  split; [exact Hres | exact Hw].
Defined.

(** X15 on an account created without credentials and moved to production. *)
Lemma setters_take_effect_witness :
  exists res g' req,
    @call_private (Scenario.quiet Scenario.envelope) Scenario.stand_in
      (OpGetAvailableBalances "primary")
      (SetSandbox false (SetAPICredentials "new-key" "new-secret" Scenario.anonymous)) =
      Returns res g' /\
    last (wire (client g')) = Some req /\
    uri req = "https://api.gemini.com/v1/balances" /\
    header req !! "X-GEMINI-APIKEY" = Some "new-key".
Proof.
  destruct (@setters_take_effect (Scenario.quiet Scenario.envelope) Scenario.stand_in
              (OpGetAvailableBalances "primary") Scenario.anonymous "new-key" "new-secret"
              false (bytes_of "/v1/balances 1700000000000000002"))
    as (res & g' & req & E & Hw & Hu & Hk & _).
  - discriminate.
  - discriminate.
  - exact account_usable.
  - exact (quiet_calm _).
  - reflexivity.
  - exists res, g', req. repeat split; assumption.
Defined.

(** X17 on a malformed base URL, and on the sandbox account in a process
    whose context is cancelled. *)
Lemma ValidateConfig_checks_then_connects_witness :
  @ValidateConfig Scenario.cancelling
    (mkGemini (client Scenario.account) "invalid-url" "" "" false "CEX-SDK/1.0") =
    Returns (Some (New ErrInvalidInput "invalid base URL format"))
      (mkGemini (client Scenario.account) "invalid-url" "" "" false "CEX-SDK/1.0") /\
  exists res g' req k,
    @ValidateConfig Scenario.cancelling Scenario.account = Returns res g' /\
    wire (client g') = (wire (client Scenario.account) ++ [req])%list /\
    method req = "GET" /\ uri req = "https://api.sandbox.gemini.com/v1/symbols" /\
    body req = None /\
    (res = None <-> exists payload, @DoTimeout Scenario.cancelling k req =
                                      NetResponse 200 payload) /\
    (forall e, res = Some e ->
       e = Wrap ErrNetworkError "failed to connect to Gemini API"
             (transport_error (@DoTimeout Scenario.cancelling k req))).
Proof.
  split.
  - apply (proj1 (proj2 (@ValidateConfig_checks_then_connects Scenario.cancelling
                           (mkGemini (client Scenario.account) "invalid-url" "" "" false
                              "CEX-SDK/1.0"))));
      [discriminate | reflexivity | reflexivity].
  - apply (proj2 (proj2 (@ValidateConfig_checks_then_connects Scenario.cancelling
                           Scenario.account)));
      [right; reflexivity | exact account_usable_public].
Defined.

(** X19 on ten public requests per zero interval. *)
Lemma zero_interval_config_panics_witness :
  @call_public (Scenario.quiet Scenario.envelope) Market.listing Market.details
    OpListSymbols (@NewGemini (Scenario.quiet Scenario.envelope) (Some Market.no_interval)) =
    Crashes PanicDivideByZero.
Proof.
  apply (@zero_interval_config_panics (Scenario.quiet Scenario.envelope) Market.listing
           Market.details Market.no_interval OpListSymbols);
    [reflexivity | reflexivity | exact (quiet_monotone _)].
Defined.

(** X22 on "Gemini", registered and then asked for as "GEMINI". *)
Lemma Factory_is_case_insensitive_witness :
  @Create Scenario.no_tables Gemini "GEMINI" (Scenario.sandbox_config "k" "s")
    (@Register Scenario.no_tables Gemini "Gemini" (fun _ => Scenario.account) NewFactory) =
    Ok Scenario.account.
Proof.
  apply (proj1 (@Factory_is_case_insensitive Scenario.no_tables Gemini NewFactory
                  "Gemini" "GEMINI" (fun _ => Scenario.account)
                  (Scenario.sandbox_config "k" "s")) eq_refl).
Defined.

(** X24 on the spelling "Gemini". *)
Lemma SDK_supports_gemini_witness :
  @CexSDK.NewExchange Scenario.no_tables "Gemini" (Scenario.sandbox_config "k" "s")
    (@CexSDK.New Scenario.no_tables (Scenario.quiet Scenario.envelope)) =
    Ok (@NewGemini (Scenario.quiet Scenario.envelope) (Some (Scenario.sandbox_config "k" "s"))).
Proof.
  apply (proj1 (proj2 (@SDK_supports_gemini Scenario.no_tables
                         (Scenario.quiet Scenario.envelope) "Gemini"
                         (Scenario.sandbox_config "k" "s"))) eq_refl).
Defined.

(** X26 on the concrete market: the names of the pairs, and the pair of the
    symbol without details. *)
Lemma trading_pairs_follow_the_symbols_witness :
  map TradingPair.Symbol
    (@pairs_loop Scenario.no_tables Market.details
       (@details_by_symbol Scenario.no_tables [Market.btcusd]) ["btcusd"; "ethgusd"]) =
    ["BTCUSD"; "ETHGUSD"] /\
  @pairs_loop Scenario.no_tables Market.details
    (@details_by_symbol Scenario.no_tables [Market.btcusd]) ["btcusd"; "ethgusd"] !! 1%nat =
    Some (TradingPair.mk "ETHGUSD" "ETHG" "USD" "TRADING" 0%Z 0%Z 0%Z 0%Z).
Proof.
  split.
  - apply (proj1 (proj2 (@trading_pairs_follow_the_symbols Scenario.no_tables Market.details
                           [Market.btcusd] ["btcusd"; "ethgusd"]))).
    + repeat constructor.
    + repeat constructor.
  - apply (proj1 (proj2 (proj2 (@trading_pairs_follow_the_symbols Scenario.no_tables
                                  Market.details [Market.btcusd] ["btcusd"; "ethgusd"])))
             1%nat "ethgusd" eq_refl).
    intros detail [<- | []]. vm_compute. discriminate.
Defined.

(** X27 on the concrete market: two requests and two pairs. *)
Lemma GetTradingPairs_runs_witness :
  exists res g',
    @GetTradingPairs Scenario.no_tables (Scenario.quiet Scenario.envelope) Market.listing
      Market.details Scenario.account = Returns res g' /\
    map uri (wire (client g')) =
      ["https://api.sandbox.gemini.com/v1/symbols";
       "https://api.sandbox.gemini.com/v1/symbols/details"] /\
    res = Ok [TradingPair.mk "BTCUSD" "BTC" "USD" "open" 4532020583610935537%Z 0%Z 0%Z
                4576918229304087675%Z;
              TradingPair.mk "ETHGUSD" "ETHG" "USD" "TRADING" 0%Z 0%Z 0%Z 0%Z].
Proof.
  destruct (@GetTradingPairs_runs Scenario.no_tables (Scenario.quiet Scenario.envelope)
              Market.listing Market.details Scenario.account account_usable_public
              (quiet_calm _))
    as (res & g' & via1 & k1 & via2 & k2 & E & H).
  exists res, g'. split; [exact E|]. cbv zeta in H.
  change (@DoTimeout (Scenario.quiet Scenario.envelope)) with
    (fun (_ : nat) (_ : Request) => Scenario.envelope) in H.
  cbv beta in H. simpl delivered in H. simpl in H.
  destruct H as [Hw Hres]. split; [rewrite Hw; reflexivity | exact Hres].
Defined.
